(** * Workflow execution engine: scheduler, executor and source validation

    A shallow embedding of [src/lib/workflowExecutor.ts] (class
    [WorkflowExecutor]) and of the two pure helpers of
    [src/lib/contractCompiler.ts] that the Contract Input handler calls
    ([validateSolidityCode], [extractContractName]).

    - JavaScript [Map]s are insertion-ordered association lists ([JsMap]):
      both [inDegree.forEach] and [executionData.entries()] depend on the
      insertion order.
    - [buildExecutionOrder] is Kahn's algorithm, a [while] loop over a
      queue; it is defined by well-founded recursion on a potential that
      each iteration decreases.
    - Thrown exceptions are values of an error monad; the two
      [try]/[catch] blocks are written with [tryCatch]. The scheduler and
      [fetch] throw [Error] objects ([Exc]); a handler may throw any value
      (the Deploy handler passes on what the wallet provider rejected
      with), and a [catch (error: any)] block reads [error.message] of
      whatever it caught: [undefined] when the value has no such property,
      a [TypeError] of its own when the value is [null] or [undefined].
    - The callbacks of the execution context are notification sinks: each
      call is appended to a trace, and none of them throws.
    - The handlers of Contract Input, Extract ABI and Extract Bytecode
      are functions of the node and the execution data and are modelled as
      such. The other handlers read the clock or await the delegated
      services (compiler, wallet, AI); what they do in a run is given by an
      environment, over which the theorems quantify. The pause
      of 500 ms at the end of [executeNode] has no counterpart here.
    - The handlers of Project Init, Compile and AI Audit are modelled
      as functions of what their services answer ([serviceEnv]): the
      compiler client [compileContract] and [batchCompileContracts] of
      [contractCompiler.ts] over the answer of the network, the clock and
      [analyzeContract] as given values.
    - The Deploy handler is modelled over the wallet provider
      ([walletEnv]), with [connectWallet] and [switchNetwork] of
      [blockchainService.ts] and the answer of [deployContract] as a given
      value; the Completion handler over the summary text.
    - [Object.fromEntries] lists the keys that are array indices first
      ([fromEntries]).
    - The callers of the executor: the canvas and execution part of the
      store ([src/store/workflowStore.ts]), the hook [useWorkflowExecution]
      that feeds the callbacks of a run into the store, and the generator
      of workflows from templates
      ([src/lib/templateWorkflowGenerator.ts]), whose ids are stamped with
      readings of the clock. *)

From Stdlib Require Import List String Ascii ZArith Lia Bool Arith Permutation Relations.
From Stdlib Require Import DecimalString Sorted.
From Equations Require Import Equations.
Import ListNotations.
Local Open Scope string_scope.
Local Open Scope list_scope.
Local Open Scope nat_scope.

Set Implicit Arguments.
Local Set Warnings "-register-all".

(** ** Insertion-ordered maps (JavaScript [Map] with string keys) *)

Module JsMap.
Section Ops.
Context {V : Type}.

(** [m.get(k)]: [None] stands for [undefined]. *)
Fixpoint get (m : list (string * V)) (k : string) : option V :=
  match m with
  | [] => None
  | (k', v) :: m' => if String.eqb k' k then Some v else get m' k
  end.

(** [m.set(k, v)]: an existing key keeps its position, a new key goes
    to the end. *)
Fixpoint set (m : list (string * V)) (k : string) (v : V) : list (string * V) :=
  match m with
  | [] => [(k, v)]
  | (k', v') :: m' =>
      if String.eqb k' k then (k', v) :: m' else (k', v') :: set m' k v
  end.

Definition keys (m : list (string * V)) : list string := map fst m.
End Ops.
End JsMap.

(** ** Graph model *)

(** The status strings ['idle' | 'running' | 'success' | 'error']. *)
Inductive Status := Idle | Running | Success | Error.

Record Edge := mkEdge {
  edgeId : string;
  source : string;
  target : string;
  sourceStatus : option Status;
  targetStatus : option Status
}.

(** JavaScript values carried as step outputs and payload fields ([any]). *)
Inductive JsVal :=
| JUndefined
| JNull
| JBool (b : bool)
| JNum (z : Z)
| JStr (s : string)
| JArr (l : list JsVal)
| JObj (fields : list (string * JsVal)).

(** A string where a value of type [any] is expected. *)
Coercion JStr : string >-> JsVal.

(** [NodeData]: the label, the kind tag, the two fields the Contract Input
    handler reads, and the remaining kind-specific fields. The kind tag is
    a string: the dispatcher has a [default] branch for tags outside
    [NodeType]. *)
Record NodeData := mkNodeData {
  label : string;
  type : string;
  contractCode : option string;
  contractName : option string;
  payload : list (string * JsVal)
}.

Record Node := mkNode {
  id : string;
  data : NodeData
}.

(** ** Topological scheduler ([buildExecutionOrder]) *)

(** [x || 0] on the result of [Map.get]: [undefined] and [0] both give [0]. *)
Definition orZero (d : option Z) : Z :=
  match d with
  | Some z => if Z.eqb z 0 then 0%Z else z
  | None => 0%Z
  end.

(** The two maps [inDegree] and [adjacencyList]. *)
Record Graph := mkGraph {
  inDegree : list (string * Z);
  adjacencyList : list (string * list string)
}.

(** [nodes.forEach(node => { inDegree.set(node.id, 0); adjacencyList.set(node.id, []) })] *)
Definition initNode (g : Graph) (n : Node) : Graph :=
  mkGraph (JsMap.set (inDegree g) (id n) 0%Z)
          (JsMap.set (adjacencyList g) (id n) []).

(** [edges.forEach(edge => { adjacencyList.get(edge.source)?.push(edge.target);
      inDegree.set(edge.target, (inDegree.get(edge.target) || 0) + 1) })] *)
Definition addEdge (g : Graph) (e : Edge) : Graph :=
  mkGraph
    (JsMap.set (inDegree g) (target e)
       (orZero (JsMap.get (inDegree g) (target e)) + 1)%Z)
    (match JsMap.get (adjacencyList g) (source e) with
     | Some l => JsMap.set (adjacencyList g) (source e) (l ++ [target e])
     | None => adjacencyList g
     end).

Definition buildGraph (nodes : list Node) (edges : list Edge) : Graph :=
  fold_left addEdge edges (fold_left initNode nodes (mkGraph [] [])).

(** [inDegree.forEach((degree, nodeId) => { if (degree === 0) queue.push(nodeId) })] *)
Definition initialQueue (deg : list (string * Z)) : list string :=
  map fst (filter (fun kv => Z.eqb (snd kv) 0) deg).

(** The body of [adjacencyList.get(nodeId)?.forEach(neighbor => ...)]:
    decrement the neighbour's in-degree and enqueue it when it reaches 0.
    The state is the pair (inDegree, queue). *)
Definition relax (s : list (string * Z) * list string) (neighbor : string)
  : list (string * Z) * list string :=
  let newDegree := (orZero (JsMap.get (fst s) neighbor) - 1)%Z in
  (JsMap.set (fst s) neighbor newDegree,
   if Z.eqb newDegree 0 then snd s ++ [neighbor] else snd s).

Definition relaxAll (adj : list (string * list string)) (nodeId : string)
  (s : list (string * Z) * list string) : list (string * Z) * list string :=
  match JsMap.get adj nodeId with
  | Some neighbors => fold_left relax neighbors s
  | None => s
  end.

(** Termination measure of the [while] loop: the queue length plus the
    number of keys whose in-degree is still positive. *)
Definition positives (deg : list (string * Z)) : nat :=
  List.length (filter (fun kv => Z.ltb 0 (snd kv)) deg).

Definition potential (s : list (string * Z) * list string) : nat :=
  positives (fst s) + List.length (snd s).

Lemma positives_set_le deg k z :
  (z <= orZero (JsMap.get deg k))%Z -> positives (JsMap.set deg k z) <= positives deg.
Proof.
  unfold positives. induction deg as [|[k' v] deg IH]; intros Hz; simpl in *.
  - destruct (Z.ltb_spec 0 z); simpl; lia.
  - destruct (String.eqb k' k); simpl.
    + unfold orZero in Hz.
      destruct (Z.ltb_spec 0 z), (Z.ltb_spec 0 v); simpl; try lia.
      destruct (Z.eqb_spec v 0); lia.
    + specialize (IH Hz). destruct (Z.ltb 0 v); simpl; lia.
Qed.

Lemma positives_set_lt deg k :
  orZero (JsMap.get deg k) = 1%Z ->
  S (positives (JsMap.set deg k 0%Z)) <= positives deg.
Proof.
  unfold positives. induction deg as [|[k' v] deg IH]; intros Hz; simpl in *.
  - discriminate.
  - destruct (String.eqb k' k); simpl.
    + unfold orZero in Hz. destruct (Z.eqb_spec v 0); [lia|]. subst v. simpl. lia.
    + specialize (IH Hz). destruct (Z.ltb 0 v); simpl; lia.
Qed.

Lemma relax_potential s neighbor : potential (relax s neighbor) <= potential s.
Proof.
  destruct s as [deg q]. unfold potential, relax. simpl.
  destruct (Z.eqb_spec (orZero (JsMap.get deg neighbor) - 1) 0) as [E|E].
  - rewrite E, length_app. simpl.
    pose proof (@positives_set_lt deg neighbor). lia.
  - pose proof (@positives_set_le deg neighbor (orZero (JsMap.get deg neighbor) - 1)).
    lia.
Qed.

Lemma relaxAll_potential adj nodeId s :
  potential (relaxAll adj nodeId s) <= potential s.
Proof.
  unfold relaxAll. destruct (JsMap.get adj nodeId) as [l|]; [|lia].
  revert s. induction l as [|x l IH]; intros s; simpl; [lia|].
  specialize (IH (relax s x)). pose proof (relax_potential s x). lia.
Qed.

(** [while (queue.length > 0) { const nodeId = queue.shift()!; result.push(nodeId); ... }] *)
Equations? kahnLoop (adj : list (string * list string))
  (s : list (string * Z) * list string) (result : list string)
  : list string by wf (potential s) lt :=
kahnLoop adj (deg, []) result := result;
kahnLoop adj (deg, nodeId :: queue) result :=
  kahnLoop adj (relaxAll adj nodeId (deg, queue)) (result ++ [nodeId]).
Proof.
  pose proof (relaxAll_potential adj nodeId (deg, queue)) as H.
  unfold potential in *. simpl in *. lia.
Qed.

(** An [Error] object, as [new Error(message)] and the platform make
    them: only its [message] is ever read. *)
Record JsError := mkError { errorMessage : string }.

(** How a computation ends: with a value, or with a thrown one. *)
Inductive Completion (E A : Type) :=
| Returned (a : A)
| Thrown (e : E).
Arguments Returned {E A} a.
Arguments Thrown {E A} e.

(** Code that throws [Error] objects only. *)
Definition Exc : Type -> Type := Completion JsError.

(** The [Error] object as the value a [catch] block binds. *)
Definition errorObject (e : JsError) : JsVal :=
  JObj [("message", JStr (errorMessage e))].

Definition cycleMessage : string :=
  "Workflow contains a cycle. Please check your connections.".

Definition buildExecutionOrder (nodes : list Node) (edges : list Edge)
  : Exc (list string) :=
  let g := buildGraph nodes edges in
  let result := kahnLoop (adjacencyList g) (inDegree g, initialQueue (inDegree g)) [] in
  if Nat.eqb (List.length result) (List.length nodes)
  then Returned result
  else Thrown (mkError cycleMessage).

(** ** Source validation ([contractCompiler.ts]) *)

(** Strings are sequences of code units below 256; there [\s] and
    [String.prototype.trim] share one whitespace set (tab to carriage
    return, space, no-break space), and [\w] is [[A-Za-z0-9_]]. *)
Definition isSpace (c : ascii) : bool :=
  let n := nat_of_ascii c in
  ((9 <=? n) && (n <=? 13)) || (n =? 32) || (n =? 160).

Definition isWord (c : ascii) : bool :=
  let n := nat_of_ascii c in
  ((48 <=? n) && (n <=? 57)) || ((65 <=? n) && (n <=? 90))
  || (n =? 95) || ((97 <=? n) && (n <=? 122)).

Inductive CharClass := SpaceClass | WordClass.

Definition inClass (c : CharClass) (a : ascii) : bool :=
  match c with
  | SpaceClass => isSpace a
  | WordClass => isWord a
  end.

(** The regular expressions of the two helpers: literals, greedy [+] and
    [*] over a character class, sequence, alternation and one capturing
    group. *)
Inductive Regex :=
| Lit (s : string)
| Plus (c : CharClass)
| Star (c : CharClass)
| Seq (r1 r2 : Regex)
| Alt (r1 r2 : Regex)
| Group (r : Regex).

(** [dropPrefix p s]: the rest of [s] after the literal [p], if [s] starts
    with [p]. *)
Fixpoint dropPrefix (p s : string) : option string :=
  match p with
  | EmptyString => Some s
  | String a p' =>
      match s with
      | String b s' => if Ascii.eqb a b then dropPrefix p' s' else None
      | EmptyString => None
      end
  end.

(** The text consumed between the input [s] and its suffix [s']. *)
Definition consumed (s s' : string) : string :=
  substring 0 (String.length s - String.length s') s.

Section Matcher.
Context {R : Type}.

(** Greedy [c*] with backtracking: take one more character first, fall
    back to the continuation at the current position. *)
Fixpoint matchStar (c : CharClass) (s : string) (k : string -> option R) : option R :=
  match s with
  | String a s' =>
      if inClass c a then
        match matchStar c s' k with
        | Some r => Some r
        | None => k s
        end
      else k s
  | EmptyString => k s
  end.

Definition matchPlus (c : CharClass) (s : string) (k : string -> option R) : option R :=
  match s with
  | String a s' => if inClass c a then matchStar c s' k else None
  | EmptyString => None
  end.

(** Backtracking matcher in continuation-passing style; [cap] is the
    text of capture group 1 so far. Alternatives are tried left to
    right, as the ECMAScript semantics prescribes. *)
Fixpoint matchRe (r : Regex) (s : string) (cap : option string)
  (k : string -> option string -> option R) : option R :=
  match r with
  | Lit p =>
      match dropPrefix p s with
      | Some s' => k s' cap
      | None => None
      end
  | Plus c => matchPlus c s (fun s' => k s' cap)
  | Star c => matchStar c s (fun s' => k s' cap)
  | Seq r1 r2 => matchRe r1 s cap (fun s' cap' => matchRe r2 s' cap' k)
  | Alt r1 r2 =>
      match matchRe r1 s cap k with
      | Some x => Some x
      | None => matchRe r2 s cap k
      end
  | Group r1 => matchRe r1 s cap (fun s' _ => k s' (Some (consumed s s')))
  end.
End Matcher.

(** [str.match(re)] for a regular expression without the [g] flag: the
    leftmost match. [None] is [null]; [Some cap] is a match whose group 1
    is [cap]. *)
Fixpoint jsMatch (r : Regex) (s : string) : option (option string) :=
  match matchRe r s None (fun _ cap => Some cap) with
  | Some cap => Some cap
  | None =>
      match s with
      | String _ s' => jsMatch r s'
      | EmptyString => None
      end
  end.

(** [/contract\s+(\w+)(?:\s+is\s+|\s*\{)/] *)
Definition mainContractRe : Regex :=
  Seq (Lit "contract")
    (Seq (Plus SpaceClass)
       (Seq (Group (Plus WordClass))
          (Alt (Seq (Plus SpaceClass) (Seq (Lit "is") (Plus SpaceClass)))
               (Seq (Star SpaceClass) (Lit "{"))))).

Definition keywordRe : Regex :=
  Alt (Lit "contract") (Alt (Lit "interface") (Lit "library")).

(** [/(?:contract|interface|library)\s+(\w+)/] *)
Definition anyContractRe : Regex :=
  Seq keywordRe (Seq (Plus SpaceClass) (Group (Plus WordClass))).

(** [/(?:contract|interface|library)\s+\w+/] *)
Definition definitionRe : Regex :=
  Seq keywordRe (Seq (Plus SpaceClass) (Plus WordClass)).

Definition extractContractName (sourceCode : string) : option string :=
  match jsMatch mainContractRe sourceCode with
  | Some cap => cap
  | None =>
      match jsMatch anyContractRe sourceCode with
      | Some cap => cap
      | None => None
      end
  end.

Fixpoint trimStart (s : string) : string :=
  match s with
  | String a s' => if isSpace a then trimStart s' else s
  | EmptyString => EmptyString
  end.

Definition reverse (s : string) : string :=
  string_of_list_ascii (rev (list_ascii_of_string s)).

Definition trim (s : string) : string :=
  reverse (trimStart (reverse (trimStart s))).

(** [s.includes(sub)] *)
Fixpoint includes (s sub : string) : bool :=
  match dropPrefix sub s with
  | Some _ => true
  | None =>
      match s with
      | String _ s' => includes s' sub
      | EmptyString => false
      end
  end.

Record Validation := mkValidation {
  valid : bool;
  validationMessage : option string
}.

Definition doubleQuote : string := String (ascii_of_nat 34) EmptyString.

Definition validateSolidityCode (sourceCode : string) : Validation :=
  if String.eqb sourceCode EmptyString || Nat.eqb (String.length (trim sourceCode)) 0 then
    mkValidation false (Some "Source code is empty")
  else if negb (includes sourceCode "pragma solidity") then
    mkValidation false
      (Some (String.append "Missing "
         (String.append doubleQuote
           (String.append "pragma solidity"
             (String.append doubleQuote
               " directive. Please specify Solidity version.")))))
  else
    match jsMatch definitionRe sourceCode with
    | None =>
        mkValidation false (Some "No contract, interface, or library definition found")
    | Some _ => mkValidation true None
    end.

(** ** Executor state, callbacks and the exception monad *)

(** [message] is declared a string; the [catch] block of [executeNode]
    fills it from [error.message], a value of type [any]. *)
Record ExecutionResult := mkResult {
  success : bool;
  message : JsVal;
  resultData : JsVal  (* [data?: any]; [JUndefined] when absent *)
}.

(** One entry per callback call on the execution context, in call order.
    [HandlerCall] is not a callback: it marks the point where the [switch]
    of [executeNode] enters a kind-specific handler. *)
Inductive Event :=
| NodeStatus (nodeId : string) (status : Status)
| NodeUpdate (nodeId : string) (patch : list (string * JsVal))
| EdgeUpdate (edges : list Edge)
| HandlerCall (nodeId : string) (kind : string).

Record ExecutorState := mkState {
  executionData : list (string * JsVal);
  stopped : bool;
  trace : list Event
}.

(** Computations over the executor's fields that may throw any value.
    The state survives a throw, as the fields of the object do. *)
Definition M (A : Type) : Type := ExecutorState -> Completion JsVal A * ExecutorState.

Definition ret {A} (a : A) : M A := fun st => (Returned a, st).
Definition bind {A B} (m : M A) (f : A -> M B) : M B :=
  fun st =>
    match m st with
    | (Returned a, st') => f a st'
    | (Thrown e, st') => (Thrown e, st')
    end.
Definition tryCatch {A} (body : M A) (handler : JsVal -> M A) : M A :=
  fun st =>
    match body st with
    | (Returned a, st') => (Returned a, st')
    | (Thrown e, st') => handler e st'
    end.
Definition complete {A} (c : Completion JsVal A) : M A := fun st => (c, st).
Definition liftExc {A} (x : Exc A) : M A :=
  complete match x with
           | Returned a => Returned a
           | Thrown e => Thrown (errorObject e)
           end.

Notation "x <- m ;; f" := (bind m (fun x => f))
  (at level 61, m at next level, right associativity).
Notation "m ;;; f" := (bind m (fun _ => f))
  (at level 61, right associativity).

Definition emit (e : Event) : M unit :=
  fun st => (Returned tt, mkState (executionData st) (stopped st) (trace st ++ [e])).

Fixpoint emitAll (es : list Event) : M unit :=
  match es with
  | [] => ret tt
  | e :: es' => emit e ;;; emitAll es'
  end.

(** [s || fallback] on strings: the empty string is falsy. *)
Definition orElse (s fallback : string) : string :=
  if String.eqb s EmptyString then fallback else s.

Record ExecutionContext := mkContext {
  nodes : list Node;
  edges : list Edge;
  hasOnEdgeUpdate : bool  (* [onEdgeUpdate?] is optional *)
}.

(** What one run of a kind-specific handler does, as far as the executor
    sees it: the [onNodeUpdate(node.id, ...)] calls it makes, then either a
    returned [ExecutionResult] or a thrown error. *)
Record HandlerRun := mkRun {
  updates : list (list (string * JsVal));
  outcome : Completion JsVal ExecutionResult
}.

(** The environment of a run. The handlers other than Contract Input,
    Extract ABI and Extract Bytecode read the clock or call the delegated
    services (compiler, wallet, AI), so their runs are given by
    [handler kind node executionData]. The caller
    may call [stop()] while an awaited step is in flight: [stopDuring]. The
    summary text is rendered by [generateSummary] from the execution data
    and the clock. Reading a property of [null] or [undefined] raises a
    [TypeError] whose message is the engine's:
    [propertyTypeError name value]. *)
Record Environment := mkEnv {
  handler : string -> Node -> list (string * JsVal) -> HandlerRun;
  stopDuring : string -> bool;
  generateSummary : list (string * JsVal) -> string;
  propertyTypeError : string -> JsVal -> string
}.

(** ** The data bus *)

Definition findNode (nodes : list Node) (nodeId : string) : option Node :=
  find (fun n => String.eqb (id n) nodeId) nodes.

(** [findPreviousData]: [None] is the final [return null]. *)
Fixpoint findPreviousData (nodes : list Node) (executionData : list (string * JsVal))
  (nodeType : string) : option JsVal :=
  match executionData with
  | [] => None
  | (nodeId, d) :: rest =>
      match findNode nodes nodeId with
      | Some node =>
          if String.eqb (type (data node)) nodeType then Some d
          else findPreviousData nodes rest nodeType
      | None => findPreviousData nodes rest nodeType
      end
  end.

(** ** The Contract Input handler *)

Definition failure (msg : string) : ExecutionResult := mkResult false (JStr msg) JUndefined.

Definition extractFailureMessage : string :=
  "Could not extract contract name. Please specify it manually.".

(** [!s] on an optional string field: [undefined] and [''] are falsy. *)
Definition truthy (s : option string) : option string :=
  match s with
  | Some x => if String.eqb x EmptyString then None else Some x
  | None => None
  end.

Definition contractInputData (code name : string) : JsVal :=
  JObj [("contractCode", JStr code); ("contractName", JStr name)].

Definition executeContractInput (node : Node) : HandlerRun :=
  let nodeData := data node in
  match truthy (contractCode nodeData) with
  | None => mkRun [] (Returned (failure "Contract code is required"))
  | Some code =>
      let validation := validateSolidityCode code in
      if negb (valid validation) then
        mkRun [] (Returned (failure
          (match truthy (validationMessage validation) with
           | Some m => m
           | None => "Invalid Solidity code"
           end)))
      else
        match truthy (contractName nodeData) with
        | Some name =>
            mkRun [] (Returned (mkResult true "Contract code validated"
                                  (contractInputData code name)))
        | None =>
            match truthy (extractContractName code) with
            | None => mkRun [] (Returned (failure extractFailureMessage))
            | Some extracted =>
                mkRun [[("contractName", JStr extracted)]]
                  (Returned (mkResult true "Contract code validated"
                               (contractInputData code extracted)))
            end
        end
  end.

(** ** The Extract ABI and Extract Bytecode handlers *)

(** [v?.name] for an own property [name]: [undefined] on anything that is
    not an object holding the property. *)
Definition getField (v : JsVal) (name : string) : JsVal :=
  match v with
  | JObj fields =>
      match JsMap.get fields name with
      | Some x => x
      | None => JUndefined
      end
  | _ => JUndefined
  end.

(** JavaScript truthiness. *)
Definition jsTruthy (v : JsVal) : bool :=
  match v with
  | JUndefined | JNull => false
  | JBool b => b
  | JNum z => negb (Z.eqb z 0)
  | JStr s => negb (String.eqb s EmptyString)
  | JArr _ | JObj _ => true
  end.

(** [a || b] *)
Definition jsOr (a b : JsVal) : JsVal := if jsTruthy a then a else b.

(** [`${n}`] for an integer below [1e21]: its decimal digits. *)
Definition numberToString (z : Z) : string := NilZero.string_of_int (Z.to_int z).

(** [String(v)] *)
Fixpoint jsString (v : JsVal) : string :=
  match v with
  | JUndefined => "undefined"
  | JNull => "null"
  | JBool b => if b then "true" else "false"
  | JNum z => numberToString z
  | JStr s => s
  | JArr l =>
      String.concat ","
        (map (fun x => match x with
                       | JUndefined | JNull => EmptyString
                       | _ => jsString x
                       end) l)
  | JObj _ => "[object Object]"
  end.

Definition noCompilationMessage : string :=
  "No compilation result found. Please compile the contract first.".

(** [executeGenerateABI] and [executeGenerateBytecode] differ in the
    field they copy from the output of the Compile step and in their
    success message. *)
Definition copyCompiledField (nodes : list Node) (field successMessage : string)
  (executionData : list (string * JsVal)) : HandlerRun :=
  let compilationResult := findPreviousData nodes executionData "compile" in
  let value :=
    match compilationResult with
    | Some v => getField v field
    | None => JUndefined
    end in
  if negb (jsTruthy value) then
    mkRun [] (Returned (failure noCompilationMessage))
  else
    mkRun [[(field, value)]]
      (Returned (mkResult true successMessage (JObj [(field, value)]))).

Definition executeGenerateABI (nodes : list Node)
  (executionData : list (string * JsVal)) : HandlerRun :=
  copyCompiledField nodes "abi" "ABI generated successfully" executionData.

Definition executeGenerateBytecode (nodes : list Node)
  (executionData : list (string * JsVal)) : HandlerRun :=
  copyCompiledField nodes "bytecode" "Bytecode generated successfully" executionData.

(** ** The node dispatcher ([executeNode]) *)

Definition setEdgeStatus (nodeId : string) (status : Status) (edge : Edge) : Edge :=
  if String.eqb (source edge) nodeId then
    mkEdge (edgeId edge) (source edge) (target edge) (Some status) (targetStatus edge)
  else if String.eqb (target edge) nodeId then
    mkEdge (edgeId edge) (source edge) (target edge) (sourceStatus edge) (Some status)
  else edge.

Definition updateEdgeStatus (ctx : ExecutionContext) (nodeId : string) (status : Status)
  : M unit :=
  if hasOnEdgeUpdate ctx
  then emit (EdgeUpdate (map (setEdgeStatus nodeId status) (edges ctx)))
  else ret tt.

Definition knownKinds : list string :=
  ["projectCreate"; "contractInput"; "compile"; "generateABI";
   "generateBytecode"; "deploy"; "aiAudit"; "completion"].

(** The [switch (nodeType)]: the run of the handler selected for the
    node, or [None] in the [default] branch. *)
Definition handlerRunOf (ctx : ExecutionContext) (env : Environment) (node : Node)
  (executionData : list (string * JsVal)) : option HandlerRun :=
  let nodeType := type (data node) in
  if existsb (String.eqb nodeType) knownKinds then
    Some (if String.eqb nodeType "contractInput" then
            executeContractInput node
          else if String.eqb nodeType "generateABI" then
            executeGenerateABI (nodes ctx) executionData
          else if String.eqb nodeType "generateBytecode" then
            executeGenerateBytecode (nodes ctx) executionData
          else handler env nodeType node executionData)
  else None.

Definition dispatch (ctx : ExecutionContext) (env : Environment) (node : Node)
  : M ExecutionResult :=
  fun st =>
    match handlerRunOf ctx env node (executionData st) with
    | Some run =>
        (emit (HandlerCall (id node) (type (data node))) ;;;
         emitAll (map (NodeUpdate (id node)) (updates run)) ;;;
         complete (outcome run)) st
    | None =>
        ret (failure (String.append "Unknown node type: " (type (data node)))) st
    end.

(** [error.message] on the value a [catch] block caught: the property
    [message] of the value, [undefined] when it has none, and a [TypeError]
    thrown from the [catch] block itself when the value is [null] or
    [undefined]. *)
Definition readMessage (env : Environment) (error : JsVal) : M JsVal :=
  match error with
  | JUndefined | JNull => liftExc (Thrown (mkError (propertyTypeError env "message" error)))
  | _ => ret (getField error "message")
  end.

Definition executeNode (ctx : ExecutionContext) (env : Environment) (node : Node)
  : M ExecutionResult :=
  emit (NodeStatus (id node) Running) ;;;
  updateEdgeStatus ctx (id node) Running ;;;
  tryCatch
    (result <- dispatch ctx env node ;;
     (if success result then
        emit (NodeStatus (id node) Success) ;;;
        updateEdgeStatus ctx (id node) Success ;;;
        emit (NodeUpdate (id node) [("output", resultData result)])
      else
        emit (NodeStatus (id node) Error) ;;;
        updateEdgeStatus ctx (id node) Error ;;;
        emit (NodeUpdate (id node) [("error", message result)])) ;;;
     ret result)
    (fun error =>
       emit (NodeStatus (id node) Error) ;;;
       updateEdgeStatus ctx (id node) Error ;;;
       (* [error.message] is read for the patch and again for the result *)
       errorText <- readMessage env error ;;
       emit (NodeUpdate (id node) [("error", errorText)]) ;;;
       ret (mkResult false (jsOr errorText (JStr "Node execution failed")) JUndefined)).

(** ** The run ([execute]) *)

Definition stopMessage : string := "Workflow execution stopped by user".
Definition noNodesMessage : string :=
  "No nodes to execute. Please add nodes to your workflow.".

(** [`Failed at node "${node.data.label}": ${msg}`] *)
Definition failedAtMessage (nodeLabel msg : string) : string :=
  String.append "Failed at node "
    (String.append doubleQuote
      (String.append nodeLabel
        (String.append doubleQuote (String.append ": " msg)))).

(** While [executeNode] is awaited the caller may call [stop()]. *)
Definition awaitStop (env : Environment) (nodeId : string) : M unit :=
  fun st =>
    (Returned tt,
     mkState (executionData st) (stopped st || stopDuring env nodeId) (trace st)).

Definition recordOutput (nodeId : string) (d : JsVal) : M unit :=
  fun st =>
    (Returned tt,
     mkState (JsMap.set (executionData st) nodeId d) (stopped st) (trace st)).

(** The [for (const nodeId of executionOrder)] loop. [Some r]: the loop
    body returned [r] from [execute]; [None]: the loop ran to its end. *)
Fixpoint runOrder (ctx : ExecutionContext) (env : Environment) (order : list string)
  : M (option ExecutionResult) :=
  match order with
  | [] => ret None
  | nodeId :: rest =>
      fun st =>
        if stopped st then ret (Some (failure stopMessage)) st
        else
          match findNode (nodes ctx) nodeId with
          | None => runOrder ctx env rest st
          | Some node =>
              (result <- executeNode ctx env node ;;
               awaitStop env nodeId ;;;
               if negb (success result) then
                 ret (Some (failure
                   (failedAtMessage (label (data node)) (jsString (message result)))))
               else
                 recordOutput nodeId (resultData result) ;;;
                 runOrder ctx env rest) st
          end
  end.

(** A property key that is an array index: the canonical decimal digits
    of an integer below [2^32 - 1]. *)
Definition arrayIndex (key : string) : option N :=
  match NilZero.uint_of_string key with
  | Some digits =>
      let n := N.of_uint digits in
      if String.eqb (NilZero.string_of_uint (N.to_uint n)) key && N.ltb n 4294967295
      then Some n
      else None
  | None => None
  end.

Definition isArrayIndex (key : string) : bool :=
  match arrayIndex key with
  | Some _ => true
  | None => false
  end.

Definition indexOfKey (key : string) : N :=
  match arrayIndex key with
  | Some n => n
  | None => 0%N
  end.

(** The place of a property in the ascending order of array indices. *)
Fixpoint insertIndexed (entry : string * JsVal) (sorted : list (string * JsVal))
  : list (string * JsVal) :=
  match sorted with
  | [] => [entry]
  | e :: rest =>
      if N.leb (indexOfKey (fst entry)) (indexOfKey (fst e)) then entry :: sorted
      else e :: insertIndexed entry rest
  end.

(** [Object.fromEntries] on the entries of a [Map], as the properties of
    the object in the order in which they are enumerated: the keys that are
    array indices first, in ascending order, then the other keys in the
    order of the entries. *)
Definition fromEntries (entries : list (string * JsVal)) : list (string * JsVal) :=
  fold_right insertIndexed [] (filter (fun e => isArrayIndex (fst e)) entries)
  ++ filter (fun e => negb (isArrayIndex (fst e))) entries.

Definition successData (env : Environment) (d : list (string * JsVal)) : JsVal :=
  JObj [("summary", JStr (generateSummary env d)); ("executionData", JObj (fromEntries d))].

Definition execute (ctx : ExecutionContext) (env : Environment) : M ExecutionResult :=
  fun st0 =>
    (* this.stopped = false; this.executionData.clear(); *)
    let st := mkState [] false (trace st0) in
    tryCatch
      (executionOrder <- liftExc (buildExecutionOrder (nodes ctx) (edges ctx)) ;;
       if Nat.eqb (List.length executionOrder) 0 then
         ret (failure noNodesMessage)
       else
         r <- runOrder ctx env executionOrder ;;
         match r with
         | Some result => ret result
         | None =>
             fun st' =>
               ret (mkResult true "Workflow executed successfully"
                      (successData env (executionData st'))) st'
         end)
      (fun error =>
         errorText <- readMessage env error ;;
         ret (mkResult false
                (jsOr errorText (JStr "Unknown error during workflow execution"))
                JUndefined))
      st.

Definition initialState : ExecutorState := mkState [] false [].

(** ** The compiler client ([compileContract], [batchCompileContracts]) *)

Definition newline : string := String (ascii_of_nat 10) EmptyString.

Module Compiler.

Record CompilationResult := mkCompilation {
  success : bool;
  abi : option (list JsVal);
  bytecode : option string;
  errors : option (list string);
  warnings : option (list string)
}.

(** The body of the [POST /api/compile] request. The contract name and
    the compiler version reach [compileContract] from values of type
    [any]. *)
Record Request := mkRequest {
  sourceCode : string;
  contractName : JsVal;
  compilerVersion : JsVal
}.

(** What the client reads of a [Response]. [json] is the parsed body, a
    [CompilationResult] in every branch of the route of this repository, or
    the rejection of [response.json()]. *)
Record Response := mkResponse {
  ok : bool;
  status : Z;
  statusText : string;
  json : Exc CompilationResult
}.

(** [{ success: false, errors }] *)
Definition rejected (errs : list string) : CompilationResult :=
  mkCompilation false None None (Some errs) None.

(** The result built in the [catch] block. *)
Definition connectionFailure (e : JsError) : CompilationResult :=
  rejected ["Failed to connect to compilation service";
            orElse (errorMessage e) "Unknown error occurred"].

(** [`HTTP ${response.status}: ${response.statusText}`] *)
Definition httpMessage (response : Response) : string :=
  String.append "HTTP "
    (String.append (numberToString (status response))
       (String.append ": " (statusText response))).

(** The client after the request was sent: [fetched] is what
    [await fetch(...)] gave. *)
Definition respond (fetched : Exc Response) : CompilationResult :=
  match fetched with
  | Thrown e => connectionFailure e
  | Returned response =>
      if negb (ok response) then
        (* [await response.json().catch(() => ({}))] *)
        let errorData :=
          match json response with
          | Returned d => errors d
          | Thrown _ => None
          end in
        rejected [match errorData with
                  | Some (first :: _) => orElse first (httpMessage response)
                  | _ => httpMessage response
                  end]
      else
        match json response with
        | Returned result => result
        | Thrown e => connectionFailure e
        end
  end.

(** [compileContract]; [fetch] is the answer of the network to a
    request. *)
Definition compileContract (fetch : Request -> Exc Response)
  (source : string) (name version : JsVal) : CompilationResult :=
  let validation := validateSolidityCode source in
  if negb (valid validation) then
    rejected [match truthy (validationMessage validation) with
              | Some m => m
              | None => "Invalid Solidity code"
              end]
  else respond (fetch (mkRequest source name version)).

(** The [for] loop of [batchCompileContracts] from the contract at
    position [index] on; [fetchAt index] answers the request for that
    contract. *)
Fixpoint batchLoop (fetchAt : nat -> Request -> Exc Response) (index : nat)
  (contracts : list (string * string)) (results : list (string * CompilationResult))
  : list (string * CompilationResult) :=
  match contracts with
  | [] => results
  | (source, name) :: rest =>
      let result := compileContract (fetchAt index) source (JStr name) (JStr "0.8.20") in
      let results' := JsMap.set results name result in
      if negb (success result) then results'
      else batchLoop fetchAt (S index) rest results'
  end.

(** [contracts]: pairs of [sourceCode] and [contractName]. *)
Definition batchCompileContracts (fetchAt : nat -> Request -> Exc Response)
  (contracts : list (string * string)) : list (string * CompilationResult) :=
  batchLoop fetchAt 0 contracts [].

(** The result as the value the executor stores and passes on. *)
Definition toJs (r : CompilationResult) : JsVal :=
  let field {A} (name : string) (inject : A -> JsVal) (v : option A) :=
    match v with
    | Some x => [(name, inject x)]
    | None => []
    end in
  JObj ([("success", JBool (success r))]
        ++ field "abi" JArr (abi r)
        ++ field "bytecode" JStr (bytecode r)
        ++ field "errors" (fun l => JArr (map JStr l)) (errors r)
        ++ field "warnings" (fun l => JArr (map JStr l)) (warnings r)).

End Compiler.

(** ** The Project Init and Compile handlers *)

(** [nodeData[name]] for a field kept in the payload. *)
Definition payloadField (node : Node) (name : string) : JsVal :=
  match JsMap.get (payload (data node)) name with
  | Some v => v
  | None => JUndefined
  end.

(** [executeProjectCreate]; [timestamp] is [new Date().toISOString()]. *)
Definition executeProjectCreate (timestamp : string) (node : Node) : HandlerRun :=
  if negb (jsTruthy (payloadField node "projectTitle")) then
    mkRun [] (Returned (failure "Project title is required"))
  else
    mkRun []
      (Returned (mkResult true "Project initialized"
         (JObj [("title", payloadField node "projectTitle");
                ("description", jsOr (payloadField node "projectDescription") (JStr ""));
                ("timestamp", JStr timestamp)]))).

Definition noContractCodeMessage : string :=
  "No contract code found. Please add a Contract Input node before compilation.".

(** What [executeCompile] makes of the result of [compileContract]. *)
Definition compileOutcome (result : Compiler.CompilationResult) : HandlerRun :=
  if negb (Compiler.success result) then
    mkRun []
      (Returned (failure
         (orElse (match Compiler.errors result with
                  | Some errs => String.concat newline errs
                  | None => EmptyString
                  end)
                 "Compilation failed")))
  else
    mkRun [[("compilationResult", Compiler.toJs result)]]
      (Returned (mkResult true "Contract compiled successfully" (Compiler.toJs result))).

(** [executeCompile]. The contract code comes from a value of type
    [any]: on a truthy value that is no string, [sourceCode.trim()] in
    [validateSolidityCode] raises a [TypeError], whose message
    [trimTypeError] depends on the engine, and [compileContract] catches
    it. *)
Definition executeCompile (fetch : Compiler.Request -> Exc Compiler.Response)
  (trimTypeError : JsVal -> string) (nodes : list Node) (node : Node)
  (executionData : list (string * JsVal)) : HandlerRun :=
  let contractData :=
    match findPreviousData nodes executionData "contractInput" with
    | Some v => v
    | None => JNull
    end in
  if negb (jsTruthy (getField contractData "contractCode")) then
    mkRun [] (Returned (failure noContractCodeMessage))
  else
    let compilerVersion := jsOr (payloadField node "compilerVersion") (JStr "0.8.20") in
    compileOutcome
      (match getField contractData "contractCode" with
       | JStr source =>
           Compiler.compileContract fetch source
             (getField contractData "contractName") compilerVersion
       | other => Compiler.connectionFailure (mkError (trimTypeError other))
       end).

(** ** The AI Audit handler *)

Module OpenAI.

(** [AIAnalysisResult], what [analyzeContract] resolves with: it catches
    whatever the client throws. *)
Record AIAnalysisResult := mkAnalysis {
  success : bool;
  response : option string;
  error : option string
}.

End OpenAI.

Definition auditPrompt : string :=
  "Analyze this smart contract for security vulnerabilities and suggest improvements.".

(** [result.response] as a value: [undefined] when absent. *)
Definition responseValue (result : OpenAI.AIAnalysisResult) : JsVal :=
  match OpenAI.response result with
  | Some text => JStr text
  | None => JUndefined
  end.

(** What [executeAIAudit] makes of the result of [analyzeContract]. *)
Definition auditOutcome (result : OpenAI.AIAnalysisResult) : HandlerRun :=
  if negb (OpenAI.success result) then
    mkRun []
      (Returned (failure
         (match truthy (OpenAI.error result) with
          | Some m => m
          | None => "AI analysis failed"
          end)))
  else
    mkRun [[("aiResponse", responseValue result)]]
      (Returned (mkResult true "AI analysis completed"
                   (JObj [("response", responseValue result)]))).

(** [executeAIAudit]; [analyze code prompt] is what
    [analyzeContract(code, prompt)] resolves with. *)
Definition executeAIAudit (analyze : JsVal -> JsVal -> OpenAI.AIAnalysisResult)
  (nodes : list Node) (node : Node) (executionData : list (string * JsVal)) : HandlerRun :=
  let contractData :=
    match findPreviousData nodes executionData "contractInput" with
    | Some v => v
    | None => JNull
    end in
  if negb (jsTruthy (getField contractData "contractCode")) then
    mkRun [] (Returned (failure "No contract code found for analysis."))
  else
    let prompt := jsOr (payloadField node "aiPrompt") (JStr auditPrompt) in
    auditOutcome (analyze (getField contractData "contractCode") prompt).

(** ** The wallet ([blockchainService.ts]), the Deploy and the Completion handler *)

Module Wallet.





End Wallet.




(** The services behind the handlers of a run: the network's answer to
    the request of a Compile step, the answer of [analyzeContract] to an AI
    Audit step, the clock of a Project Init step, the engine's [TypeError]
    text, and an environment for everything else (the Deploy and Completion
    handlers, [stop()], the summary). *)
Record Services := mkServices {
  fetchFor : string -> Compiler.Request -> Exc Compiler.Response;
  analyzeFor : string -> JsVal -> JsVal -> OpenAI.AIAnalysisResult;
  timestampFor : string -> string;
  trimTypeError : JsVal -> string;
  otherwise : Environment
}.

(** The environment in which Project Init, Compile and AI Audit are the
    handlers above. *)
Definition serviceEnv (nodes : list Node) (svc : Services) : Environment :=
  mkEnv
    (fun kind node executionData =>
       if String.eqb kind "projectCreate" then
         executeProjectCreate (timestampFor svc (id node)) node
       else if String.eqb kind "compile" then
         executeCompile (fetchFor svc (id node)) (trimTypeError svc) nodes node executionData
       else if String.eqb kind "aiAudit" then
         executeAIAudit (analyzeFor svc (id node)) nodes node executionData
       else handler (otherwise svc) kind node executionData)
    (stopDuring (otherwise svc))
    (generateSummary (otherwise svc))
    (propertyTypeError (otherwise svc)).



(** ** Workflows generated from templates ([templateWorkflowGenerator.ts]) *)

(** The fields of [ContractTemplate] that the generator reads. *)
Record ContractTemplate := mkTemplate {
  templateId : string;
  templateName : string;
  templateDescription : string;
  templateCode : string
}.

(** [nodeConfigs[kind].label] *)
Definition configLabel (kind : string) : string :=
  if String.eqb kind "projectCreate" then "Create Project"
  else if String.eqb kind "contractInput" then "Contract Input"
  else if String.eqb kind "compile" then "Compile Contract"
  else if String.eqb kind "generateABI" then "Generate ABI"
  else if String.eqb kind "generateBytecode" then "Generate Bytecode"
  else if String.eqb kind "deploy" then "Deploy Contract"
  else if String.eqb kind "aiAudit" then "AI Audit"
  else if String.eqb kind "completion" then "Workflow Complete"
  else EmptyString.

(** [/contract\s+(\w+)/] *)
Definition templateContractRe : Regex :=
  Seq (Lit "contract") (Seq (Plus SpaceClass) (Group (Plus WordClass))).

(** The generator's own [extractContractName]:
    [match ? match[1] : 'MyContract']. *)
Definition templateContractName (sourceCode : string) : option string :=
  match jsMatch templateContractRe sourceCode with
  | Some cap => cap
  | None => Some "MyContract"
  end.

Definition placeholderAddress (last : string) : JsVal :=
  JStr (String.append "0x000000000000000000000000000000000000000" last).

(** [getDefaultConstructorArgs]; [clockReading] is [Date.now()], read by
    the crowdfunding branch only. The two amounts are
    [ethers.parseEther('10').toString()] and
    [ethers.parseEther('0.01').toString()]. *)
Definition getDefaultConstructorArgs (clockReading : Z) (template : ContractTemplate)
  : list JsVal :=
  let templateIs := String.eqb (templateId template) in
  if templateIs "simple-token" then [JStr "MyToken"; JStr "MTK"; JStr "1000000"]
  else if templateIs "simple-nft" then [JStr "MyNFT"; JStr "MNFT"]
  else if templateIs "crowdfunding" then
    let now := (clockReading / 1000)%Z in
    [JStr "My Campaign"; JStr "Description of my campaign";
     JStr "10000000000000000000";
     JStr (numberToString now);
     JStr (numberToString (now + 30 * 24 * 60 * 60)%Z)]
  else if templateIs "multisig-wallet" then [JArr [placeholderAddress "1"]; JStr "1"]
  else if templateIs "voting" then []
  else if templateIs "escrow" then []
  else if templateIs "staking" then [placeholderAddress "1"; placeholderAddress "2"]
  else if templateIs "airdrop" then [placeholderAddress "1"]
  else if templateIs "nft-marketplace" then []
  else if templateIs "lottery" then [JStr "10000000000000000"]
  else [].

Section Generator.

(** [nodeConfigs[kind].icon]: a pictograph, outside the code units of
    the strings modelled here. *)
Variable configIcon : string -> JsVal.

(** [Date.now()]: its successive readings during one call. *)
Variable clock : nat -> Z.

(** [`${prefix}-${Date.now()}`] at the reading [n] of the clock. *)
Definition stampedId (prefix : string) (n : nat) : string :=
  String.append prefix (String.append "-" (numberToString (clock n))).

(** A node of the given kind with label, icon and status ['idle']. *)
Definition generatedNode (nodeId kind : string) (code name : option string)
  (fields : list (string * JsVal)) : Node :=
  mkNode nodeId
    (mkNodeData (configLabel kind) kind code name
       ([("icon", configIcon kind); ("status", JStr "idle")] ++ fields)).

(** [{ id: `${source}-${target}`, source, target, animated: true }] *)
Definition generatedEdge (sourceId targetId : string) : Edge :=
  mkEdge (String.append sourceId (String.append "-" targetId)) sourceId targetId None None.

Definition generateWorkflowFromTemplate (template : ContractTemplate)
  : list Node * list Edge :=
  let projectNode :=
    generatedNode (stampedId "project" 0) "projectCreate" None None
      [("projectTitle", JStr (String.append (templateName template) " Project"));
       ("projectDescription", JStr (templateDescription template))] in
  let contractNode :=
    generatedNode (stampedId "contract" 1) "contractInput"
      (Some (templateCode template)) (templateContractName (templateCode template)) [] in
  let compileNode :=
    generatedNode (stampedId "compile" 2) "compile" None None
      [("compilerVersion", JStr "0.8.20")] in
  let abiNode := generatedNode (stampedId "abi" 3) "generateABI" None None [] in
  let bytecodeNode :=
    generatedNode (stampedId "bytecode" 4) "generateBytecode" None None [] in
  (* the crowdfunding branch of [getDefaultConstructorArgs] reads the clock *)
  let readings := if String.eqb (templateId template) "crowdfunding" then 6 else 5 in
  let defaultConstructorArgs := getDefaultConstructorArgs (clock 5) template in
  let deployNode :=
    generatedNode (stampedId "deploy" readings) "deploy" None None
      [("constructorArgs", JArr defaultConstructorArgs);
       ("constructorArgsValues",
        JArr (map (fun arg => match arg with
                              | JStr s => JStr s
                              | _ => JStr (jsString arg)
                              end) defaultConstructorArgs))] in
  let completionNode :=
    generatedNode (stampedId "completion" (S readings)) "completion" None None [] in
  ([projectNode; contractNode; compileNode; abiNode; bytecodeNode; deployNode;
    completionNode],
   [generatedEdge (id projectNode) (id contractNode);
    generatedEdge (id contractNode) (id compileNode);
    generatedEdge (id compileNode) (id abiNode);
    generatedEdge (id compileNode) (id bytecodeNode);
    generatedEdge (id abiNode) (id deployNode);
    generatedEdge (id bytecodeNode) (id deployNode);
    generatedEdge (id deployNode) (id completionNode)]).

Definition generateWorkflowWithAI (template : ContractTemplate) : list Node * list Edge :=
  let (nodes, edges) := generateWorkflowFromTemplate template in
  let readings := if String.eqb (templateId template) "crowdfunding" then 8 else 7 in
  match find (fun n => String.eqb (type (data n)) "contractInput") nodes,
        find (fun n => String.eqb (type (data n)) "compile") nodes with
  | Some contractNode, Some _ =>
      let aiNode :=
        generatedNode (stampedId "ai" readings) "aiAudit" None None
          [("aiPrompt", JStr auditPrompt)] in
      (nodes ++ [aiNode], edges ++ [generatedEdge (id contractNode) (id aiNode)])
  | _, _ => (nodes, edges)
  end.

End Generator.

(** ** The workflow store ([workflowStore.ts]) *)

(** The canvas and execution part of the store: the node and edge lists,
    the selected node, the execution states and the running flag. The
    project list, into which the canvas actions copy the new lists, and the
    networks are not read by these actions. *)
Module Store.

Record NodeExecutionState := mkExecutionState {
  nodeId : string;
  status : Status;
  output : JsVal;
  error : option string
}.

Record State := mkStore {
  nodes : list Node;
  edges : list Edge;
  selectedNode : option Node;
  executionStates : list NodeExecutionState;
  isExecuting : bool
}.

Definition setNodes (newNodes : list Node) (st : State) : State :=
  mkStore newNodes (edges st) (selectedNode st) (executionStates st) (isExecuting st).

Definition setEdges (newEdges : list Edge) (st : State) : State :=
  mkStore (nodes st) newEdges (selectedNode st) (executionStates st) (isExecuting st).

(** [const newNodes = [...state.nodes, node]] *)
Definition addNode (node : Node) (st : State) : State :=
  mkStore (nodes st ++ [node]) (edges st) (selectedNode st) (executionStates st)
    (isExecuting st).

(** [state.nodes.filter(n => n.id !== nodeId)],
    [state.edges.filter(e => e.source !== nodeId && e.target !== nodeId)] *)
Definition removeNode (removed : string) (st : State) : State :=
  mkStore
    (filter (fun n => negb (String.eqb (id n) removed)) (nodes st))
    (filter (fun e => negb (String.eqb (source e) removed)
                      && negb (String.eqb (target e) removed)) (edges st))
    (match selectedNode st with
     | Some n => if String.eqb (id n) removed then None else Some n
     | None => None
     end)
    (executionStates st) (isExecuting st).

(** [node.id === nodeId ? { ...node, data: { ...node.data, ...data } } : node];
    [merged] is the data after the spread. *)
Definition updateNode (updated : string) (merged : NodeData -> NodeData) (st : State)
  : State :=
  mkStore
    (map (fun node => if String.eqb (id node) updated
                      then mkNode (id node) (merged (data node))
                      else node) (nodes st))
    (edges st) (selectedNode st) (executionStates st) (isExecuting st).

(** [newStates[existingIndex] = { nodeId, ...state }] at the first entry
    of the node; [None] when [findIndex] gives [-1]. *)
Fixpoint replaceState (states : list NodeExecutionState) (entry : NodeExecutionState)
  : option (list NodeExecutionState) :=
  match states with
  | [] => None
  | s :: rest =>
      if String.eqb (nodeId s) (nodeId entry) then Some (entry :: rest)
      else option_map (cons s) (replaceState rest entry)
  end.

(** [setExecutionState(nodeId, state)], with [entry] for [{ nodeId, ...state }]. *)
Definition setExecutionState (entry : NodeExecutionState) (st : State) : State :=
  mkStore (nodes st) (edges st) (selectedNode st)
    (match replaceState (executionStates st) entry with
     | Some newStates => newStates
     | None => executionStates st ++ [entry]
     end)
    (isExecuting st).

Definition setIsExecuting (b : bool) (st : State) : State :=
  mkStore (nodes st) (edges st) (selectedNode st) (executionStates st) b.

(** [set({ executionStates: [], isExecuting: false })] *)
Definition resetExecution (st : State) : State :=
  mkStore (nodes st) (edges st) (selectedNode st) [] false.

End Store.

(** ** The execution hook ([useWorkflowExecution]) *)

Section Hook.

(** The object spread [{ ...node.data, ...data }] of [updateNode], as a
    function of the node data and the patch. *)
Variable spread : NodeData -> list (string * JsVal) -> NodeData.
Variable env : Environment.

(** The three callbacks the hook puts into the execution context. *)
Definition onCallback (st : Store.State) (e : Event) : Store.State :=
  match e with
  | NodeUpdate nodeId patch => Store.updateNode nodeId (fun d => spread d patch) st
  | NodeStatus nodeId status =>
      Store.setExecutionState (Store.mkExecutionState nodeId status JUndefined None) st
  | EdgeUpdate updatedEdges => Store.setEdges updatedEdges st
  | HandlerCall _ _ => st
  end.

(** The store after the first two statements of a run that passed the
    guards: [setIsExecuting(true); resetExecution()]. *)
Definition beginRun (st : Store.State) : Store.State :=
  Store.resetExecution (Store.setIsExecuting true st).

(** [runWorkflow]: the store when the returned promise resolves. The
    executor works on the node and edge lists the store held when the run
    began; its callbacks act on the store as they are called. *)
Definition runWorkflow (st : Store.State) : Store.State :=
  if Store.isExecuting st then st
  else if Nat.eqb (List.length (Store.nodes st)) 0 then st
  else
    let ctx := mkContext (Store.nodes st) (Store.edges st) true in
    Store.setIsExecuting false
      (fold_left onCallback (trace (snd (execute ctx env initialState))) (beginRun st)).

End Hook.

(** * Vocabulary of the properties *)

(** ** Events and closed form of one step *)

(** The node an event is about ([EdgeUpdate] carries the whole edge list). *)
Definition eventNode (e : Event) : option string :=
  match e with
  | NodeStatus i _ | NodeUpdate i _ | HandlerCall i _ => Some i
  | EdgeUpdate _ => None
  end.

(** The ids that reached [Success], in the order of their status calls. *)
Fixpoint succeededIds (t : list Event) : list string :=
  match t with
  | [] => []
  | NodeStatus i Success :: t' => i :: succeededIds t'
  | _ :: t' => succeededIds t'
  end.

Definition edgeEvents (ctx : ExecutionContext) (nodeId : string) (status : Status)
  : list Event :=
  if hasOnEdgeUpdate ctx
  then [EdgeUpdate (map (setEdgeStatus nodeId status) (edges ctx))]
  else [].

Definition handlerEvents (ctx : ExecutionContext) (env : Environment) (node : Node)
  (d : list (string * JsVal))
  : list Event :=
  match handlerRunOf ctx env node d with
  | Some run =>
      HandlerCall (id node) (type (data node)) :: map (NodeUpdate (id node)) (updates run)
  | None => []
  end.

(** The value the handler of the step throws, if it throws. *)
Definition handlerThrows (ctx : ExecutionContext) (env : Environment) (node : Node)
  (d : list (string * JsVal)) : option JsVal :=
  match handlerRunOf ctx env node d with
  | Some run =>
      match outcome run with
      | Returned _ => None
      | Thrown e => Some e
      end
  | None => None
  end.

(** The value with which [executeNode] rejects, if it does: the
    [TypeError] of its [catch] block when the handler threw [null] or
    [undefined]. *)
Definition nodeThrows (ctx : ExecutionContext) (env : Environment) (node : Node)
  (d : list (string * JsVal)) : option JsVal :=
  match handlerThrows ctx env node d with
  | Some JUndefined => Some (errorObject (mkError (propertyTypeError env "message" JUndefined)))
  | Some JNull => Some (errorObject (mkError (propertyTypeError env "message" JNull)))
  | _ => None
  end.

(** The result [executeNode] resolves with; where it rejects, the
    failure its [catch] block was about to build. *)
Definition nodeResult (ctx : ExecutionContext) (env : Environment) (node : Node)
  (d : list (string * JsVal))
  : ExecutionResult :=
  match handlerRunOf ctx env node d with
  | Some run =>
      match outcome run with
      | Returned r => r
      | Thrown e =>
          mkResult false (jsOr (getField e "message") (JStr "Node execution failed"))
            JUndefined
      end
  | None => failure (String.append "Unknown node type: " (type (data node)))
  end.

(** The value of [error] in the patch of the last [onNodeUpdate] call of
    a step that fails. *)
Definition reportedError (ctx : ExecutionContext) (env : Environment) (node : Node)
  (d : list (string * JsVal)) : JsVal :=
  match handlerThrows ctx env node d with
  | Some e => getField e "message"
  | None => message (nodeResult ctx env node d)
  end.

Definition terminalEvents (ctx : ExecutionContext) (env : Environment) (node : Node)
  (d : list (string * JsVal)) : list Event :=
  let r := nodeResult ctx env node d in
  if success r then
    NodeStatus (id node) Success
      :: edgeEvents ctx (id node) Success ++ [NodeUpdate (id node) [("output", resultData r)]]
  else
    NodeStatus (id node) Error
      :: edgeEvents ctx (id node) Error
      ++ match nodeThrows ctx env node d with
         | Some _ => []
         | None => [NodeUpdate (id node) [("error", reportedError ctx env node d)]]
         end.

Definition nodeEvents (ctx : ExecutionContext) (env : Environment) (node : Node)
  (d : list (string * JsVal)) : list Event :=
  NodeStatus (id node) Running
    :: edgeEvents ctx (id node) Running ++ handlerEvents ctx env node d
    ++ terminalEvents ctx env node d.

(** What a stretch of the loop does to the state: the trace and the
    execution data only grow; the new entries are the steps of the stretch
    that reached [Success], in that order, once each; all new events are
    about steps of the stretch. *)
Inductive Extends (order : list string) (r : Completion JsVal (option ExecutionResult))
  (st st' : ExecutorState) : Prop :=
| mkExtends (newEvents : list Event) (newEntries : list (string * JsVal))
    (ext_trace : trace st' = trace st ++ newEvents)
    (ext_data : executionData st' = executionData st ++ newEntries)
    (ext_success : map fst newEntries = succeededIds newEvents)
    (ext_NoDup : NoDup (map fst newEntries))
    (ext_about : forall e i, In e newEvents -> eventNode e = Some i -> In i order)
    (ext_error : forall i, In (NodeStatus i Error) newEvents -> ~ In i (map fst newEntries))
    (ext_finished : r = Returned None ->
       forall i, In (NodeStatus i Running) newEvents -> In (NodeStatus i Success) newEvents).

(** The kind of the step an entry of the execution data belongs to. *)
Definition kindOf (nodes : list Node) (nodeId : string) : option string :=
  option_map (fun n => type (data n)) (findNode nodes nodeId).

(** ** Graphs, connections, positions *)

Definition stepIds (nodes : list Node) : list string := map id nodes.

(** The connection relation restricted to step ids present in the graph. *)
Definition connected (nodes : list Node) (edges : list Edge) (u v : string) : Prop :=
  In u (stepIds nodes) /\ In v (stepIds nodes)
  /\ exists e, In e edges /\ source e = u /\ target e = v.

Definition acyclic (nodes : list Node) (edges : list Edge) : Prop :=
  forall v, ~ clos_trans string (connected nodes edges) v v.

Definition wellFormed (nodes : list Node) (edges : list Edge) : Prop :=
  NoDup (stepIds nodes)
  /\ forall e, In e edges ->
       In (source e) (stepIds nodes) /\ In (target e) (stepIds nodes).

(** Position of an id in the order ([Array.prototype.indexOf]; the
    length of the order when absent). *)
Fixpoint indexOf (order : list string) (x : string) : nat :=
  match order with
  | [] => 0
  | y :: rest => if String.eqb y x then 0 else S (indexOf rest x)
  end.

Definition memb (x : string) (l : list string) : bool := existsb (String.eqb x) l.

(** Number of connections into [v]. *)
Definition indegree (edges : list Edge) (v : string) : nat :=
  List.length (filter (fun e => String.eqb (target e) v) edges).

(** The targets of the connections out of [n], in connection order. *)
Definition targetsFrom (edges : list Edge) (n : string) : list string :=
  map target (filter (fun e => String.eqb (source e) n) edges).

(** Number of connections into [v] whose source is not in [done]. *)
Definition pending (edges : list Edge) (done : list string) (v : string) : nat :=
  List.length
    (filter (fun e => String.eqb (target e) v && negb (memb (source e) done)) edges).

(** Consecutive elements of the list are related. *)
Fixpoint isWalk (R : string -> string -> Prop) (p : list string) : Prop :=
  match p with
  | x :: rest =>
      match rest with
      | y :: _ => R x y /\ isWalk R rest
      | [] => True
      end
  | [] => True
  end.

(** ** Invariants of the scheduler *)

(** Every id is enqueued at most once: ids already in the queue or in the
    result have in-degree at most 0, and an id is enqueued only when its
    in-degree drops from 1 to 0. *)
Definition settled (deg : list (string * Z)) (queue result : list string) : Prop :=
  NoDup (result ++ queue)
  /\ forall k, In k (result ++ queue) -> (orZero (JsMap.get deg k) <= 0)%Z.

(** Loop invariant of Kahn's algorithm. *)
Definition KahnInvariant (nodes : list Node) (edges : list Edge)
  (deg : list (string * Z)) (queue result : list string) : Prop :=
  NoDup (result ++ queue)
  /\ incl (result ++ queue) (stepIds nodes)
  /\ (forall v, In v (stepIds nodes) ->
        orZero (JsMap.get deg v) = Z.of_nat (pending edges result v))
  /\ (forall v, In v (stepIds nodes) ->
        (In v (result ++ queue) <-> pending edges result v = 0))
  /\ (forall e, In e edges -> In (target e) result ->
        indexOf result (source e) < indexOf result (target e)).

(** Invariant of the inner [forEach] while the neighbours [seen] of the
    dequeued node have been relaxed; [done] is the result including the
    dequeued node, [before] the result without it. *)
Definition RelaxInvariant (nodes : list Node) (edges : list Edge)
  (before done seen : list string)
  (deg : list (string * Z)) (queue : list string) : Prop :=
  NoDup (done ++ queue)
  /\ incl (done ++ queue) (stepIds nodes)
  /\ (forall v, In v (stepIds nodes) ->
        orZero (JsMap.get deg v)
        = (Z.of_nat (pending edges before v) - Z.of_nat (count_occ string_dec seen v))%Z)
  /\ (forall v, In v (stepIds nodes) ->
        (In v (done ++ queue) <-> orZero (JsMap.get deg v) = 0%Z)).

(** The list the [while] loop leaves in [result]. *)
Definition scheduled (nodes : list Node) (edges : list Edge) : list string :=
  kahnLoop (adjacencyList (buildGraph nodes edges))
    (inDegree (buildGraph nodes edges),
     initialQueue (inDegree (buildGraph nodes edges))) [].

(** ** Shapes of regular expressions *)

(** Every capturing group wraps a [c+], so a group that took part in a
    match holds at least one character. *)
Fixpoint groupsArePlus (r : Regex) : bool :=
  match r with
  | Group (Plus _) => true
  | Group _ => false
  | Seq r1 r2 | Alt r1 r2 => groupsArePlus r1 && groupsArePlus r2
  | _ => true
  end.

(** Every match of the expression passes through the group. *)
Fixpoint setsGroup (r : Regex) : bool :=
  match r with
  | Group _ => true
  | Seq r1 r2 => setsGroup r1 || setsGroup r2
  | Alt r1 r2 => setsGroup r1 && setsGroup r2
  | _ => false
  end.

(** The same expression with its group made non-capturing. *)
Fixpoint eraseGroups (r : Regex) : Regex :=
  match r with
  | Group r1 => eraseGroups r1
  | Seq r1 r2 => Seq (eraseGroups r1) (eraseGroups r2)
  | Alt r1 r2 => Alt (eraseGroups r1) (eraseGroups r2)
  | _ => r
  end.

Definition captured (cap : option string) : Prop :=
  exists name, cap = Some name /\ name <> EmptyString.

(** ** Concrete graphs and environments *)

Definition tokenSource : string :=
  "pragma solidity ^0.8.20; contract Token is ERC20 { }".

Definition plainNode (nodeId kind : string) : Node :=
  mkNode nodeId (mkNodeData nodeId kind None None []).

Definition sourceNode (nodeId code : string) : Node :=
  mkNode nodeId (mkNodeData nodeId "contractInput" (Some code) None []).

Definition plainEdge (i s t : string) : Edge := mkEdge i s t None None.

(** The message of the [TypeError] of V8 for reading a property of
    [null] or [undefined]. *)
Definition v8TypeError (name : string) (v : JsVal) : string :=
  String.append "Cannot read properties of "
    (String.append (jsString v)
       (String.append " (reading '" (String.append name "')"))).

(** A handler run that succeeds with the node's own id as output. *)
Definition succeedWithId (node : Node) : HandlerRun :=
  mkRun [] (Returned (mkResult true "ok" (JStr (id node)))).

Definition allSucceed : Environment :=
  mkEnv (fun _ node _ => succeedWithId node) (fun _ => false) (fun _ => "summary") v8TypeError.

(** The caller calls [stop()] while step B is in flight. *)
Definition stopDuringB : Environment :=
  mkEnv (fun _ node _ => succeedWithId node) (fun nodeId => String.eqb nodeId "B")
        (fun _ => "summary") v8TypeError.

(** What the compiler service answers for a Compile step: an ABI that
    names the step. *)
Definition compiledFor (nodeId : string) : JsVal :=
  JObj [("success", JBool true); ("abi", JArr [JStr nodeId]); ("bytecode", JStr "0x00")].

Definition compilerAnswers : Environment :=
  mkEnv (fun kind node _ =>
           if String.eqb kind "compile"
           then mkRun [[("compilationResult", compiledFor (id node))]]
                  (Returned (mkResult true "Contract compiled successfully"
                               (compiledFor (id node))))
           else succeedWithId node)
        (fun _ => false) (fun _ => "summary") v8TypeError.

(** Source Input, Compile, Extract ABI in a chain. *)
Definition pipeline : ExecutionContext :=
  mkContext
    [sourceNode "A" tokenSource; plainNode "B" "compile"; plainNode "C" "generateABI"]
    [plainEdge "e1" "A" "B"; plainEdge "e2" "B" "C"]
    true.

(** Source Input, two Compile steps, Extract ABI in a chain. *)
Definition twoCompiles : ExecutionContext :=
  mkContext
    [sourceNode "A" tokenSource; plainNode "S1" "compile"; plainNode "S2" "compile";
     plainNode "T" "generateABI"]
    [plainEdge "e0" "A" "S1"; plainEdge "e1" "S1" "S2"; plainEdge "e2" "S2" "T"]
    false.


(** Two steps connected in a cycle. *)
Definition twoCycle : ExecutionContext :=
  mkContext
    [plainNode "A" "projectCreate"; plainNode "B" "projectCreate"]
    [plainEdge "e1" "A" "B"; plainEdge "e2" "B" "A"]
    false.

(** One step and a connection whose source is not a step. *)
Definition danglingSource : ExecutionContext :=
  mkContext [plainNode "A" "projectCreate"] [plainEdge "e1" "X" "A"] false.

(** Two steps, a connection to an id that is not a step and a connection
    from an id that is not a step. *)
Definition danglingBoth : ExecutionContext :=
  mkContext
    [plainNode "A" "projectCreate"; plainNode "B" "projectCreate"]
    [plainEdge "e1" "A" "X"; plainEdge "e2" "Y" "B"]
    false.

(** A self-loop on step A and a connection from step B to an id that is
    not a step. *)
Definition maskedCycle : ExecutionContext :=
  mkContext
    [plainNode "A" "projectCreate"; plainNode "B" "projectCreate"]
    [plainEdge "e1" "A" "A"; plainEdge "e2" "B" "X"]
    false.

(** ** Status calls of a run *)

(** The [onNodeStatus] calls of a trace, in call order. *)
Fixpoint statusCalls (t : list Event) : list (string * Status) :=
  match t with
  | [] => []
  | NodeStatus i s :: t' => (i, s) :: statusCalls t'
  | _ :: t' => statusCalls t'
  end.

(** Status calls come in pairs: [Running] for a step, directly followed
    by the terminal status of the same step. *)
Inductive Sequential : list (string * Status) -> Prop :=
| Sequential_nil : Sequential []
| Sequential_step i s rest :
    s = Success \/ s = Error ->
    Sequential rest ->
    Sequential ((i, Running) :: (i, s) :: rest).

Definition isRunning (s : Status) : bool :=
  match s with
  | Running => true
  | _ => false
  end.

(** The steps that were started, in the order of their [Running] calls. *)
Definition startedIds (t : list Event) : list string :=
  map fst (filter (fun c => isRunning (snd c)) (statusCalls t)).

(** The status calls of steps that succeed one after the other. *)
Definition succeededCalls (ids : list string) : list (string * Status) :=
  flat_map (fun i => [(i, Running); (i, Success)]) ids.

(** The edge list of the last [onEdgeUpdate] call of a trace. *)
Fixpoint lastEdgeUpdate (t : list Event) : option (list Edge) :=
  match t with
  | [] => None
  | e :: t' =>
      match lastEdgeUpdate t' with
      | Some es => Some es
      | None =>
          match e with
          | EdgeUpdate es => Some es
          | _ => None
          end
      end
  end.

(** The edge list with the status of the last status call written on
    it, if there was a call. *)
Definition afterLastCall (calls : list (string * Status)) (edges : list Edge)
  : option (list Edge) :=
  match rev calls with
  | [] => None
  | (i, s) :: _ => Some (map (setEdgeStatus i s) edges)
  end.

(** What [setEdgeStatus] leaves alone. *)
Definition connection (e : Edge) : string * string * string :=
  (edgeId e, source e, target e).

(** Steps with no connection into them, in node-list order. *)
Definition entrySteps (nodes : list Node) (edges : list Edge) : list string :=
  filter (fun i => Nat.eqb (indegree edges i) 0) (stepIds nodes).

(** Two steps with the same id. *)
Definition twins : ExecutionContext :=
  mkContext
    [plainNode "A" "projectCreate"; plainNode "A" "compile"; plainNode "B" "deploy"]
    [plainEdge "e1" "A" "B"]
    false.

(** A step whose kind tag is outside [NodeType]. *)
Definition strayKind : ExecutionContext :=
  mkContext
    [sourceNode "A" tokenSource; plainNode "B" "webhook"; plainNode "C" "compile"]
    [plainEdge "e1" "A" "B"; plainEdge "e2" "B" "C"]
    true.

(** ** Execution states of the store *)

(** The entry [{ nodeId, status }] the hook passes to
    [setExecutionState] for a status call. *)
Definition statusEntry (c : string * Status) : Store.NodeExecutionState :=
  Store.mkExecutionState (fst c) (snd c) JUndefined None.

(** The execution states after [setExecutionState] for one status call. *)
Definition recordStatus (states : list Store.NodeExecutionState) (c : string * Status)
  : list Store.NodeExecutionState :=
  Store.executionStates
    (Store.setExecutionState (statusEntry c) (Store.mkStore [] [] None states false)).

(** A store that holds the graph of [pipeline]. *)
Definition pipelineStore : Store.State :=
  Store.mkStore (nodes pipeline) (edges pipeline) None [] false.

(** The spread that keeps the node data as it is. *)
Definition keepData (d : NodeData) (patch : list (string * JsVal)) : NodeData := d.

(** ** Batches of compilations *)

(** The result of [compileContract] for the contract at position
    [index] of a batch. *)
Definition compiledAt (fetchAt : nat -> Compiler.Request -> Exc Compiler.Response)
  (index : nat) (contract : string * string) : Compiler.CompilationResult :=
  Compiler.compileContract (fetchAt index) (fst contract) (JStr (snd contract))
    (JStr "0.8.20").

(** A compiler service that accepts every request. *)
Definition accepting (request : Compiler.Request) : Exc Compiler.Response :=
  Returned (Compiler.mkResponse true 200 "OK"
              (Returned (Compiler.mkCompilation true (Some []) (Some "0x00") None None))).

(** A batch whose second contract has no source. *)
Definition threeContracts : list (string * string) :=
  [(tokenSource, "Token"); (EmptyString, "Empty"); (tokenSource, "Later")].

(** Services around the accepting compiler. *)
Definition acceptingServices : Services :=
  mkServices (fun _ => accepting)
    (fun _ _ _ => OpenAI.mkAnalysis true (Some "No issues found") None)
    (fun _ => "2024-01-01T00:00:00.000Z")
    (fun _ => "sourceCode.trim is not a function") allSucceed.

(** ** Services for concrete runs *)

(** Services around a compiler service [fetchFor] and an environment for
    what they leave open. *)
Definition servicesAround (fetchFor : string -> Compiler.Request -> Exc Compiler.Response)
  (rest : Environment) : Services :=
  mkServices fetchFor
    (fun _ _ _ => OpenAI.mkAnalysis true (Some "No issues found") None)
    (fun _ => "2024-01-01T00:00:00.000Z")
    (fun _ => "sourceCode.trim is not a function") rest.

(** The compiler finds an error in the source: the route answers with
    status 200 and the errors. *)
Definition rejecting (request : Compiler.Request) : Exc Compiler.Response :=
  Returned (Compiler.mkResponse true 200 "OK"
              (Returned (Compiler.rejected ["ParserError: Expected pragma"]))).

(** The compiler answers each Compile step with an ABI that names the
    step. *)
Definition naming (nodeId : string) (request : Compiler.Request) : Exc Compiler.Response :=
  Returned (Compiler.mkResponse true 200 "OK"
              (Returned (Compiler.mkCompilation true (Some [JStr nodeId]) (Some "0x00")
                           None None))).

(** The pipeline with the handlers of the repository: the compiler
    accepts, rejects, or accepts while the caller calls [stop()] during
    step B. *)
Definition pipelineAccepted : Environment :=
  serviceEnv (nodes pipeline) (servicesAround (fun _ => accepting) allSucceed).

Definition pipelineRejected : Environment :=
  serviceEnv (nodes pipeline) (servicesAround (fun _ => rejecting) allSucceed).

Definition pipelineStopped : Environment :=
  serviceEnv (nodes pipeline) (servicesAround (fun _ => accepting) stopDuringB).

Definition twoCompilesNamed : Environment :=
  serviceEnv (nodes twoCompiles) (servicesAround naming allSucceed).

Definition strayKindAccepted : Environment :=
  serviceEnv (nodes strayKind) (servicesAround (fun _ => accepting) allSucceed).

(** A Source Input step with the id 2 before a Compile step with the
    id 1. *)
Definition numbered : ExecutionContext :=
  mkContext [sourceNode "2" tokenSource; plainNode "1" "compile"]
    [plainEdge "e1" "2" "1"] true.

Definition numberedAccepted : Environment :=
  serviceEnv (nodes numbered) (servicesAround (fun _ => accepting) allSucceed).





(** ** Renaming of step ids *)

Definition renameNode (f : string -> string) (n : Node) : Node :=
  mkNode (f (id n)) (data n).

Definition renameEdge (f : string -> string) (e : Edge) : Edge :=
  mkEdge (edgeId e) (f (source e)) (f (target e)) (sourceStatus e) (targetStatus e).

(** Every id that occurs in the graph: step ids and end points. *)
Definition graphIds (nodes : list Node) (edges : list Edge) : list string :=
  stepIds nodes ++ map source edges ++ map target edges.

(** A map with its keys renamed and its values mapped. *)
Definition renameKeys {A B : Type} (f : string -> string) (g : A -> B)
  (m : list (string * A)) : list (string * B) :=
  map (fun kv => (f (fst kv), g (snd kv))) m.

(** The end points of a connection. *)
Definition endpoints (e : Edge) : string * string := (source e, target e).

(** ** The shape of a generated workflow *)

(** The generated graph without the clock: the id of a step is the
    prefix of its generated id. *)
Definition skeletonNodes : list Node :=
  map (fun p => plainNode (fst p) (snd p))
    [("project", "projectCreate"); ("contract", "contractInput"); ("compile", "compile");
     ("abi", "generateABI"); ("bytecode", "generateBytecode"); ("deploy", "deploy");
     ("completion", "completion")].

Definition skeletonEdges : list Edge :=
  map (fun p => plainEdge EmptyString (fst p) (snd p))
    [("project", "contract"); ("contract", "compile"); ("compile", "abi");
     ("compile", "bytecode"); ("abi", "deploy"); ("bytecode", "deploy");
     ("deploy", "completion")].

(** The reading of the clock that stamps the id with the given prefix. *)
Definition readingOf (template : ContractTemplate) (prefix : string) : nat :=
  let readings := if String.eqb (templateId template) "crowdfunding" then 6 else 5 in
  if String.eqb prefix "project" then 0
  else if String.eqb prefix "contract" then 1
  else if String.eqb prefix "compile" then 2
  else if String.eqb prefix "abi" then 3
  else if String.eqb prefix "bytecode" then 4
  else if String.eqb prefix "deploy" then readings
  else if String.eqb prefix "completion" then S readings
  else S (S readings).

(** The generated id of the step with the given prefix. *)
Definition stamp (clock : nat -> Z) (template : ContractTemplate) (prefix : string)
  : string :=
  stampedId clock prefix (readingOf template prefix).

Definition prefixes : list string :=
  ["project"; "contract"; "compile"; "abi"; "bytecode"; "deploy"; "completion"; "ai"].

(** A template around the token source, and a clock that stands still. *)
Definition tokenTemplate : ContractTemplate :=
  mkTemplate "simple-token" "Simple Token" "A basic ERC20 token" tokenSource.

Definition stoppedClock (n : nat) : Z := 1700000000000%Z.

Definition noIcon (kind : string) : JsVal := JUndefined.

Ltac by_computation := vm_compute; reflexivity.

(** Discharge the next premise of [H] by evaluating the definitions. *)
Ltac premise H := lapply H; [clear H; intros H | by_computation].

(** * Properties *)

(** ** Source validation and name extraction *)

Section RegexFacts.

Lemma matchStar_sound {R} c s (k : string -> option R) x :
  matchStar c s k = Some x ->
  exists s', k s' = Some x /\ String.length s' <= String.length s.
Proof.
  revert x. induction s as [|a s IH]; intros x H; simpl in H.
  - exists EmptyString. split; [assumption | reflexivity].
  - destruct (inClass c a).
    + destruct (matchStar c s k) as [y|] eqn:E.
      * injection H as <-. destruct (IH y eq_refl) as (s' & Hk & Hl).
        exists s'. split; [assumption | simpl; lia].
      * exists (String a s). split; [assumption | lia].
    + exists (String a s). split; [assumption | lia].
Qed.

Lemma matchPlus_sound {R} c s (k : string -> option R) x :
  matchPlus c s k = Some x ->
  exists s', k s' = Some x /\ String.length s' < String.length s.
Proof.
  destruct s as [|a s]; simpl; [discriminate|].
  destruct (inClass c a); [|discriminate].
  intros H. destruct (matchStar_sound _ _ _ H) as (s' & Hk & Hl).
  exists s'. split; [assumption | simpl; lia].
Qed.

Lemma consumed_nonempty s s' :
  String.length s' < String.length s -> consumed s s' <> EmptyString.
Proof.
  unfold consumed. intros H.
  destruct s as [|a s]; [simpl in H; lia|].
  destruct (String.length (String a s) - String.length s') as [|m] eqn:E; [lia|].
  simpl. discriminate.
Qed.

Lemma matchRe_captures {R} r :
  groupsArePlus r = true ->
  forall s cap (k : string -> option string -> option R) x,
    matchRe r s cap k = Some x ->
    exists s' cap',
      k s' cap' = Some x
      /\ (captured cap -> captured cap')
      /\ (setsGroup r = true -> captured cap').
Proof.
  induction r as [p|c|c|r1 IH1 r2 IH2|r1 IH1 r2 IH2|r IH];
    intros Hg s cap k x H; simpl in *.
  - destruct (dropPrefix p s) as [s'|]; [|discriminate].
    exists s', cap. repeat split; [assumption | tauto | discriminate].
  - apply matchPlus_sound in H. destruct H as (s' & Hk & _).
    exists s', cap. repeat split; [assumption | tauto | discriminate].
  - apply matchStar_sound in H. destruct H as (s' & Hk & _).
    exists s', cap. repeat split; [assumption | tauto | discriminate].
  - apply andb_true_iff in Hg. destruct Hg as [Hg1 Hg2].
    destruct (IH1 Hg1 _ _ _ _ H) as (s1 & cap1 & H1 & Hkeep1 & Hset1).
    destruct (IH2 Hg2 _ _ _ _ H1) as (s2 & cap2 & H2 & Hkeep2 & Hset2).
    exists s2, cap2. repeat split; [assumption | tauto |].
    intros Hs. apply orb_true_iff in Hs. tauto.
  - apply andb_true_iff in Hg. destruct Hg as [Hg1 Hg2].
    destruct (matchRe r1 s cap k) as [y|] eqn:E.
    + injection H as <-.
      destruct (IH1 Hg1 _ _ _ _ E) as (s1 & cap1 & H1 & Hkeep1 & Hset1).
      exists s1, cap1. repeat split; [assumption | tauto |].
      intros Hs. apply andb_true_iff in Hs. tauto.
    + destruct (IH2 Hg2 _ _ _ _ H) as (s2 & cap2 & H2 & Hkeep2 & Hset2).
      exists s2, cap2. repeat split; [assumption | tauto |].
      intros Hs. apply andb_true_iff in Hs. tauto.
  - destruct r as [p|c|c|r1 r2|r1 r2|r]; try discriminate.
    simpl in H. apply matchPlus_sound in H. destruct H as (s' & Hk & Hl).
    exists s', (Some (consumed s s')).
    assert (captured (Some (consumed s s'))) as Hc
        by (eexists; split; [reflexivity | apply consumed_nonempty; exact Hl]).
    repeat split; [assumption | intros _; exact Hc | intros _; exact Hc].
Qed.

Lemma jsMatch_captures r s cap :
  groupsArePlus r = true -> setsGroup r = true ->
  jsMatch r s = Some cap -> captured cap.
Proof.
  intros Hg Hs. induction s as [|a s IH]; simpl.
  - destruct (matchRe r EmptyString None (fun _ c => Some c)) as [c|] eqn:E;
      [|discriminate].
    intros [= <-].
    destruct (matchRe_captures r Hg _ _ _ E) as (s' & cap' & Hk & _ & Hset).
    injection Hk as <-. auto.
  - destruct (matchRe r (String a s) None (fun _ c => Some c)) as [c|] eqn:E;
      [|exact IH].
    intros [= <-].
    destruct (matchRe_captures r Hg _ _ _ E) as (s' & cap' & Hk & _ & Hset).
    injection Hk as <-. auto.
Qed.

(** Whether a match exists does not depend on the group. *)
Lemma matchStar_defined {R1 R2} c s
  (k1 : string -> option R1) (k2 : string -> option R2) :
  (forall s', k1 s' = None <-> k2 s' = None) ->
  (matchStar c s k1 = None <-> matchStar c s k2 = None).
Proof.
  intros Hk. induction s as [|a s IH]; simpl; [apply Hk|].
  destruct (inClass c a); [|apply Hk].
  destruct (matchStar c s k1), (matchStar c s k2);
    try (split; discriminate); try apply Hk;
    destruct IH as [IHa IHb]; try (specialize (IHa eq_refl); discriminate);
    try (specialize (IHb eq_refl); discriminate).
Qed.

Lemma matchRe_defined {R1 R2} r :
  forall s cap1 cap2
    (k1 : string -> option string -> option R1)
    (k2 : string -> option string -> option R2),
    (forall s' c1 c2, k1 s' c1 = None <-> k2 s' c2 = None) ->
    (matchRe r s cap1 k1 = None <-> matchRe (eraseGroups r) s cap2 k2 = None).
Proof.
  induction r as [p|c|c|r1 IH1 r2 IH2|r1 IH1 r2 IH2|r IH];
    intros s cap1 cap2 k1 k2 Hk; simpl.
  - destruct (dropPrefix p s); [apply Hk | tauto].
  - destruct s as [|a s]; simpl; [tauto|].
    destruct (inClass c a); [|tauto].
    apply matchStar_defined. intros s'. apply Hk.
  - apply matchStar_defined. intros s'. apply Hk.
  - apply IH1. intros s' c1 c2. apply IH2. exact Hk.
  - specialize (IH1 s cap1 cap2 k1 k2 Hk). specialize (IH2 s cap1 cap2 k1 k2 Hk).
    destruct (matchRe r1 s cap1 k1), (matchRe (eraseGroups r1) s cap2 k2);
      try (split; discriminate); try exact IH2;
      destruct IH1 as [IHa IHb]; try (specialize (IHa eq_refl); discriminate);
      try (specialize (IHb eq_refl); discriminate).
  - apply IH. intros s' c1 c2. apply Hk.
Qed.

Lemma jsMatch_defined r s :
  jsMatch r s = None <-> jsMatch (eraseGroups r) s = None.
Proof.
  assert (forall t,
    matchRe r t None (fun _ c => Some c) = None
    <-> matchRe (eraseGroups r) t None (fun _ c => Some c) = None) as Hm.
  { intros t. apply matchRe_defined. intros; split; discriminate. }
  induction s as [|a s IH]; simpl.
  - specialize (Hm EmptyString).
    destruct (matchRe r EmptyString None _), (matchRe (eraseGroups r) EmptyString None _);
      try tauto; destruct Hm as [Ha Hb];
      try (specialize (Ha eq_refl); discriminate);
      try (specialize (Hb eq_refl); discriminate).
  - specialize (Hm (String a s)).
    destruct (matchRe r (String a s) None _),
             (matchRe (eraseGroups r) (String a s) None _);
      try tauto; try (split; discriminate); destruct Hm as [Ha Hb];
      try (specialize (Ha eq_refl); discriminate);
      try (specialize (Hb eq_refl); discriminate).
Qed.

End RegexFacts.

Lemma validate_valid_inv sourceCode :
  valid (validateSolidityCode sourceCode) = true ->
  sourceCode <> EmptyString /\ jsMatch definitionRe sourceCode <> None.
Proof.
  unfold validateSolidityCode.
  destruct (String.eqb_spec sourceCode EmptyString) as [E|E]; simpl; [discriminate|].
  destruct (String.length (trim sourceCode) =? 0); simpl; [discriminate|].
  destruct (includes sourceCode "pragma solidity"); simpl; [|discriminate].
  destruct (jsMatch definitionRe sourceCode); simpl; [|discriminate].
  intros _. split; [assumption | discriminate].
Qed.

Lemma extractContractName_captured sourceCode :
  jsMatch definitionRe sourceCode <> None ->
  captured (extractContractName sourceCode).
Proof.
  intros Hdef. unfold extractContractName.
  destruct (jsMatch mainContractRe sourceCode) as [cap|] eqn:Emain.
  - apply (jsMatch_captures mainContractRe sourceCode); auto.
  - destruct (jsMatch anyContractRe sourceCode) as [cap|] eqn:Eany.
    + apply (jsMatch_captures anyContractRe sourceCode); auto.
    + exfalso. apply Hdef.
      apply (proj1 (jsMatch_defined anyContractRe sourceCode)). exact Eany.
Qed.

Lemma validation_message_not_extract v sourceCode :
  v = validateSolidityCode sourceCode ->
  valid v = false ->
  match truthy (validationMessage v) with
  | Some m => m
  | None => "Invalid Solidity code"
  end <> extractFailureMessage.
Proof.
  intros -> Hv. unfold validateSolidityCode in *.
  destruct (String.eqb sourceCode EmptyString
            || (String.length (trim sourceCode) =? 0)); [discriminate|].
  destruct (negb (includes sourceCode "pragma solidity")); [discriminate|].
  destruct (jsMatch definitionRe sourceCode); [discriminate Hv | discriminate].
Qed.

(** C10. Whenever [validateSolidityCode] accepts a source text,
    [extractContractName] returns a non-null (and non-empty) name for the
    same text; the Contract Input handler, given validated code and no
    user-supplied name, succeeds with the extracted name; and for no node at
    all does the handler return the "Could not extract contract name"
    failure. *)
Theorem validated_source_has_name (sourceCode : string) :
  valid (validateSolidityCode sourceCode) = true ->
  (exists name,
     extractContractName sourceCode = Some name
     /\ name <> EmptyString
     /\ forall node,
          contractCode (data node) = Some sourceCode ->
          truthy (contractName (data node)) = None ->
          executeContractInput node
          = mkRun [[("contractName", JStr name)]]
              (Returned (mkResult true "Contract code validated"
                           (contractInputData sourceCode name))))
  /\ (forall node,
        outcome (executeContractInput node)
        <> Returned (failure extractFailureMessage)).
Proof.
  intros Hvalid. split.
  - destruct (validate_valid_inv _ Hvalid) as [Hne Hdef].
    destruct (extractContractName_captured _ Hdef) as (name & Hname & Hnonempty).
    exists name. repeat split; [assumption | assumption |].
    intros node Hcode Hno. unfold executeContractInput.
    rewrite Hcode. simpl.
    destruct (String.eqb_spec sourceCode EmptyString) as [E|_]; [contradiction|].
    rewrite Hvalid, Hno, Hname. simpl.
    destruct (String.eqb_spec name EmptyString) as [E|_]; [contradiction|].
    reflexivity.
  - intros node. unfold executeContractInput.
    destruct (truthy (contractCode (data node))) as [code|]; [|discriminate].
    destruct (valid (validateSolidityCode code)) eqn:Hv; simpl.
    + destruct (truthy (contractName (data node))); [discriminate|].
      destruct (validate_valid_inv _ Hv) as [_ Hdef].
      destruct (extractContractName_captured _ Hdef) as (name & Hname & Hnonempty).
      rewrite Hname. simpl.
      destruct (String.eqb_spec name EmptyString) as [E|_]; [contradiction|].
      discriminate.
    + intros H. injection H as H.
      exact (validation_message_not_extract _ eq_refl Hv H).
Qed.

Lemma validated_source_has_name_witness :
  valid (validateSolidityCode tokenSource) = true
  /\ exists name, extractContractName tokenSource = Some name /\ name <> EmptyString.
Proof.
  split; [reflexivity|].
  destruct (validated_source_has_name tokenSource eq_refl) as [(name & H & Hne & _) _].
  exists name. split; assumption.
Defined.

Example extract_token : extractContractName tokenSource = Some "Token".
Proof. reflexivity. Qed.

Example validate_token : valid (validateSolidityCode tokenSource) = true.
Proof. reflexivity. Qed.

Example extract_fallback :
  extractContractName "pragma solidity ^0.8.20; interface IFoo" = Some "IFoo".
Proof. reflexivity. Qed.

Example validate_no_pragma :
  valid (validateSolidityCode "contract Foo {}") = false.
Proof. reflexivity. Qed.

(** ** Maps *)

Section JsMapFacts.
Context {V : Type}.
Implicit Types (m : list (string * V)) (k : string) (v : V).

Lemma get_set_same m k v : JsMap.get (JsMap.set m k v) k = Some v.
Proof.
  induction m as [|[k' v'] m IH]; simpl.
  - rewrite String.eqb_refl. reflexivity.
  - destruct (String.eqb k' k) eqn:E; simpl; rewrite E; [reflexivity | exact IH].
Qed.

Lemma get_set_other m k k' v :
  k' <> k -> JsMap.get (JsMap.set m k v) k' = JsMap.get m k'.
Proof.
  intros Hne. induction m as [|[k0 v0] m IH]; simpl.
  - destruct (String.eqb_spec k k'); [congruence | reflexivity].
  - destruct (String.eqb_spec k0 k) as [->|E]; simpl.
    + destruct (String.eqb_spec k k'); [congruence | reflexivity].
    + destruct (String.eqb k0 k'); [reflexivity | exact IH].
Qed.

Lemma get_none_iff m k : JsMap.get m k = None <-> ~ In k (JsMap.keys m).
Proof.
  induction m as [|[k' v'] m IH]; simpl; [tauto|].
  destruct (String.eqb_spec k' k) as [->|E].
  - split; [discriminate | tauto].
  - rewrite IH. tauto.
Qed.

Lemma keys_set_in m k v : In k (JsMap.keys m) -> JsMap.keys (JsMap.set m k v) = JsMap.keys m.
Proof.
  induction m as [|[k' v'] m IH]; simpl; [tauto|].
  destruct (String.eqb_spec k' k) as [->|E]; simpl; [reflexivity|].
  intros [H|H]; [contradiction|]. rewrite (IH H). reflexivity.
Qed.

Lemma set_fresh m k v : ~ In k (JsMap.keys m) -> JsMap.set m k v = m ++ [(k, v)].
Proof.
  induction m as [|[k' v'] m IH]; simpl; [reflexivity|].
  intros H. destruct (String.eqb_spec k' k) as [->|E]; [tauto|].
  rewrite IH; [reflexivity | tauto].
Qed.

Lemma keys_set m k v :
  JsMap.keys (JsMap.set m k v)
  = if in_dec string_dec k (JsMap.keys m) then JsMap.keys m else JsMap.keys m ++ [k].
Proof.
  destruct (in_dec string_dec k (JsMap.keys m)) as [H|H].
  - apply keys_set_in. exact H.
  - rewrite set_fresh by exact H. unfold JsMap.keys. rewrite map_app. reflexivity.
Qed.

Lemma keys_set_NoDup m k v : NoDup (JsMap.keys m) -> NoDup (JsMap.keys (JsMap.set m k v)).
Proof.
  intros H. rewrite keys_set. destruct (in_dec string_dec k (JsMap.keys m)); [exact H|].
  apply NoDup_app; [exact H | repeat constructor; simpl; tauto |].
  intros x Hx [<-|[]]. contradiction.
Qed.

Lemma in_keys_set m k k' v :
  In k' (JsMap.keys (JsMap.set m k v)) <-> k' = k \/ In k' (JsMap.keys m).
Proof.
  rewrite keys_set. destruct (in_dec string_dec k (JsMap.keys m)) as [H|H].
  - split; [tauto | intros [->|H']; assumption].
  - rewrite in_app_iff. simpl. intuition congruence.
Qed.

Lemma get_in_NoDup m k v : NoDup (JsMap.keys m) -> In (k, v) m -> JsMap.get m k = Some v.
Proof.
  induction m as [|[k' v'] m IH]; simpl; [tauto|].
  intros Hnd [H|H].
  - injection H as -> ->. rewrite String.eqb_refl. reflexivity.
  - inversion Hnd as [|? ? Hnotin Hnd']; subst.
    destruct (String.eqb_spec k' k) as [->|E].
    + exfalso. apply Hnotin. apply (in_map fst) in H. exact H.
    + apply IH; assumption.
Qed.

Lemma get_some_in m k v : JsMap.get m k = Some v -> In (k, v) m.
Proof.
  induction m as [|[k' v'] m IH]; simpl; [discriminate|].
  destruct (String.eqb_spec k' k) as [->|E].
  - intros [= ->]. left. reflexivity.
  - intros H. right. exact (IH H).
Qed.

End JsMapFacts.

(** ** The scheduler loop *)

(** Induction principle for the [while] loop: a property of (inDegree,
    queue, result) that every iteration preserves holds when the loop
    exits with an empty queue. *)
Lemma kahnLoop_invariant adj
  (P : list (string * Z) -> list string -> list string -> Prop) :
  (forall deg nodeId queue result,
     P deg (nodeId :: queue) result ->
     P (fst (relaxAll adj nodeId (deg, queue)))
       (snd (relaxAll adj nodeId (deg, queue)))
       (result ++ [nodeId])) ->
  forall s result,
    P (fst s) (snd s) result ->
    exists deg, P deg [] (kahnLoop adj s result).
Proof.
  intros Hstep s result. funelim (kahnLoop adj s result); intros HP.
  - exists deg. exact HP.
  - apply H; [exact Hstep|]. exact (Hstep _ _ _ _ HP).
Qed.

(** The same principle for the inner [forEach] over the neighbours. *)
Lemma relaxAll_invariant adj nodeId
  (P : list (string * Z) -> list string -> Prop) :
  (forall deg queue neighbor,
     P deg queue ->
     P (fst (relax (deg, queue) neighbor)) (snd (relax (deg, queue) neighbor))) ->
  forall deg queue,
    P deg queue ->
    P (fst (relaxAll adj nodeId (deg, queue))) (snd (relaxAll adj nodeId (deg, queue))).
Proof.
  intros Hstep deg queue HP. unfold relaxAll.
  destruct (JsMap.get adj nodeId) as [l|]; [|exact HP].
  revert deg queue HP. induction l as [|x l IH]; intros deg queue HP; [exact HP|].
  simpl fold_left. specialize (Hstep _ _ x HP).
  destruct (relax (deg, queue) x) as [deg' queue'] eqn:E.
  apply IH. exact Hstep.
Qed.

Lemma orZero_some z : orZero (Some z) = z.
Proof. unfold orZero. destruct (Z.eqb_spec z 0); congruence. Qed.

Lemma relax_settled result deg queue neighbor :
  settled deg queue result ->
  settled (fst (relax (deg, queue) neighbor)) (snd (relax (deg, queue) neighbor)) result.
Proof.
  intros [Hnd Hdeg]. unfold relax. simpl.
  set (newDegree := (orZero (JsMap.get deg neighbor) - 1)%Z).
  assert (forall k, In k (result ++ queue) ->
            (orZero (JsMap.get (JsMap.set deg neighbor newDegree) k) <= 0)%Z) as Hdeg'.
  { intros k Hk. destruct (string_dec k neighbor) as [->|Hne].
    - rewrite get_set_same, orZero_some. specialize (Hdeg _ Hk). unfold newDegree. lia.
    - rewrite get_set_other by exact Hne. exact (Hdeg _ Hk). }
  destruct (Z.eqb_spec newDegree 0) as [E|E].
  - assert (~ In neighbor (result ++ queue)) as Hfresh.
    { intros Hin. specialize (Hdeg _ Hin). unfold newDegree in E. lia. }
    split.
    + rewrite app_assoc. apply NoDup_app; [exact Hnd | repeat constructor; simpl; tauto |].
      intros x Hx [<-|[]]. contradiction.
    + intros k Hk. rewrite app_assoc, in_app_iff in Hk. destruct Hk as [Hk|[<-|[]]].
      * exact (Hdeg' _ Hk).
      * rewrite get_set_same, orZero_some. lia.
  - split; assumption.
Qed.

Lemma kahnLoop_NoDup adj deg queue :
  settled deg queue [] -> NoDup (kahnLoop adj (deg, queue) []).
Proof.
  intros H.
  destruct (kahnLoop_invariant adj (fun d q r => settled d q r)) with (s := (deg, queue)) (result := @nil string)
    as (deg' & Hnd & _).
  - intros d nodeId q r Hs.
    apply (relaxAll_invariant adj nodeId (fun d' q' => settled d' q' (r ++ [nodeId]))).
    + intros d' q' nb. apply relax_settled.
    + unfold settled in *. rewrite <- app_assoc. exact Hs.
  - exact H.
  - rewrite app_nil_r in Hnd. exact Hnd.
Qed.

Lemma initNode_keys_NoDup nodes g :
  NoDup (JsMap.keys (inDegree g)) ->
  NoDup (JsMap.keys (inDegree (fold_left initNode nodes g))).
Proof.
  revert g. induction nodes as [|n nodes IH]; intros g H; simpl; [exact H|].
  apply IH. simpl. apply keys_set_NoDup. exact H.
Qed.

Lemma addEdge_keys_NoDup edges g :
  NoDup (JsMap.keys (inDegree g)) ->
  NoDup (JsMap.keys (inDegree (fold_left addEdge edges g))).
Proof.
  revert g. induction edges as [|e edges IH]; intros g H; simpl; [exact H|].
  apply IH. simpl. apply keys_set_NoDup. exact H.
Qed.

Lemma buildGraph_keys_NoDup nodes edges :
  NoDup (JsMap.keys (inDegree (buildGraph nodes edges))).
Proof.
  unfold buildGraph. apply addEdge_keys_NoDup, initNode_keys_NoDup. constructor.
Qed.

Lemma initialQueue_in deg k :
  In k (initialQueue deg) <-> In (k, 0%Z) deg.
Proof.
  unfold initialQueue. rewrite in_map_iff. split.
  - intros ([k' z] & <- & H). apply filter_In in H. simpl in *.
    destruct H as [H Hz]. apply Z.eqb_eq in Hz. subst z. exact H.
  - intros H. exists (k, 0%Z). split; [reflexivity|].
    apply filter_In. split; [exact H | reflexivity].
Qed.

Lemma initialQueue_NoDup deg : NoDup (JsMap.keys deg) -> NoDup (initialQueue deg).
Proof.
  unfold initialQueue, JsMap.keys. induction deg as [|[k z] deg IH]; simpl; intros H.
  - constructor.
  - inversion H as [|? ? Hnotin Hnd]; subst.
    destruct (z =? 0)%Z; simpl; [|exact (IH Hnd)].
    constructor; [|exact (IH Hnd)].
    intros Hin. apply Hnotin. apply in_map_iff in Hin.
    destruct Hin as (kv & Hk & Hf). apply filter_In in Hf.
    apply in_map_iff. exists kv. tauto.
Qed.

Lemma initial_settled deg :
  NoDup (JsMap.keys deg) -> settled deg (initialQueue deg) [].
Proof.
  intros H. split; simpl.
  - apply initialQueue_NoDup. exact H.
  - intros k Hk. apply initialQueue_in in Hk.
    rewrite (get_in_NoDup _ _ _ H Hk). simpl. lia.
Qed.

(** The order never lists an id twice, whatever the graph. *)
Lemma buildExecutionOrder_NoDup nodes edges order :
  buildExecutionOrder nodes edges = Returned order -> NoDup order.
Proof.
  unfold buildExecutionOrder.
  destruct (Nat.eqb _ _); [|discriminate].
  intros [= <-]. apply kahnLoop_NoDup, initial_settled, buildGraph_keys_NoDup.
Qed.

(** ** One step: closed form of [executeNode] *)

Lemma emitAll_spec es st :
  emitAll es st = (Returned tt, mkState (executionData st) (stopped st) (trace st ++ es)).
Proof.
  revert st. induction es as [|e es IH]; intros st; simpl.
  - rewrite app_nil_r. destruct st; reflexivity.
  - unfold bind, emit. rewrite IH. simpl. rewrite <- app_assoc. reflexivity.
Qed.

Lemma updateEdgeStatus_spec ctx nodeId status st :
  updateEdgeStatus ctx nodeId status st
  = (Returned tt,
     mkState (executionData st) (stopped st) (trace st ++ edgeEvents ctx nodeId status)).
Proof.
  unfold updateEdgeStatus, edgeEvents. destruct (hasOnEdgeUpdate ctx).
  - reflexivity.
  - rewrite app_nil_r. destruct st; reflexivity.
Qed.

Lemma nodeThrows_fails ctx env node d e :
  nodeThrows ctx env node d = Some e -> success (nodeResult ctx env node d) = false.
Proof.
  unfold nodeThrows, handlerThrows, nodeResult.
  destruct (handlerRunOf ctx env node d) as [run|]; [|discriminate].
  destruct (outcome run) as [r|v]; [discriminate|]. reflexivity.
Qed.

Lemma nodeThrows_error ctx env node d e :
  nodeThrows ctx env node d = Some e ->
  exists v, e = errorObject (mkError (propertyTypeError env "message" v)).
Proof.
  unfold nodeThrows. destruct (handlerThrows ctx env node d) as [[]|];
    intros [= <-]; eauto.
Qed.

Lemma nodeThrows_null ctx env node d e :
  nodeThrows ctx env node d = Some e ->
  exists v,
    (v = JUndefined \/ v = JNull)
    /\ handlerThrows ctx env node d = Some v
    /\ e = errorObject (mkError (propertyTypeError env "message" v)).
Proof.
  unfold nodeThrows. destruct (handlerThrows ctx env node d) as [[]|];
    intros [= <-]; eauto.
Qed.

Lemma executeNode_spec ctx env node st :
  executeNode ctx env node st
  = (match nodeThrows ctx env node (executionData st) with
     | Some e => Thrown e
     | None => Returned (nodeResult ctx env node (executionData st))
     end,
     mkState (executionData st) (stopped st)
       (trace st ++ nodeEvents ctx env node (executionData st))).
Proof.
  unfold executeNode, nodeEvents, terminalEvents, handlerEvents, reportedError, nodeThrows,
    handlerThrows, nodeResult, dispatch, bind, tryCatch, emit, complete, ret.
  rewrite !updateEdgeStatus_spec. simpl.
  destruct (handlerRunOf ctx env node (executionData st)) as [run|]; simpl.
  - rewrite emitAll_spec. simpl. destruct (outcome run) as [r|e]; simpl.
    + destruct (success r); simpl; rewrite !updateEdgeStatus_spec; simpl;
        repeat (rewrite <- ?app_assoc; simpl); reflexivity.
    + rewrite !updateEdgeStatus_spec; simpl.
      destruct e; simpl; rewrite ?updateEdgeStatus_spec; simpl;
        repeat (rewrite <- ?app_assoc; simpl); rewrite ?app_nil_r; reflexivity.
  - rewrite !updateEdgeStatus_spec; simpl.
    repeat (rewrite <- ?app_assoc; simpl); reflexivity.
Qed.

Lemma succeededIds_app t1 t2 : succeededIds (t1 ++ t2) = succeededIds t1 ++ succeededIds t2.
Proof.
  induction t1 as [|e t1 IH]; simpl; [reflexivity|].
  destruct e as [i []| | |]; simpl; rewrite IH; reflexivity.
Qed.

Lemma succeededIds_edgeEvents ctx i s : succeededIds (edgeEvents ctx i s) = [].
Proof. unfold edgeEvents. destruct (hasOnEdgeUpdate ctx); reflexivity. Qed.

Lemma succeededIds_updates i ps : succeededIds (map (NodeUpdate i) ps) = [].
Proof. induction ps; simpl; auto. Qed.

Lemma succeededIds_nodeEvents ctx env node d :
  succeededIds (nodeEvents ctx env node d)
  = if success (nodeResult ctx env node d) then [id node] else [].
Proof.
  unfold nodeEvents, terminalEvents, handlerEvents. simpl.
  rewrite !succeededIds_app, succeededIds_edgeEvents.
  destruct (handlerRunOf ctx env node d) as [run|]; simpl;
    rewrite ?succeededIds_updates;
    destruct (success (nodeResult ctx env node d)); simpl;
    rewrite succeededIds_app, succeededIds_edgeEvents;
    destruct (nodeThrows ctx env node d); reflexivity.
Qed.

Lemma in_succeededIds t i : In i (succeededIds t) <-> In (NodeStatus i Success) t.
Proof.
  induction t as [|e t IH]; simpl; [tauto|].
  destruct e as [j []| | |]; simpl; rewrite IH;
    split; intros H; try tauto; try (destruct H as [H|H]; [discriminate | tauto]).
  - destruct H as [->|H]; tauto.
  - destruct H as [[= ->]|H]; tauto.
Qed.

(** Every event of a step is about that step. *)
Lemma nodeEvents_about ctx env node d e :
  In e (nodeEvents ctx env node d) -> eventNode e = None \/ eventNode e = Some (id node).
Proof.
  unfold nodeEvents, terminalEvents, handlerEvents, edgeEvents. intros H.
  simpl in H. destruct H as [<-|H]; [right; reflexivity|].
  repeat (apply in_app_or in H; destruct H as [H|H]).
  - destruct (hasOnEdgeUpdate ctx); simpl in H; [|tauto].
    destruct H as [<-|[]]. left. reflexivity.
  - destruct (handlerRunOf ctx env node d); simpl in H; [|tauto].
    destruct H as [<-|H]; [right; reflexivity|].
    apply in_map_iff in H. destruct H as (p & <- & _). right. reflexivity.
  - destruct (success (nodeResult ctx env node d)); simpl in H;
      (destruct H as [<-|H]; [right; reflexivity|]);
      apply in_app_or in H; destruct H as [H|H];
      try (destruct (hasOnEdgeUpdate ctx); simpl in H; try tauto;
           destruct H as [<-|[]]; left; reflexivity);
      try destruct (nodeThrows ctx env node d); simpl in H;
      try tauto; destruct H as [<-|[]]; right; reflexivity.
Qed.

(** A step reports [Running] first and then exactly one terminal status:
    [Success] when its result is a success, [Error] otherwise. *)
Lemma nodeEvents_status ctx env node d i s :
  In (NodeStatus i s) (nodeEvents ctx env node d) <->
  i = id node
  /\ (s = Running
      \/ (s = Success /\ success (nodeResult ctx env node d) = true)
      \/ (s = Error /\ success (nodeResult ctx env node d) = false)).
Proof.
  unfold nodeEvents, terminalEvents, handlerEvents, edgeEvents. simpl.
  rewrite !in_app_iff.
  assert (forall l, ~ In (NodeStatus i s) (map (NodeUpdate (id node)) l)) as Hupd.
  { intros l H. apply in_map_iff in H. destruct H as (? & H & _). discriminate. }
  assert (forall st, ~ In (NodeStatus i s)
            (if hasOnEdgeUpdate ctx
             then [EdgeUpdate (map (setEdgeStatus (id node) st) (edges ctx))] else [])) as Hedge.
  { intros st H. destruct (hasOnEdgeUpdate ctx); simpl in H; [|tauto].
    destruct H as [H|[]]. discriminate. }
  split.
  - intros [H|[H|[H|H]]].
    + injection H as <- <-. tauto.
    + exfalso. exact (Hedge _ H).
    + exfalso. destruct (handlerRunOf ctx env node d); simpl in H; [|tauto].
      destruct H as [H|H]; [discriminate | exact (Hupd _ H)].
    + destruct (success (nodeResult ctx env node d)); simpl in H;
        (destruct H as [H|H]; [injection H as <- <-; tauto|]);
        exfalso; apply in_app_or in H; destruct H as [H|H];
        try exact (Hedge _ H);
        try destruct (nodeThrows ctx env node d); simpl in H;
        try tauto; destruct H as [H|[]]; discriminate.
  - intros [-> [->|[[-> Hs]|[-> Hs]]]].
    + left. reflexivity.
    + right. right. right. rewrite Hs. left. reflexivity.
    + right. right. right. rewrite Hs. left. reflexivity.
Qed.

Lemma findNode_some nodes nodeId node :
  findNode nodes nodeId = Some node -> id node = nodeId /\ In node nodes.
Proof.
  unfold findNode. intros H. apply find_some in H. destruct H as [Hin Heq].
  apply String.eqb_eq in Heq. tauto.
Qed.

(** ** The loop over the execution order *)

Section Run.
Variable ctx : ExecutionContext.
Variable env : Environment.

Lemma runOrder_stopped nodeId rest st :
  stopped st = true ->
  runOrder ctx env (nodeId :: rest) st = (Returned (Some (failure stopMessage)), st).
Proof. intros H. simpl. rewrite H. reflexivity. Qed.

Lemma runOrder_skip nodeId rest st :
  stopped st = false -> findNode (nodes ctx) nodeId = None ->
  runOrder ctx env (nodeId :: rest) st = runOrder ctx env rest st.
Proof. intros H1 H2. simpl. rewrite H1, H2. reflexivity. Qed.

(** One iteration that starts a step. *)
Lemma runOrder_step nodeId rest st node :
  stopped st = false -> findNode (nodes ctx) nodeId = Some node ->
  runOrder ctx env (nodeId :: rest) st
  = let r := nodeResult ctx env node (executionData st) in
    let t := trace st ++ nodeEvents ctx env node (executionData st) in
    if success r then
      runOrder ctx env rest
        (mkState (JsMap.set (executionData st) nodeId (resultData r))
           (stopDuring env nodeId) t)
    else
      match nodeThrows ctx env node (executionData st) with
      | Some e => (Thrown e, mkState (executionData st) false t)
      | None =>
          (Returned (Some (failure (failedAtMessage (label (data node))
                                      (jsString (message r))))),
           mkState (executionData st) (stopDuring env nodeId) t)
      end.
Proof.
  intros H1 H2. simpl. rewrite H1, H2. unfold bind at 1.
  rewrite executeNode_spec. unfold bind, awaitStop, recordOutput, ret. simpl.
  rewrite H1. simpl.
  destruct (nodeThrows ctx env node (executionData st)) as [e|] eqn:Hthrow.
  - rewrite (nodeThrows_fails _ _ _ _ Hthrow). reflexivity.
  - destruct (success (nodeResult ctx env node (executionData st))); reflexivity.
Qed.

(** What the loop throws is the [TypeError] of a [catch] block. *)
Lemma runOrder_throws order :
  forall st e st',
    runOrder ctx env order st = (Thrown e, st') ->
    exists v, e = errorObject (mkError (propertyTypeError env "message" v)).
Proof.
  induction order as [|nodeId rest IH]; intros st e st' Hrun.
  - discriminate.
  - destruct (stopped st) eqn:Hs.
    + rewrite runOrder_stopped in Hrun by exact Hs. discriminate.
    + destruct (findNode (nodes ctx) nodeId) as [node|] eqn:Hf.
      * rewrite (runOrder_step _ _ _ Hs Hf) in Hrun. cbv zeta in Hrun.
        destruct (success _); [exact (IH _ _ _ Hrun)|].
        destruct (nodeThrows ctx env node (executionData st)) as [e'|] eqn:Hthrow;
          [|discriminate].
        injection Hrun as <- <-. exact (nodeThrows_error _ _ _ _ Hthrow).
      * rewrite runOrder_skip in Hrun by assumption. exact (IH _ _ _ Hrun).
Qed.

Lemma runOrder_app pre post :
  forall st,
    runOrder ctx env (pre ++ post) st
    = match runOrder ctx env pre st with
      | (Returned None, st') => runOrder ctx env post st'
      | other => other
      end.
Proof.
  induction pre as [|nodeId rest IH]; intros st; [reflexivity|].
  rewrite <- app_comm_cons.
  destruct (stopped st) eqn:Hs.
  - rewrite !runOrder_stopped by exact Hs. reflexivity.
  - destruct (findNode (nodes ctx) nodeId) as [node|] eqn:Hf.
    + rewrite !(runOrder_step _ _ _ Hs Hf). cbv zeta.
      destruct (success _); [apply IH | destruct (nodeThrows _ _ _ _); reflexivity].
    + rewrite !runOrder_skip by assumption. apply IH.
Qed.

Lemma runOrder_extends order :
  NoDup order ->
  forall st r st',
    (forall i, In i order -> ~ In i (JsMap.keys (executionData st))) ->
    runOrder ctx env order st = (r, st') ->
    Extends order r st st'.
Proof.
  induction order as [|nodeId rest IH]; intros Hnd st r st' Hfresh Hrun.
  - injection Hrun as <- <-.
    apply (@mkExtends _ _ _ _ [] []); rewrite ?app_nil_r; simpl;
      try reflexivity; try constructor; try tauto.
  - inversion Hnd as [|? ? Hnotin Hnd']; subst.
    destruct (stopped st) eqn:Hs.
    { rewrite runOrder_stopped in Hrun by exact Hs. injection Hrun as <- <-.
      apply (@mkExtends _ _ _ _ [] []); rewrite ?app_nil_r; simpl;
        try reflexivity; try constructor; try tauto. }
    destruct (findNode (nodes ctx) nodeId) as [node|] eqn:Hf.
    2:{ rewrite runOrder_skip in Hrun by assumption.
        destruct (IH Hnd' _ _ _ (fun i Hi => Hfresh i (or_intror Hi)) Hrun)
          as [evs new H1 H2 H3 H4 H5 H6 H7].
        apply (@mkExtends _ _ _ _ evs new); auto.
        intros e i He Hi. right. eapply H5; eassumption. }
    destruct (findNode_some _ _ Hf) as [Hid _].
    rewrite (runOrder_step _ _ _ Hs Hf) in Hrun. cbv zeta in Hrun.
    pose proof (succeededIds_nodeEvents ctx env node (executionData st)) as Hsucc.
    pose proof (@nodeEvents_about ctx env node (executionData st)) as Habout.
    pose proof (nodeEvents_status ctx env node (executionData st)) as Hstatus.
    destruct (success (nodeResult ctx env node (executionData st))) eqn:Hok.
    + rewrite set_fresh in Hrun by (apply Hfresh; left; reflexivity).
      match type of Hrun with runOrder _ _ _ ?s = _ => set (st1 := s) in * end.
      assert (forall i, In i rest -> ~ In i (JsMap.keys (executionData st1))) as Hfresh1.
      { intros i Hi. unfold st1, JsMap.keys. simpl. rewrite map_app, in_app_iff. simpl.
        intros [H|[H|[]]].
        - exact (Hfresh i (or_intror Hi) H).
        - subst i. contradiction. }
      destruct (IH Hnd' _ _ _ Hfresh1 Hrun) as [evs new H1 H2 H3 H4 H5 H6 H7].
      apply (@mkExtends _ _ _ _
               (nodeEvents ctx env node (executionData st) ++ evs)
               ((nodeId, resultData (nodeResult ctx env node (executionData st))) :: new)).
      * rewrite H1. unfold st1. cbn [trace]. rewrite app_assoc. reflexivity.
      * rewrite H2. unfold st1. cbn [executionData]. rewrite <- app_assoc. reflexivity.
      * cbn [map fst]. rewrite succeededIds_app, Hsucc, Hid, H3. reflexivity.
      * cbn [map fst]. constructor; [|exact H4].
        intros Hin. rewrite H3 in Hin. apply in_succeededIds in Hin.
        apply Hnotin. eapply H5; [exact Hin | reflexivity].
      * intros e i He Hi. apply in_app_or in He. destruct He as [He|He].
        -- destruct (Habout _ He) as [Hn|Hn]; rewrite Hn in Hi; [discriminate|].
           injection Hi as <-. left. symmetry. exact Hid.
        -- right. eapply H5; eassumption.
      * intros i Hi. apply in_app_or in Hi. cbn [map fst In]. destruct Hi as [Hi|Hi].
        -- apply Hstatus in Hi. destruct Hi as [_ [Hi|[[Hi _]|[_ Hi]]]]; discriminate.
        -- intros [Heq|Hin]; [|exact (H6 _ Hi Hin)].
           subst i. apply Hnotin. eapply H5; [exact Hi | reflexivity].
      * intros Hr i Hi. apply in_or_app. apply in_app_or in Hi. destruct Hi as [Hi|Hi].
        -- left. apply Hstatus in Hi. apply Hstatus. destruct Hi as [-> _]. tauto.
        -- right. exact (H7 Hr i Hi).
    + assert (r <> Returned None
              /\ trace st' = trace st ++ nodeEvents ctx env node (executionData st)
              /\ executionData st' = executionData st) as (Hr & Htrace & Hdata)
        by (destruct (nodeThrows ctx env node (executionData st));
            injection Hrun as <- <-; repeat split; discriminate).
      apply (@mkExtends _ _ _ _ (nodeEvents ctx env node (executionData st)) []);
        cbn [map fst In].
      * exact Htrace.
      * rewrite app_nil_r. exact Hdata.
      * rewrite Hsucc. reflexivity.
      * constructor.
      * intros e i He Hi. destruct (Habout _ He) as [Hn|Hn]; rewrite Hn in Hi; [discriminate|].
        injection Hi as <-. left. symmetry. exact Hid.
      * tauto.
      * intros Hnone. contradiction.
Qed.

End Run.

(** The [catch] block of [execute] on an [Error] object. *)
Lemma readMessage_error env e st :
  readMessage env (errorObject e) st = (Returned (JStr (errorMessage e)), st).
Proof. reflexivity. Qed.

Lemma jsOr_string s fallback :
  jsOr (JStr s) (JStr fallback) = JStr (orElse s fallback).
Proof. unfold jsOr, orElse. simpl. destruct (String.eqb s EmptyString); reflexivity. Qed.

Lemma execute_unfold ctx env st0 order :
  buildExecutionOrder (nodes ctx) (edges ctx) = Returned order ->
  order <> [] ->
  execute ctx env st0
  = match runOrder ctx env order (mkState [] false (trace st0)) with
    | (Returned (Some result), st) => (Returned result, st)
    | (Returned None, st) =>
        (Returned (mkResult true "Workflow executed successfully"
                     (successData env (executionData st))), st)
    | (Thrown e, st) =>
        match readMessage env e st with
        | (Returned errorText, st') =>
            (Returned (mkResult false
                         (jsOr errorText (JStr "Unknown error during workflow execution"))
                         JUndefined), st')
        | (Thrown e', st') => (Thrown e', st')
        end
    end.
Proof.
  intros Hb Hne. unfold execute, tryCatch, bind, liftExc, complete. rewrite Hb.
  destruct order as [|x order]; [contradiction|]. cbn [List.length Nat.eqb].
  destruct (runOrder ctx env (x :: order) _) as [[[r|]|e] st]; reflexivity.
Qed.

(** [execute] always resolves with a result: whatever reaches its
    [catch] block is an [Error] object, whose [message] can be read. *)
Lemma execute_total ctx env st0 :
  exists r st, execute ctx env st0 = (Returned r, st).
Proof.
  destruct (buildExecutionOrder (nodes ctx) (edges ctx)) as [order|e] eqn:Hb.
  - destruct order as [|x order].
    + unfold execute, tryCatch, bind, liftExc, complete. rewrite Hb. simpl. eauto.
    + rewrite (@execute_unfold ctx env st0 _ Hb) by discriminate.
      destruct (runOrder ctx env (x :: order) _) as [[[r|]|e] st] eqn:Hrun; eauto.
      destruct (@runOrder_throws ctx env _ _ _ _ Hrun) as (v & ->).
      rewrite readMessage_error. eauto.
  - unfold execute, tryCatch, bind, liftExc, complete. rewrite Hb.
    rewrite readMessage_error. simpl. unfold ret. eauto.
Qed.

Lemma NoDup_app_disjoint (l1 l2 : list string) x :
  NoDup (l1 ++ l2) -> In x l1 -> ~ In x l2.
Proof.
  induction l1 as [|a l1 IH]; simpl; [tauto|].
  intros Hnd [->|Hin] Hx; inversion Hnd as [|? ? Hnotin Hnd']; subst.
  - apply Hnotin. apply in_or_app. tauto.
  - exact (IH Hnd' Hin Hx).
Qed.

Lemma NoDup_split_later (pre post : list string) x later :
  NoDup (pre ++ x :: post) -> In later post -> ~ In later pre /\ later <> x.
Proof.
  intros Hnd Hin. split.
  - intros Hpre. apply (@NoDup_app_disjoint _ _ _ Hnd Hpre). right. exact Hin.
  - intros ->. apply NoDup_remove_2 in Hnd. apply Hnd. apply in_or_app. tauto.
Qed.

Lemma initial_fresh (order : list string) :
  forall i, In i order -> ~ In i (JsMap.keys (executionData initialState)).
Proof. intros i _ []. Qed.

(** The state in which the loop reaches the step after the prefix [pre]. *)
Lemma prefix_extends ctx env pre post r st :
  NoDup (pre ++ post) ->
  runOrder ctx env pre initialState = (r, st) ->
  Extends pre r initialState st.
Proof.
  intros Hnd Hrun. apply NoDup_app_remove_r in Hnd.
  eapply runOrder_extends; [exact Hnd | apply initial_fresh | exact Hrun].
Qed.

(** ** Fail-fast: the first failing step ends the run *)

Lemma failing_step_ends_run ctx env order pre nodeId post node st1 :
  buildExecutionOrder (nodes ctx) (edges ctx) = Returned order ->
  order = pre ++ nodeId :: post ->
  runOrder ctx env pre initialState = (Returned None, st1) ->
  stopped st1 = false ->
  findNode (nodes ctx) nodeId = Some node ->
  success (nodeResult ctx env node (executionData st1)) = false ->
  exists st,
    execute ctx env initialState
    = (Returned
         match nodeThrows ctx env node (executionData st1) with
         | Some e =>
             mkResult false
               (jsOr (getField e "message") (JStr "Unknown error during workflow execution"))
               JUndefined
         | None =>
             failure (failedAtMessage (label (data node))
                        (jsString (message (nodeResult ctx env node (executionData st1)))))
         end, st)
    /\ trace st = trace st1 ++ nodeEvents ctx env node (executionData st1)
    /\ executionData st = executionData st1
    /\ In (NodeStatus nodeId Error) (trace st)
    /\ forall later e, In later post -> In e (trace st) -> eventNode e <> Some later.
Proof.
  intros Hb -> Hpre Hs Hf Hfail.
  pose proof (@buildExecutionOrder_NoDup _ _ _ Hb) as Hnd.
  destruct (@findNode_some _ _ _ Hf) as [Hid _].
  rewrite (@execute_unfold ctx env initialState _ Hb) by (destruct pre; discriminate).
  change (mkState [] false (trace initialState)) with initialState.
  rewrite runOrder_app, Hpre, (@runOrder_step ctx env nodeId post st1 node Hs Hf). cbv zeta.
  rewrite Hfail.
  assert (forall st,
            trace st = trace st1 ++ nodeEvents ctx env node (executionData st1) ->
            In (NodeStatus nodeId Error) (trace st)
            /\ forall later e, In later post -> In e (trace st) -> eventNode e <> Some later)
    as Hevents.
  { intros st Htrace. rewrite Htrace. split.
    - apply in_or_app. right. apply nodeEvents_status. rewrite Hid, Hfail. tauto.
    - intros later e Hlater He Hev.
      destruct (@NoDup_split_later _ _ _ _ Hnd Hlater) as [Hnotpre Hne].
      destruct (@prefix_extends ctx env pre _ _ _ Hnd Hpre) as [evs new H1 _ _ _ H5 _ _].
      rewrite H1 in He. simpl in He. apply in_app_or in He. destruct He as [He|He].
      + apply Hnotpre. exact (H5 _ _ He Hev).
      + destruct (@nodeEvents_about _ _ _ _ _ He) as [Hn|Hn]; rewrite Hn in Hev;
          [discriminate|]. injection Hev as <-. apply Hne. exact Hid. }
  destruct (nodeThrows ctx env node (executionData st1)) as [e|] eqn:Hthrow.
  - destruct (nodeThrows_error _ _ _ _ Hthrow) as (v & ->).
    rewrite readMessage_error. eexists. split; [reflexivity|].
    split; [reflexivity|]. split; [reflexivity|]. apply Hevents. reflexivity.
  - eexists. split; [reflexivity|].
    split; [reflexivity|]. split; [reflexivity|]. apply Hevents. reflexivity.
Qed.



(** C4. When the steps before [nodeId] in the execution order all
    succeeded and the handler of [nodeId] returns a failure [r], [execute]
    returns [success: false] whose message is the text [Failed at node ],
    the label of the step between double quotes (character 34), a colon, a
    space and the message of [r] as the template literal renders it; for a
    message that is the string [msg] that is
    [Failed at node "<label>": <msg>]. The step is marked [Error], and the
    trace holds no event at all (no status, no handler call) for any step
    later in the order. *)
Theorem first_failure_ends_run ctx env order pre nodeId post node st1 run r :
  buildExecutionOrder (nodes ctx) (edges ctx) = Returned order ->
  order = pre ++ nodeId :: post ->
  runOrder ctx env pre initialState = (Returned None, st1) ->
  stopped st1 = false ->
  findNode (nodes ctx) nodeId = Some node ->
  handlerRunOf ctx env node (executionData st1) = Some run ->
  outcome run = Returned r ->
  success r = false ->
  exists st,
    execute ctx env initialState
    = (Returned
         (mkResult false
            (JStr (String.append "Failed at node "
                     (String "034"
                        (String.append (label (data node))
                           (String "034"
                              (String.append ": " (jsString (message r))))))))
            JUndefined), st)
    /\ (forall msg,
          message r = JStr msg ->
          execute ctx env initialState
          = (Returned
               (mkResult false
                  (JStr (String.append "Failed at node "
                           (String "034"
                              (String.append (label (data node))
                                 (String "034" (String.append ": " msg))))))
                  JUndefined), st))
    /\ In (NodeStatus nodeId Error) (trace st)
    /\ forall later e, In later post -> In e (trace st) -> eventNode e <> Some later.
Proof.
  intros Hb Ho Hpre Hs Hf Hrun Hout Hfail.
  assert (nodeResult ctx env node (executionData st1) = r) as Hres
      by (unfold nodeResult; rewrite Hrun, Hout; reflexivity).
  assert (nodeThrows ctx env node (executionData st1) = None) as Hthrow
      by (unfold nodeThrows, handlerThrows; rewrite Hrun, Hout; reflexivity).
  destruct (@failing_step_ends_run ctx env order pre nodeId post node st1 Hb Ho Hpre Hs Hf)
    as (st & Hex & _ & _ & Herr & Hlater); [rewrite Hres; exact Hfail|].
  rewrite Hthrow, Hres in Hex.
  exists st. split; [exact Hex|]. split; [|split; assumption].
  intros msg Hmsg. rewrite Hex, Hmsg. reflexivity.
Qed.


(** ** Cooperative cancellation *)

(** C5. The flag is read at the head of every loop iteration: with the
    flag set, the loop returns the stop result at once and leaves the state
    as it is. Suppose [stop()] is called while step [k] is in flight
    ([stopDuring env k]), the steps before [k] all succeeded without a stop
    request, and [k]'s handler succeeds. Then [k] still runs to completion
    (it reaches [Success] and its output is recorded), the flag is seen at
    the boundary before the next id of the order, [execute] returns
    [success: false] with the message
    ['Workflow execution stopped by user'], nothing is reported for any
    later step, and every step that was started has reached [Success]. *)
Theorem stop_between_steps ctx env order pre k next post node stK :
  buildExecutionOrder (nodes ctx) (edges ctx) = Returned order ->
  order = pre ++ k :: next :: post ->
  runOrder ctx env pre initialState = (Returned None, stK) ->
  stopped stK = false ->
  findNode (nodes ctx) k = Some node ->
  success (nodeResult ctx env node (executionData stK)) = true ->
  stopDuring env k = true ->
  (forall st' nextId rest,
     stopped st' = true ->
     runOrder ctx env (nextId :: rest) st'
     = (Returned (Some (mkResult false (JStr "Workflow execution stopped by user")
                          JUndefined)), st'))
  /\ exists st,
    execute ctx env initialState
    = (Returned (mkResult false (JStr "Workflow execution stopped by user") JUndefined), st)
    /\ trace st = trace stK ++ nodeEvents ctx env node (executionData stK)
    /\ executionData st
       = executionData stK ++ [(k, resultData (nodeResult ctx env node (executionData stK)))]
    /\ In (NodeStatus k Success) (trace st)
    /\ (forall later e,
          In later (next :: post) -> In e (trace st) -> eventNode e <> Some later)
    /\ (forall i, In (NodeStatus i Running) (trace st) -> In (NodeStatus i Success) (trace st)).
Proof.
  intros Hb -> Hpre Hs Hf Hok Hstop.
  split; [intros st' nextId rest Hst; apply runOrder_stopped; exact Hst|].
  pose proof (@buildExecutionOrder_NoDup _ _ _ Hb) as Hnd.
  destruct (@findNode_some _ _ _ Hf) as [Hid _].
  destruct (@prefix_extends ctx env pre _ _ _ Hnd Hpre) as [evs new H1 H2 H3 H4 H5 H6 H7].
  simpl in H1, H2.
  assert (~ In k (JsMap.keys (executionData stK))) as Hfresh.
  { rewrite H2. unfold JsMap.keys. rewrite H3. intros Hin. apply in_succeededIds in Hin.
    apply NoDup_remove_2 in Hnd. apply Hnd. apply in_or_app. left.
    exact (H5 _ _ Hin eq_refl). }
  rewrite (@execute_unfold ctx env initialState _ Hb) by (destruct pre; discriminate).
  change (mkState [] false (trace initialState)) with initialState.
  rewrite runOrder_app, Hpre, (@runOrder_step ctx env k (next :: post) stK node Hs Hf).
  cbv zeta. rewrite Hok, Hstop, runOrder_stopped by reflexivity.
  rewrite set_fresh by exact Hfresh.
  eexists. split; [reflexivity|]. cbn [trace executionData].
  pose proof (nodeEvents_status ctx env node (executionData stK)) as Hstatus.
  repeat split.
  - apply in_or_app. right. apply Hstatus. rewrite Hid, Hok. tauto.
  - intros later e Hlater He Hev.
    destruct (@NoDup_split_later _ _ _ _ Hnd Hlater) as [Hnotpre Hne].
    rewrite H1 in He. apply in_app_or in He. destruct He as [He|He].
    + apply Hnotpre. exact (H5 _ _ He Hev).
    + destruct (@nodeEvents_about _ _ _ _ _ He) as [Hn|Hn]; rewrite Hn in Hev;
        [discriminate|]. injection Hev as <-. apply Hne. exact Hid.
  - intros i Hi. apply in_or_app. apply in_app_or in Hi. destruct Hi as [Hi|Hi].
    + left. rewrite H1 in *. exact (H7 eq_refl i Hi).
    + right. apply Hstatus in Hi. apply Hstatus. destruct Hi as [-> _].
      rewrite Hok. tauto.
Qed.

(** ** The execution context *)

(** C6. At every boundary of the loop, and in the state the run ends
    in, the keys of [executionData] are exactly the ids that reached
    [Success], in execution order and without repetition; an id that reached
    [Error] is not a key; a step that starts adds its entry at the end when
    it succeeds and leaves the map unchanged when it fails, also when the
    loop ends with a thrown value, which it does only when the handler of
    the step threw [null] or [undefined]; and whatever the loop does later
    only appends entries. *)
Theorem execution_data_tracks_success ctx env order pre post r st :
  buildExecutionOrder (nodes ctx) (edges ctx) = Returned order ->
  order = pre ++ post ->
  runOrder ctx env pre initialState = (Returned r, st) ->
  JsMap.keys (executionData st) = succeededIds (trace st)
  /\ NoDup (JsMap.keys (executionData st))
  /\ (forall i, In (NodeStatus i Error) (trace st) ->
        ~ In i (JsMap.keys (executionData st)))
  /\ (forall k post' node,
        r = None -> stopped st = false -> post = k :: post' ->
        findNode (nodes ctx) k = Some node ->
        exists r' st',
          runOrder ctx env (pre ++ [k]) initialState = (r', st')
          /\ executionData st'
             = (if success (nodeResult ctx env node (executionData st))
                then executionData st
                     ++ [(k, resultData (nodeResult ctx env node (executionData st)))]
                else executionData st)
          /\ ((forall run,
                 handlerRunOf ctx env node (executionData st) = Some run ->
                 outcome run <> Thrown JUndefined /\ outcome run <> Thrown JNull) ->
              exists result, r' = Returned result))
  /\ (forall more post' r' st',
        r = None -> post = more ++ post' ->
        runOrder ctx env (pre ++ more) initialState = (r', st') ->
        exists newEntries, executionData st' = executionData st ++ newEntries)
  /\ (forall result final,
        execute ctx env initialState = (Returned result, final) ->
        JsMap.keys (executionData final) = succeededIds (trace final)).
Proof.
  intros Hb -> Hpre.
  pose proof (@buildExecutionOrder_NoDup _ _ _ Hb) as Hnd.
  assert (forall result final,
            execute ctx env initialState = (Returned result, final) ->
            JsMap.keys (executionData final) = succeededIds (trace final)) as Hfinal.
  { intros result final Hex.
    destruct (pre ++ post) as [|x order] eqn:Eorder.
    - unfold execute, tryCatch, bind, liftExc, complete in Hex. rewrite Hb in Hex.
      simpl in Hex. injection Hex as _ <-. reflexivity.
    - rewrite (@execute_unfold ctx env initialState _ Hb) in Hex by discriminate.
      change (mkState [] false (trace initialState)) with initialState in Hex.
      destruct (runOrder ctx env (x :: order) initialState) as [r0 st0] eqn:Hrun.
      destruct (@runOrder_extends ctx env (x :: order) Hnd _ _ _
                  (initial_fresh (x :: order)) Hrun) as [evs new H1 H2 H3 _ _ _ _].
      simpl in H1, H2.
      assert (final = st0) as ->.
      { destruct r0 as [[r0|]|e]; try (injection Hex as _ <-; reflexivity).
        destruct (@runOrder_throws ctx env _ _ _ _ Hrun) as (v & ->).
        rewrite readMessage_error in Hex. injection Hex as _ <-. reflexivity. }
      rewrite H1, H2. exact H3. }
  destruct (@prefix_extends ctx env pre _ _ _ Hnd Hpre) as [evs new H1 H2 H3 H4 H5 H6 H7].
  simpl in H1, H2.
  assert (forall i, In i post -> ~ In i (JsMap.keys (executionData st))) as Hfresh.
  { intros i Hi. rewrite H2. unfold JsMap.keys. rewrite H3. intros Hin.
    apply in_succeededIds in Hin.
    exact (@NoDup_app_disjoint _ _ _ Hnd (H5 _ _ Hin eq_refl) Hi). }
  split; [|split; [|split; [|split; [|split; [|exact Hfinal]]]]].
  - rewrite H1, H2. exact H3.
  - rewrite H2. exact H4.
  - intros i Hi. rewrite H1 in Hi. rewrite H2. exact (H6 i Hi).
  - intros k post' node -> Hs -> Hf.
    rewrite runOrder_app, Hpre, (@runOrder_step ctx env k [] st node Hs Hf). cbv zeta.
    destruct (success (nodeResult ctx env node (executionData st))).
    + simpl. do 2 eexists. split; [reflexivity|]. cbn [executionData].
      split; [|eauto]. apply set_fresh. apply Hfresh. left. reflexivity.
    + destruct (nodeThrows ctx env node (executionData st)) as [e|] eqn:Hthrow;
        do 2 eexists; (split; [reflexivity|]); (split; [reflexivity|]); [|eauto].
      intros Hhandler. exfalso.
      destruct (nodeThrows_null _ _ _ _ Hthrow) as (v & Hv & Hthrown & _).
      unfold handlerThrows in Hthrown.
      destruct (handlerRunOf ctx env node (executionData st)) as [run|]; [|discriminate].
      destruct (Hhandler run eq_refl) as [Hu Hn].
      destruct (outcome run) as [r0|v0]; [discriminate|]. injection Hthrown as ->.
      destruct Hv as [-> | ->]; [apply Hu | apply Hn]; reflexivity.
  - intros more post' r' st' -> -> Hrun.
    rewrite runOrder_app, Hpre in Hrun.
    rewrite app_assoc in Hnd. apply NoDup_app_remove_r in Hnd.
    assert (NoDup more) as Hnd' by (apply NoDup_app_remove_l in Hnd; exact Hnd).
    assert (forall i, In i more -> ~ In i (JsMap.keys (executionData st))) as Hfresh'
        by (intros i Hi; apply Hfresh; apply in_or_app; tauto).
    destruct (@runOrder_extends ctx env more Hnd' _ _ _ Hfresh' Hrun)
      as [evs' new' _ H2' _ _ _ _ _].
    exists new'. exact H2'.
Qed.

(** ** Empty graphs *)

Lemma addEdge_degrees_positive edges g :
  Forall (fun kv => (1 <= snd kv)%Z) (inDegree g) ->
  Forall (fun kv => (1 <= snd kv)%Z) (inDegree (fold_left addEdge edges g)).
Proof.
  revert g. induction edges as [|e edges IH]; intros g H; simpl; [exact H|].
  apply IH. simpl.
  assert (0 <= orZero (JsMap.get (inDegree g) (target e)))%Z as Hget.
  { destruct (JsMap.get (inDegree g) (target e)) as [z|] eqn:E; [|simpl; lia].
    rewrite orZero_some. apply get_some_in in E.
    rewrite Forall_forall in H. specialize (H _ E). simpl in H. lia. }
  revert Hget. generalize (orZero (JsMap.get (inDegree g) (target e))). intros z Hz.
  induction (inDegree g) as [|[k v] m IHm]; simpl.
  - repeat constructor. simpl. lia.
  - inversion H; subst. destruct (String.eqb k (target e)).
    + constructor; [simpl; lia | assumption].
    + constructor; [assumption | apply IHm; assumption].
Qed.

Lemma initialQueue_positive deg :
  Forall (fun kv => (1 <= snd kv)%Z) deg -> initialQueue deg = [].
Proof.
  unfold initialQueue. induction 1 as [|[k v] deg Hv _ IH]; simpl; [reflexivity|].
  simpl in Hv. destruct (Z.eqb_spec v 0); [lia | exact IH].
Qed.

Lemma buildExecutionOrder_no_nodes edges :
  buildExecutionOrder [] edges = Returned [].
Proof.
  unfold buildExecutionOrder, buildGraph. simpl fold_left at 2.
  rewrite initialQueue_positive by (apply addEdge_degrees_positive; constructor).
  simp kahnLoop. reflexivity.
Qed.

(** C9. For a graph with zero steps, whatever its connections,
    [execute] returns [success: false] with the "No nodes to execute"
    message, and the trace is unchanged: no status callback is issued and no
    handler is entered. *)
Theorem empty_graph_rejected connections hasCallback env st0 :
  execute (mkContext [] connections hasCallback) env st0
  = (Returned (failure noNodesMessage), mkState [] false (trace st0))
  /\ success (failure noNodesMessage) = false.
Proof.
  split; [|reflexivity].
  unfold execute, tryCatch, bind, liftExc. cbn [nodes edges].
  rewrite buildExecutionOrder_no_nodes. reflexivity.
Qed.

(** ** Lookup by kind *)

Lemma findPreviousData_cons nodes nodeId d rest K :
  findPreviousData nodes ((nodeId, d) :: rest) K
  = if match kindOf nodes nodeId with
       | Some kind => String.eqb kind K
       | None => false
       end
    then Some d
    else findPreviousData nodes rest K.
Proof.
  unfold kindOf. simpl. destruct (findNode nodes nodeId); reflexivity.
Qed.

Lemma kindOf_test nodes nodeId K :
  match kindOf nodes nodeId with
  | Some kind => String.eqb kind K
  | None => false
  end = true <-> kindOf nodes nodeId = Some K.
Proof.
  destruct (kindOf nodes nodeId) as [kind|]; [|split; discriminate].
  destruct (String.eqb_spec kind K) as [->|Hne]; split; try tauto; try discriminate.
  intros [= ->]. contradiction.
Qed.

Lemma findPreviousData_none nodes d K :
  findPreviousData nodes d K = None <->
  forall entry, In entry d -> kindOf nodes (fst entry) <> Some K.
Proof.
  induction d as [|[nodeId v] rest IH]; [simpl; tauto|].
  rewrite findPreviousData_cons.
  pose proof (kindOf_test nodes nodeId K) as Ht.
  destruct (match kindOf nodes nodeId with Some kind => String.eqb kind K | None => false end).
  - split; [discriminate|]. intros H. exfalso.
    apply (H (nodeId, v)); [left; reflexivity | apply Ht; reflexivity].
  - rewrite IH. split.
    + intros H entry [<-|Hin]; [|exact (H _ Hin)].
      simpl. intros Hk. apply Ht in Hk. discriminate.
    + intros H entry Hin. apply H. right. exact Hin.
Qed.

Lemma findPreviousData_some nodes d K v :
  findPreviousData nodes d K = Some v ->
  exists before nodeId after,
    d = before ++ (nodeId, v) :: after
    /\ kindOf nodes nodeId = Some K
    /\ forall entry, In entry before -> kindOf nodes (fst entry) <> Some K.
Proof.
  induction d as [|[nodeId w] rest IH]; [discriminate|].
  rewrite findPreviousData_cons.
  pose proof (kindOf_test nodes nodeId K) as Ht.
  destruct (match kindOf nodes nodeId with Some kind => String.eqb kind K | None => false end).
  - intros [= ->]. exists [], nodeId, rest. simpl. repeat split; [apply Ht; reflexivity | tauto].
  - intros H. destruct (IH H) as (before & i & after & -> & Hk & Hbefore).
    exists ((nodeId, w) :: before), i, after. repeat split; [exact Hk|].
    intros entry [<-|Hin]; [|exact (Hbefore _ Hin)].
    simpl. intros Hk'. apply Ht in Hk'. discriminate.
Qed.

Lemma findPreviousData_app nodes d1 d2 K :
  findPreviousData nodes d1 K = None ->
  findPreviousData nodes (d1 ++ d2) K = findPreviousData nodes d2 K.
Proof.
  induction d1 as [|[nodeId w] rest IH]; [reflexivity|].
  rewrite <- app_comm_cons, !findPreviousData_cons.
  destruct (match kindOf nodes nodeId with Some kind => String.eqb kind K | None => false end);
    [discriminate | exact IH].
Qed.

(** C7, as amended. [findPreviousData (K)] returns the data of the
    first entry of the execution data, in insertion order, whose step has
    kind [K], and [null] exactly when no entry has kind [K]. In a run: if
    step [S] of kind [K] succeeds, no step of kind [K] was recorded before
    it, and the run then reaches a later step [T], a lookup of kind [K] on
    the execution data that [T]'s handler receives returns [S]'s output. *)
Theorem lookup_returns_first_of_kind ctx env K :
  (forall d,
     findPreviousData (nodes ctx) d K = None <->
     forall entry, In entry d -> kindOf (nodes ctx) (fst entry) <> Some K)
  /\ (forall d v,
        findPreviousData (nodes ctx) d K = Some v ->
        exists before nodeId after,
          d = before ++ (nodeId, v) :: after
          /\ kindOf (nodes ctx) nodeId = Some K
          /\ forall entry, In entry before -> kindOf (nodes ctx) (fst entry) <> Some K)
  /\ (forall order pre S between T post nodeS stS stT,
        buildExecutionOrder (nodes ctx) (edges ctx) = Returned order ->
        order = pre ++ S :: between ++ T :: post ->
        runOrder ctx env pre initialState = (Returned None, stS) ->
        stopped stS = false ->
        findNode (nodes ctx) S = Some nodeS ->
        type (data nodeS) = K ->
        success (nodeResult ctx env nodeS (executionData stS)) = true ->
        findPreviousData (nodes ctx) (executionData stS) K = None ->
        runOrder ctx env (pre ++ S :: between) initialState = (Returned None, stT) ->
        findPreviousData (nodes ctx) (executionData stT) K
        = Some (resultData (nodeResult ctx env nodeS (executionData stS)))).
Proof.
  split; [intros d; apply findPreviousData_none|].
  split; [intros d v; apply findPreviousData_some|].
  intros order pre S between T post nodeS stS stT Hb -> Hpre Hs Hf Hkind Hok Hnone HrunT.
  pose proof (@buildExecutionOrder_NoDup _ _ _ Hb) as Hnd.
  destruct (@prefix_extends ctx env pre _ _ _ Hnd Hpre) as [evs new H1 H2 H3 H4 H5 H6 H7].
  simpl in H1, H2.
  assert (forall i, In i (S :: between) -> ~ In i (JsMap.keys (executionData stS))) as Hfresh.
  { intros i Hi. rewrite H2. unfold JsMap.keys. rewrite H3. intros Hin.
    apply in_succeededIds in Hin.
    apply (@NoDup_app_disjoint _ _ _ Hnd (H5 _ _ Hin eq_refl)).
    destruct Hi as [->|Hi]; [left; reflexivity|].
    right. apply in_or_app. left. exact Hi. }
  rewrite runOrder_app, Hpre, (@runOrder_step ctx env S between stS nodeS Hs Hf) in HrunT.
  cbv zeta in HrunT. rewrite Hok in HrunT.
  rewrite set_fresh in HrunT by (apply Hfresh; left; reflexivity).
  apply NoDup_app_remove_l in Hnd. apply NoDup_cons_iff in Hnd.
  destruct Hnd as [HSnotin Hnd']. apply NoDup_app_remove_r in Hnd'.
  match type of HrunT with runOrder _ _ _ ?s = _ => set (st1 := s) in * end.
  assert (forall i, In i between -> ~ In i (JsMap.keys (executionData st1))) as Hfresh1.
  { intros i Hi. unfold st1, JsMap.keys. cbn [executionData].
    rewrite map_app, in_app_iff. simpl. intros [H|[H|[]]].
    - exact (Hfresh i (or_intror Hi) H).
    - subst i. apply HSnotin. apply in_or_app. left. exact Hi. }
  destruct (@runOrder_extends ctx env between Hnd' _ _ _ Hfresh1 HrunT)
    as [evs' new' _ H2' _ _ _ _ _].
  rewrite H2'. unfold st1. cbn [executionData]. rewrite <- app_assoc.
  rewrite findPreviousData_app by exact Hnone.
  simpl. rewrite Hf, Hkind, String.eqb_refl. reflexivity.
Qed.

(** ** Concrete runs *)

(** ** What [buildGraph] builds *)

Lemma memb_In x l : memb x l = true <-> In x l.
Proof.
  unfold memb. rewrite existsb_exists. split.
  - intros (y & Hy & Heq). apply String.eqb_eq in Heq. subst. exact Hy.
  - intros H. exists x. split; [exact H | apply String.eqb_refl].
Qed.

Lemma memb_false x l : memb x l = false <-> ~ In x l.
Proof.
  rewrite <- memb_In. destruct (memb x l); split; try tauto; try discriminate;
    intros H; try reflexivity; exfalso; apply H; reflexivity.
Qed.

Lemma initNode_degree nodes g k :
  JsMap.get (inDegree (fold_left initNode nodes g)) k
  = if memb k (stepIds nodes) then Some 0%Z else JsMap.get (inDegree g) k.
Proof.
  revert g. induction nodes as [|n nodes IH]; intros g; [reflexivity|].
  simpl fold_left. rewrite IH. unfold memb. simpl.
  destruct (existsb (String.eqb k) (stepIds nodes)) eqn:E.
  - rewrite orb_true_r. reflexivity.
  - rewrite orb_false_r. destruct (String.eqb_spec k (id n)) as [->|Hne].
    + apply get_set_same.
    + apply get_set_other. exact Hne.
Qed.

Lemma initNode_adjacency nodes g k :
  JsMap.get (adjacencyList (fold_left initNode nodes g)) k
  = if memb k (stepIds nodes) then Some [] else JsMap.get (adjacencyList g) k.
Proof.
  revert g. induction nodes as [|n nodes IH]; intros g; [reflexivity|].
  simpl fold_left. rewrite IH. unfold memb. simpl.
  destruct (existsb (String.eqb k) (stepIds nodes)) eqn:E.
  - rewrite orb_true_r. reflexivity.
  - rewrite orb_false_r. destruct (String.eqb_spec k (id n)) as [->|Hne].
    + apply get_set_same.
    + apply get_set_other. exact Hne.
Qed.

Lemma initNode_keys nodes g k :
  In k (JsMap.keys (inDegree (fold_left initNode nodes g)))
  <-> In k (stepIds nodes) \/ In k (JsMap.keys (inDegree g)).
Proof.
  revert g. induction nodes as [|n nodes IH]; intros g; [simpl; tauto|].
  simpl fold_left. rewrite IH. simpl. rewrite in_keys_set. intuition congruence.
Qed.

Lemma addEdge_degree edges g k :
  orZero (JsMap.get (inDegree (fold_left addEdge edges g)) k)
  = (orZero (JsMap.get (inDegree g) k) + Z.of_nat (indegree edges k))%Z.
Proof.
  revert g. induction edges as [|e edges IH]; intros g; [simpl; lia|].
  simpl fold_left. rewrite IH. unfold indegree. simpl.
  destruct (String.eqb_spec (target e) k) as [->|Hne].
  - rewrite get_set_same, orZero_some. simpl List.length. lia.
  - rewrite get_set_other by congruence. lia.
Qed.

Lemma addEdge_keys edges g k :
  In k (JsMap.keys (inDegree (fold_left addEdge edges g)))
  <-> In k (JsMap.keys (inDegree g)) \/ exists e, In e edges /\ target e = k.
Proof.
  revert g. induction edges as [|e edges IH]; intros g.
  - simpl. split; [tauto | intros [H|(e & [] & _)]; exact H].
  - simpl fold_left. rewrite IH. simpl. rewrite in_keys_set. split.
    + intros [[->|H]|(e' & He' & Ht)]; eauto.
    + intros [H|(e' & [<-|He'] & Ht)]; eauto.
Qed.

Lemma addEdge_adjacency edges g k :
  JsMap.get (adjacencyList (fold_left addEdge edges g)) k
  = option_map (fun l => l ++ targetsFrom edges k) (JsMap.get (adjacencyList g) k).
Proof.
  revert g. induction edges as [|e edges IH]; intros g.
  - simpl. unfold targetsFrom. simpl.
    destruct (JsMap.get (adjacencyList g) k); simpl; [rewrite app_nil_r|]; reflexivity.
  - simpl fold_left. rewrite IH. unfold targetsFrom. simpl.
    destruct (JsMap.get (adjacencyList g) (source e)) as [l|] eqn:E.
    + destruct (String.eqb_spec (source e) k) as [<-|Hne].
      * rewrite get_set_same, E. simpl. rewrite <- app_assoc. reflexivity.
      * rewrite get_set_other by congruence. reflexivity.
    + destruct (String.eqb_spec (source e) k) as [<-|Hne]; [rewrite E|]; reflexivity.
Qed.

Lemma buildGraph_degree nodes edges k :
  orZero (JsMap.get (inDegree (buildGraph nodes edges)) k) = Z.of_nat (indegree edges k).
Proof.
  unfold buildGraph. rewrite addEdge_degree, initNode_degree.
  destruct (memb k (stepIds nodes)); simpl; lia.
Qed.

Lemma buildGraph_adjacency nodes edges k :
  JsMap.get (adjacencyList (buildGraph nodes edges)) k
  = if memb k (stepIds nodes) then Some (targetsFrom edges k) else None.
Proof.
  unfold buildGraph. rewrite addEdge_adjacency, initNode_adjacency.
  destruct (memb k (stepIds nodes)); reflexivity.
Qed.

Lemma buildGraph_keys nodes edges k :
  In k (JsMap.keys (inDegree (buildGraph nodes edges)))
  <-> In k (stepIds nodes) \/ exists e, In e edges /\ target e = k.
Proof.
  unfold buildGraph. rewrite addEdge_keys, initNode_keys. simpl. tauto.
Qed.

Lemma indegree_zero edges k :
  indegree edges k = 0 <-> forall e, In e edges -> target e <> k.
Proof.
  unfold indegree. induction edges as [|e edges IH]; simpl; [tauto|].
  destruct (String.eqb_spec (target e) k) as [Heq|Hne]; simpl.
  - split; [discriminate|]. intros H. exfalso. exact (H e (or_introl eq_refl) Heq).
  - rewrite IH. split.
    + intros H e' [<-|He']; [exact Hne | exact (H _ He')].
    + intros H e' He'. apply H. right. exact He'.
Qed.

(** The initial queue: the steps without incoming connection, in the
    order of [nodes]. *)
Lemma initialQueue_buildGraph nodes edges k :
  In k (initialQueue (inDegree (buildGraph nodes edges)))
  <-> In k (stepIds nodes) /\ indegree edges k = 0.
Proof.
  rewrite initialQueue_in.
  pose proof (buildGraph_keys_NoDup nodes edges) as Hnd.
  pose proof (buildGraph_degree nodes edges k) as Hdeg.
  split.
  - intros Hin. rewrite (get_in_NoDup _ _ _ Hnd Hin) in Hdeg. simpl in Hdeg.
    assert (indegree edges k = 0) as Hz by lia. split; [|exact Hz].
    apply (in_map fst) in Hin. apply buildGraph_keys in Hin.
    destruct Hin as [Hin|(e & He & Ht)]; [exact Hin|].
    exfalso. exact (proj1 (indegree_zero edges k) Hz e He Ht).
  - intros [Hin Hz].
    destruct (JsMap.get (inDegree (buildGraph nodes edges)) k) as [z|] eqn:E.
    + rewrite orZero_some, Hz in Hdeg. subst z. apply get_some_in. exact E.
    + exfalso. apply get_none_iff in E. apply E. apply buildGraph_keys. tauto.
Qed.

(** ** Positions in the order *)

Lemma indexOf_le order x : indexOf order x <= List.length order.
Proof.
  induction order as [|y rest IH]; simpl; [lia|].
  destruct (String.eqb y x); lia.
Qed.

Lemma indexOf_In order x : indexOf order x < List.length order <-> In x order.
Proof.
  induction order as [|y rest IH]; simpl; [split; [lia | tauto]|].
  destruct (String.eqb_spec y x) as [->|Hne].
  - split; [tauto | lia].
  - rewrite <- IH. split; [intros H; right; lia | intros [H|H]; [contradiction | lia]].
Qed.

Lemma indexOf_app_in l l' x : In x l -> indexOf (l ++ l') x = indexOf l x.
Proof.
  induction l as [|y rest IH]; simpl; [tauto|].
  destruct (String.eqb_spec y x) as [->|Hne]; [reflexivity|].
  intros [H|H]; [contradiction|]. rewrite (IH H). reflexivity.
Qed.

Lemma indexOf_app_notin l l' x :
  ~ In x l -> indexOf (l ++ l') x = List.length l + indexOf l' x.
Proof.
  induction l as [|y rest IH]; simpl; [reflexivity|].
  destruct (String.eqb_spec y x) as [->|Hne]; [tauto|].
  intros H. rewrite IH by tauto. reflexivity.
Qed.

Lemma memb_snoc x l n : memb x (l ++ [n]) = memb x l || String.eqb x n.
Proof. unfold memb. rewrite existsb_app. simpl. rewrite orb_false_r. reflexivity. Qed.

Lemma pending_nil edges v : pending edges [] v = indegree edges v.
Proof.
  unfold pending, indegree. f_equal. apply filter_ext. intros e. simpl.
  apply andb_true_r.
Qed.

Lemma pending_zero edges done v :
  pending edges done v = 0 <->
  forall e, In e edges -> target e = v -> In (source e) done.
Proof.
  unfold pending. induction edges as [|e es IH]; simpl; [tauto|].
  destruct (String.eqb_spec (target e) v) as [Heq|Hne]; simpl.
  - destruct (memb (source e) done) eqn:Hm; simpl.
    + rewrite IH. apply memb_In in Hm. split.
      * intros H e' [<-|He'] Ht; [exact Hm | exact (H _ He' Ht)].
      * intros H e' He'. apply H. right. exact He'.
    + split; [discriminate|]. intros H. exfalso.
      apply memb_false in Hm. apply Hm. apply (H e); tauto.
  - rewrite IH. split.
    + intros H e' [<-|He'] Ht; [contradiction | exact (H _ He' Ht)].
    + intros H e' He'. apply H. right. exact He'.
Qed.

(** Processing [n] settles exactly the connections out of [n]. *)
Lemma pending_snoc edges done n v :
  ~ In n done ->
  pending edges done v
  = pending edges (done ++ [n]) v + count_occ string_dec (targetsFrom edges n) v.
Proof.
  intros Hn. unfold pending, targetsFrom.
  induction edges as [|e es IH]; simpl; [reflexivity|].
  rewrite memb_snoc.
  destruct (String.eqb_spec (source e) n) as [Hs|Hs]; simpl.
  - rewrite orb_true_r. simpl. rewrite andb_false_r.
    assert (memb (source e) done = false) as -> by (apply memb_false; congruence).
    rewrite andb_true_r.
    destruct (String.eqb_spec (target e) v) as [Ht|Ht];
      destruct (string_dec (target e) v); try contradiction; simpl; rewrite IH; lia.
  - rewrite orb_false_r.
    destruct (String.eqb (target e) v && negb (memb (source e) done)); simpl;
      rewrite IH; lia.
Qed.

(** ** The scheduler on well-formed graphs *)

Section WellFormedGraph.
Variable nodes : list Node.
Variable edges : list Edge.
Hypothesis Hwf : wellFormed nodes edges.

Lemma count_occ_snoc (l : list string) x v :
  count_occ string_dec (l ++ [x]) v
  = count_occ string_dec l v + if string_dec x v then 1 else 0.
Proof.
  rewrite count_occ_app. simpl. destruct (string_dec x v); reflexivity.
Qed.

Lemma relax_invariant before done seen deg queue x :
  RelaxInvariant nodes edges before done seen deg queue ->
  In x (stepIds nodes) ->
  count_occ string_dec (seen ++ [x]) x <= pending edges before x ->
  RelaxInvariant nodes edges before done (seen ++ [x])
    (fst (relax (deg, queue) x)) (snd (relax (deg, queue) x)).
Proof.
  intros (Hnd & Hincl & Hdeg & Hiff) Hx Hbound.
  rewrite count_occ_snoc in Hbound. destruct (string_dec x x) as [_|]; [|contradiction].
  pose proof (Hdeg x Hx) as Hdx.
  unfold relax. cbn [fst snd].
  set (newDegree := (orZero (JsMap.get deg x) - 1)%Z).
  assert (0 <= newDegree)%Z as Hnonneg by (unfold newDegree; lia).
  assert (forall v, In v (stepIds nodes) ->
            orZero (JsMap.get (JsMap.set deg x newDegree) v)
            = (Z.of_nat (pending edges before v)
               - Z.of_nat (count_occ string_dec (seen ++ [x]) v))%Z) as Hdeg'.
  { intros v Hv. rewrite count_occ_snoc. destruct (string_dec x v) as [<-|Hne].
    - rewrite get_set_same, orZero_some. unfold newDegree. lia.
    - rewrite get_set_other by congruence. rewrite (Hdeg v Hv). lia. }
  assert (~ In x (done ++ queue)) as Hfresh.
  { intros Hin. apply (Hiff x Hx) in Hin. lia. }
  destruct (Z.eqb_spec newDegree 0) as [E|E].
  - repeat split.
    + rewrite app_assoc. apply NoDup_app; [exact Hnd | repeat constructor; simpl; tauto |].
      intros y Hy [<-|[]]. contradiction.
    + rewrite app_assoc. apply incl_app; [exact Hincl|]. intros y [<-|[]]. exact Hx.
    + exact Hdeg'.
    + destruct (string_dec x v) as [<-|Hne].
      * intros _. rewrite get_set_same, orZero_some. exact E.
      * rewrite get_set_other by congruence. intros Hin. apply (Hiff v H).
        rewrite app_assoc in Hin. apply in_app_or in Hin.
        destruct Hin as [Hin|[Heq|[]]]; [exact Hin | contradiction].
    + destruct (string_dec x v) as [<-|Hne].
      * intros _. rewrite app_assoc. apply in_or_app. right. left. reflexivity.
      * rewrite get_set_other by congruence. intros Hz.
        rewrite app_assoc. apply in_or_app. left. apply (Hiff v H). exact Hz.
  - repeat split.
    + exact Hnd.
    + exact Hincl.
    + exact Hdeg'.
    + destruct (string_dec x v) as [<-|Hne].
      * intros Hin. contradiction.
      * rewrite get_set_other by congruence. apply (Hiff v H).
    + destruct (string_dec x v) as [<-|Hne].
      * rewrite get_set_same, orZero_some. intros Hz. contradiction.
      * rewrite get_set_other by congruence. apply (Hiff v H).
Qed.

Lemma relax_fold_invariant before done rest :
  forall seen deg queue,
    RelaxInvariant nodes edges before done seen deg queue ->
    incl rest (stepIds nodes) ->
    (forall v, count_occ string_dec (seen ++ rest) v <= pending edges before v) ->
    RelaxInvariant nodes edges before done (seen ++ rest)
      (fst (fold_left relax rest (deg, queue)))
      (snd (fold_left relax rest (deg, queue))).
Proof.
  induction rest as [|x rest IH]; intros seen deg queue HR Hincl Hbound.
  - rewrite app_nil_r. exact HR.
  - simpl fold_left.
    assert (seen ++ x :: rest = (seen ++ [x]) ++ rest) as Heq
        by (rewrite <- app_assoc; reflexivity).
    rewrite Heq in *.
    destruct (relax (deg, queue) x) as [deg' queue'] eqn:E.
    apply IH.
    + pose proof (@relax_invariant before done seen deg queue x HR) as Hstep.
      rewrite E in Hstep. apply Hstep.
      * apply Hincl. left. reflexivity.
      * specialize (Hbound x). rewrite count_occ_app in Hbound. lia.
    + intros y Hy. apply Hincl. right. exact Hy.
    + exact Hbound.
Qed.

Lemma targetsFrom_steps n : incl (targetsFrom edges n) (stepIds nodes).
Proof.
  intros v Hv. unfold targetsFrom in Hv. apply in_map_iff in Hv.
  destruct Hv as (e & <- & He). apply filter_In in He. apply Hwf. tauto.
Qed.

(** One iteration of the [while] loop preserves the invariant. *)
Lemma iteration_invariant deg n queue result :
  KahnInvariant nodes edges deg (n :: queue) result ->
  KahnInvariant nodes edges
    (fst (relaxAll (adjacencyList (buildGraph nodes edges)) n (deg, queue)))
    (snd (relaxAll (adjacencyList (buildGraph nodes edges)) n (deg, queue)))
    (result ++ [n]).
Proof.
  intros (Hnd & Hincl & Hdeg & Hiff & Hord).
  assert (In n (stepIds nodes)) as Hn by (apply Hincl, in_or_app; right; left; reflexivity).
  assert (~ In n result) as Hfresh.
  { intros Hin. apply NoDup_remove_2 in Hnd. apply Hnd, in_or_app. tauto. }
  assert (pending edges result n = 0) as Hzero
      by (apply (Hiff n Hn), in_or_app; right; left; reflexivity).
  unfold relaxAll. rewrite buildGraph_adjacency.
  rewrite (proj2 (memb_In n (stepIds nodes)) Hn).
  assert (RelaxInvariant nodes edges result (result ++ [n]) [] deg queue) as Hstart.
  { repeat split.
    - rewrite <- app_assoc. exact Hnd.
    - rewrite <- app_assoc. exact Hincl.
    - intros v Hv. rewrite (Hdeg v Hv). simpl. lia.
    - rewrite <- app_assoc. simpl. intros Hin. rewrite (Hdeg v H).
      apply (Hiff v H) in Hin. lia.
    - rewrite <- app_assoc. simpl. rewrite (Hdeg v H). intros Hz.
      apply (Hiff v H). lia. }
  pose proof (@relax_fold_invariant result (result ++ [n]) (targetsFrom edges n)
                [] deg queue Hstart (targetsFrom_steps n)) as Hend.
  simpl app in Hend.
  destruct (fold_left relax (targetsFrom edges n) (deg, queue)) as [deg' queue'].
  cbn [fst snd] in *.
  destruct Hend as (Hnd' & Hincl' & Hdeg' & Hiff').
  { intros v. rewrite (pending_snoc edges result n v Hfresh). lia. }
  assert (forall v, In v (stepIds nodes) ->
            orZero (JsMap.get deg' v) = Z.of_nat (pending edges (result ++ [n]) v)) as Hd.
  { intros v Hv. rewrite (Hdeg' v Hv), (pending_snoc edges result n v Hfresh). lia. }
  repeat split.
  - exact Hnd'.
  - exact Hincl'.
  - exact Hd.
  - intros Hin. apply (Hiff' v H) in Hin. rewrite (Hd v H) in Hin. lia.
  - intros Hz. apply (Hiff' v H). rewrite (Hd v H). lia.
  - intros e He Ht. apply in_app_or in Ht. destruct (in_dec string_dec (target e) result) as [Hin|Hnotin].
    + pose proof (Hord e He Hin) as Hlt.
      assert (In (source e) result) as Hs.
      { apply indexOf_In. pose proof (indexOf_le result (target e)). lia. }
      rewrite !indexOf_app_in by assumption. exact Hlt.
    + destruct Ht as [Ht|[Ht|[]]]; [contradiction|].
      assert (In (source e) result) as Hs
          by (apply (proj1 (pending_zero edges result n) Hzero e He); congruence).
      rewrite indexOf_app_in by exact Hs.
      rewrite indexOf_app_notin by exact Hnotin.
      apply indexOf_In in Hs. lia.
Qed.

Lemma initial_invariant :
  KahnInvariant nodes edges (inDegree (buildGraph nodes edges))
    (initialQueue (inDegree (buildGraph nodes edges))) [].
Proof.
  repeat split; simpl.
  - apply initialQueue_NoDup, buildGraph_keys_NoDup.
  - intros v Hv. apply initialQueue_buildGraph in Hv. tauto.
  - intros v _. rewrite pending_nil. apply buildGraph_degree.
  - intros Hin. rewrite pending_nil. apply initialQueue_buildGraph in Hin. tauto.
  - intros Hz. rewrite pending_nil in Hz. apply initialQueue_buildGraph. tauto.
  - intros e _ [].
Qed.

Lemma scheduled_invariant :
  exists deg, KahnInvariant nodes edges deg [] (scheduled nodes edges).
Proof.
  apply (kahnLoop_invariant (adjacencyList (buildGraph nodes edges))
           (KahnInvariant nodes edges)).
  - intros deg n queue result. apply iteration_invariant.
  - exact initial_invariant.
Qed.

Lemma scheduled_NoDup : NoDup (scheduled nodes edges).
Proof.
  destruct scheduled_invariant as (deg & Hnd & _). rewrite app_nil_r in Hnd. exact Hnd.
Qed.

Lemma scheduled_steps : incl (scheduled nodes edges) (stepIds nodes).
Proof.
  destruct scheduled_invariant as (deg & _ & Hincl & _). rewrite app_nil_r in Hincl.
  exact Hincl.
Qed.

(** Connections into a scheduled step come from steps scheduled earlier. *)
Lemma scheduled_respects e :
  In e edges -> In (target e) (scheduled nodes edges) ->
  indexOf (scheduled nodes edges) (source e) < indexOf (scheduled nodes edges) (target e).
Proof.
  destruct scheduled_invariant as (deg & _ & _ & _ & _ & Hord). apply Hord.
Qed.

(** A step that was not scheduled has a predecessor that was not
    scheduled either. *)
Lemma unscheduled_predecessor v :
  In v (stepIds nodes) -> ~ In v (scheduled nodes edges) ->
  exists u, In u (stepIds nodes) /\ ~ In u (scheduled nodes edges) /\ connected nodes edges u v.
Proof.
  intros Hv Hnot.
  destruct scheduled_invariant as (deg & _ & _ & _ & Hiff & _).
  assert (pending edges (scheduled nodes edges) v <> 0) as Hpos.
  { intros Hz. apply Hnot. apply (Hiff v Hv) in Hz. rewrite app_nil_r in Hz. exact Hz. }
  unfold pending in Hpos.
  destruct (filter _ edges) as [|e rest] eqn:E; [contradiction|].
  assert (In e (e :: rest)) as He by (left; reflexivity).
  rewrite <- E in He. apply filter_In in He. destruct He as [He Hc].
  apply andb_true_iff in Hc. destruct Hc as [Ht Hs].
  apply String.eqb_eq in Ht. apply negb_true_iff, memb_false in Hs.
  exists (source e). destruct (proj2 Hwf e He) as [Hsrc _].
  repeat split; try assumption. exists e. tauto.
Qed.

End WellFormedGraph.

(** ** Walks and cycles *)

Lemma isWalk_suffix R a p : isWalk R (a ++ p) -> isWalk R p.
Proof.
  induction a as [|x a IH]; [tauto|].
  intros H. apply IH. simpl in H. destruct (a ++ p); [exact I | tauto].
Qed.

Lemma isWalk_clos_trans R m : forall x y rest,
  isWalk R (x :: m ++ y :: rest) -> clos_trans string R x y.
Proof.
  induction m as [|z m IH]; intros x y rest H; simpl in H.
  - apply t_step. tauto.
  - destruct H as [Hxz H]. apply t_trans with z; [apply t_step; exact Hxz|].
    apply (IH z y rest). exact H.
Qed.

Lemma duplicate_split (l : list string) :
  ~ NoDup l -> exists x a b c, l = a ++ x :: b ++ x :: c.
Proof.
  induction l as [|h t IH]; intros H.
  - exfalso. apply H. constructor.
  - destruct (in_dec string_dec h t) as [Hin|Hnotin].
    + apply in_split in Hin. destruct Hin as (b & c & ->).
      exists h, [], b, c. reflexivity.
    + destruct IH as (x & a & b & c & ->).
      * intros Hnd. apply H. constructor; assumption.
      * exists x, (h :: a), b, c. reflexivity.
Qed.

(** In a set closed under taking some predecessor there are walks of
    every length. *)
Lemma long_walk (R : string -> string -> Prop) (U : string -> Prop) v0 :
  U v0 ->
  (forall v, U v -> exists u, U u /\ R u v) ->
  forall k, exists p, List.length p = S k /\ isWalk R p /\ forall x, In x p -> U x.
Proof.
  intros H0 Hpred. induction k as [|k (p & Hlen & Hwalk & HU)].
  - exists [v0]. repeat split. intros x [<-|[]]. exact H0.
  - destruct p as [|h t]; [discriminate|].
    destruct (Hpred h (HU h (or_introl eq_refl))) as (u & Hu & Huh).
    exists (u :: h :: t). repeat split.
    + simpl in *. lia.
    + exact Huh.
    + exact Hwalk.
    + intros x [<-|Hx]; [exact Hu | exact (HU x Hx)].
Qed.

(** A nonempty set of steps closed under taking some predecessor contains
    a cycle. *)
Lemma closed_set_has_cycle (R : string -> string -> Prop) (U : string -> Prop)
  (universe : list string) v0 :
  U v0 ->
  (forall v, U v -> In v universe) ->
  (forall v, U v -> exists u, U u /\ R u v) ->
  exists x, clos_trans string R x x.
Proof.
  intros H0 Huniv Hpred.
  destruct (long_walk R U v0 H0 Hpred (List.length universe)) as (p & Hlen & Hwalk & HU).
  assert (~ NoDup p) as Hdup.
  { intros Hnd. assert (incl p universe) as Hincl by (intros x Hx; auto).
    pose proof (NoDup_incl_length Hnd Hincl). lia. }
  destruct (duplicate_split Hdup) as (x & a & b & c & ->).
  exists x. apply isWalk_suffix in Hwalk. exact (isWalk_clos_trans R b x x c Hwalk).
Qed.

(** ** Correctness of the scheduler on well-formed graphs *)

Lemma buildExecutionOrder_scheduled nodes edges :
  buildExecutionOrder nodes edges
  = if Nat.eqb (List.length (scheduled nodes edges)) (List.length nodes)
    then Returned (scheduled nodes edges)
    else Thrown (mkError cycleMessage).
Proof. reflexivity. Qed.

Lemma connected_respected nodes edges :
  wellFormed nodes edges ->
  incl (stepIds nodes) (scheduled nodes edges) ->
  forall u v,
    clos_trans string (connected nodes edges) u v ->
    indexOf (scheduled nodes edges) u < indexOf (scheduled nodes edges) v.
Proof.
  intros Hwf Hall u v H. induction H as [u v (Hu & Hv & e & He & <- & <-)|u w v _ IH1 _ IH2].
  - apply (scheduled_respects Hwf e He). apply Hall. exact Hv.
  - lia.
Qed.

(** X1. On a well-formed acyclic graph (unique step ids, every
    connection between steps of the graph) [buildExecutionOrder] returns an
    order; the order is a permutation of the step ids in which every
    connection goes forward. *)
Theorem acyclic_graph_is_ordered nodes edges :
  wellFormed nodes edges ->
  acyclic nodes edges ->
  exists order,
    buildExecutionOrder nodes edges = Returned order
    /\ Permutation order (stepIds nodes)
    /\ forall e, In e edges -> indexOf order (source e) < indexOf order (target e).
Proof.
  intros Hwf Hacyclic.
  assert (incl (stepIds nodes) (scheduled nodes edges)) as Hall.
  { intros v Hv. destruct (in_dec string_dec v (scheduled nodes edges)) as [Hin|Hnot];
      [exact Hin|]. exfalso.
    destruct (closed_set_has_cycle (connected nodes edges)
                (fun x => In x (stepIds nodes) /\ ~ In x (scheduled nodes edges))
                (stepIds nodes) v) as (x & Hx).
    - tauto.
    - tauto.
    - intros w [Hw Hnw]. destruct (unscheduled_predecessor Hwf w Hw Hnw) as (u & Hu & Hnu & Huw).
      exists u. tauto.
    - exact (Hacyclic x Hx). }
  assert (Permutation (scheduled nodes edges) (stepIds nodes)) as Hperm.
  { apply NoDup_Permutation.
    - apply scheduled_NoDup. exact Hwf.
    - apply Hwf.
    - intros x. split; [apply scheduled_steps; exact Hwf | apply Hall]. }
  exists (scheduled nodes edges). split; [|split].
  - rewrite buildExecutionOrder_scheduled.
    rewrite (Permutation_length Hperm). unfold stepIds. rewrite length_map.
    rewrite Nat.eqb_refl. reflexivity.
  - exact Hperm.
  - intros e He. apply (scheduled_respects Hwf e He). apply Hall. apply Hwf. exact He.
Qed.

Lemma returned_order_facts nodes edges order :
  wellFormed nodes edges ->
  buildExecutionOrder nodes edges = Returned order ->
  Permutation order (stepIds nodes)
  /\ (forall e, In e edges -> indexOf order (source e) < indexOf order (target e))
  /\ acyclic nodes edges.
Proof.
  intros Hwf. rewrite buildExecutionOrder_scheduled.
  destruct (Nat.eqb_spec (List.length (scheduled nodes edges)) (List.length nodes))
    as [Hlen|Hlen]; [|discriminate].
  intros [= <-].
  assert (incl (stepIds nodes) (scheduled nodes edges)) as Hall.
  { apply NoDup_length_incl.
    - apply scheduled_NoDup. exact Hwf.
    - unfold stepIds. rewrite length_map. lia.
    - apply scheduled_steps. exact Hwf. }
  split; [|split].
  - apply NoDup_Permutation.
    + apply scheduled_NoDup. exact Hwf.
    + apply Hwf.
    + intros x. split; [apply scheduled_steps; exact Hwf | apply Hall].
  - intros e He. apply (scheduled_respects Hwf e He). apply Hall. apply Hwf. exact He.
  - intros v Hv. pose proof (connected_respected Hwf Hall Hv). lia.
Qed.

(** X2. On a well-formed graph, an order that [buildExecutionOrder]
    returns is a permutation of the step ids in which every connection goes
    forward, and the graph is acyclic. *)
Theorem returned_order_is_topological nodes edges order :
  wellFormed nodes edges ->
  buildExecutionOrder nodes edges = Returned order ->
  Permutation order (stepIds nodes)
  /\ (forall e, In e edges -> indexOf order (source e) < indexOf order (target e))
  /\ acyclic nodes edges.
Proof. apply returned_order_facts. Qed.

(** X3. On a well-formed graph whose steps contain a cycle,
    [buildExecutionOrder] throws the cycle error and [execute] returns it
    with the trace unchanged: no callback is issued, no handler entered. *)
Theorem cyclic_graph_is_rejected ctx env st0 v :
  wellFormed (nodes ctx) (edges ctx) ->
  clos_trans string (connected (nodes ctx) (edges ctx)) v v ->
  buildExecutionOrder (nodes ctx) (edges ctx) = Thrown (mkError cycleMessage)
  /\ execute ctx env st0
     = (Returned (failure cycleMessage), mkState [] false (trace st0)).
Proof.
  intros Hwf Hcycle.
  assert (buildExecutionOrder (nodes ctx) (edges ctx) = Thrown (mkError cycleMessage)) as Hb.
  { destruct (buildExecutionOrder (nodes ctx) (edges ctx)) as [order|e] eqn:E.
    - exfalso. destruct (returned_order_facts Hwf E) as (_ & _ & Hacyclic).
      exact (Hacyclic v Hcycle).
    - rewrite buildExecutionOrder_scheduled in E.
      destruct (Nat.eqb _ _); [discriminate | symmetry; exact E]. }
  split; [exact Hb|].
  unfold execute, tryCatch, bind, liftExc. rewrite Hb. reflexivity.
Qed.

Lemma execute_pipeline_order :
  buildExecutionOrder (nodes pipeline) (edges pipeline) = Returned ["A"; "B"; "C"].
Proof. by_computation. Qed.

Lemma first_failure_ends_run_witness :
  exists st,
    execute pipeline pipelineRejected initialState
    = (Returned
         (mkResult false
            (JStr (String.append "Failed at node "
                     (String "034"
                        (String.append "B"
                           (String "034" ": ParserError: Expected pragma")))))
            JUndefined), st)
    /\ In (NodeStatus "B" Error) (trace st)
    /\ forall e, In e (trace st) -> eventNode e <> Some "C".
Proof.
  pose proof (@first_failure_ends_run pipeline pipelineRejected
                ["A"; "B"; "C"] ["A"] "B" ["C"] (plainNode "B" "compile")
                (snd (runOrder pipeline pipelineRejected ["A"] initialState))
                (mkRun [] (Returned (failure "ParserError: Expected pragma")))
                (failure "ParserError: Expected pragma")) as H.
  do 8 premise H.
  destruct H as (st & _ & H1 & H2 & H3).
  exists st. split; [exact (H1 _ eq_refl)|]. split; [exact H2|].
  intros e. apply H3. left. reflexivity.
Defined.


Lemma stop_between_steps_witness :
  exists st,
    execute pipeline pipelineStopped initialState
    = (Returned (mkResult false (JStr "Workflow execution stopped by user") JUndefined), st)
    /\ In (NodeStatus "B" Success) (trace st)
    /\ forall e, In e (trace st) -> eventNode e <> Some "C".
Proof.
  pose proof (@stop_between_steps pipeline pipelineStopped
                ["A"; "B"; "C"] ["A"] "B" "C" [] (plainNode "B" "compile")
                (snd (runOrder pipeline pipelineStopped ["A"] initialState))) as H.
  do 7 premise H.
  destruct H as (_ & st & H1 & _ & _ & H2 & H3 & _).
  exists st. repeat split; [exact H1 | exact H2 |].
  intros e. apply H3. left. reflexivity.
Defined.

(** C5 as stated fails on the message: in the run of the pipeline in
    which [stop()] is called while the Compile step B is in flight, B runs
    to completion, C is never started, and the message of the result is
    ['Workflow execution stopped by user'], not ['stopped']. *)
Lemma stop_message_is_not_stopped :
  exists r st,
    execute pipeline pipelineStopped initialState = (Returned r, st)
    /\ success r = false
    /\ message r = JStr "Workflow execution stopped by user"
    /\ message r <> JStr "stopped"
    /\ statusCalls (trace st)
       = [("A", Running); ("A", Success); ("B", Running); ("B", Success)].
Proof.
  do 2 eexists. split; [by_computation|].
  repeat split; try by_computation. discriminate.
Qed.

Lemma execution_data_tracks_success_witness :
  JsMap.keys (executionData (snd (runOrder pipeline pipelineRejected ["A"; "B"] initialState)))
  = succeededIds (trace (snd (runOrder pipeline pipelineRejected ["A"; "B"] initialState)))
  /\ succeededIds (trace (snd (runOrder pipeline pipelineRejected ["A"; "B"] initialState)))
     = ["A"].
Proof.
  pose proof (@execution_data_tracks_success pipeline pipelineRejected
                ["A"; "B"; "C"] ["A"; "B"] ["C"]
                (Some (failure (failedAtMessage "B" "ParserError: Expected pragma")))
                (snd (runOrder pipeline pipelineRejected ["A"; "B"] initialState))) as H.
  do 3 premise H.
  destruct H as (H1 & _).
  split; [exact H1 | by_computation].
Defined.

Lemma lookup_returns_first_of_kind_witness :
  findPreviousData (nodes twoCompiles)
    (executionData (snd (runOrder twoCompiles twoCompilesNamed ["A"; "S1"; "S2"] initialState)))
    "compile"
  = Some (JObj [("success", JBool true); ("abi", JArr [JStr "S1"]);
                ("bytecode", JStr "0x00")]).
Proof.
  pose proof (proj2 (proj2 (lookup_returns_first_of_kind twoCompiles twoCompilesNamed
                              "compile"))
                ["A"; "S1"; "S2"; "T"] ["A"] "S1" ["S2"] "T" [] (plainNode "S1" "compile")
                (snd (runOrder twoCompiles twoCompilesNamed ["A"] initialState))
                (snd (runOrder twoCompiles twoCompilesNamed ["A"; "S1"; "S2"] initialState)))
    as H.
  do 9 premise H.
  exact H.
Defined.

(** C7 as stated fails: after the Source Input step A, the Compile step
    S2 succeeds, with an ABI of its own, before T runs; yet the lookup of
    kind [compile] made by the Extract ABI handler of T finds the output of
    S1, and T's output is S1's ABI. *)
Lemma lookup_ignores_later_step_of_same_kind :
  exists r st,
    execute twoCompiles twoCompilesNamed initialState = (Returned r, st)
    /\ success r = true
    /\ kindOf (nodes twoCompiles) "S2" = Some "compile"
    /\ succeededIds (trace st) = ["A"; "S1"; "S2"; "T"]
    /\ JsMap.get (executionData st) "S2"
       = Some (JObj [("success", JBool true); ("abi", JArr [JStr "S2"]);
                     ("bytecode", JStr "0x00")])
    /\ JsMap.get (executionData st) "T" = Some (JObj [("abi", JArr [JStr "S1"])])
    /\ JArr [JStr "S2"] <> JArr [JStr "S1"].
Proof.
  do 2 eexists. split; [by_computation|].
  repeat split; try by_computation. discriminate.
Qed.

Lemma pipeline_wellFormed : wellFormed (nodes pipeline) (edges pipeline).
Proof.
  split.
  - repeat constructor; simpl; intuition discriminate.
  - intros e [<-|[<-|[]]]; simpl; tauto.
Qed.

Lemma pipeline_acyclic : acyclic (nodes pipeline) (edges pipeline).
Proof.
  exact (proj2 (proj2 (returned_order_facts pipeline_wellFormed execute_pipeline_order))).
Qed.

Lemma twoCycle_wellFormed : wellFormed (nodes twoCycle) (edges twoCycle).
Proof.
  split.
  - repeat constructor; simpl; intuition discriminate.
  - intros e [<-|[<-|[]]]; simpl; tauto.
Qed.

Lemma twoCycle_cycle :
  clos_trans string (connected (nodes twoCycle) (edges twoCycle)) "A" "A".
Proof.
  apply t_trans with "B"; apply t_step; repeat split; simpl; try tauto.
  - exists (plainEdge "e1" "A" "B"). simpl. tauto.
  - exists (plainEdge "e2" "B" "A"). simpl. tauto.
Qed.

Lemma acyclic_graph_is_ordered_witness :
  exists order,
    buildExecutionOrder (nodes pipeline) (edges pipeline) = Returned order
    /\ Permutation order ["A"; "B"; "C"].
Proof.
  destruct (acyclic_graph_is_ordered pipeline_wellFormed pipeline_acyclic)
    as (order & H1 & H2 & _).
  exists order. split; [exact H1 | exact H2].
Defined.

Lemma returned_order_is_topological_witness :
  Permutation ["A"; "B"; "C"] (stepIds (nodes pipeline))
  /\ acyclic (nodes pipeline) (edges pipeline).
Proof.
  destruct (returned_order_is_topological pipeline_wellFormed execute_pipeline_order)
    as (H1 & _ & H2).
  split; [exact H1 | exact H2].
Defined.

Lemma cyclic_graph_is_rejected_witness :
  execute twoCycle allSucceed initialState
  = (Returned (failure cycleMessage), initialState).
Proof.
  exact (proj2 (cyclic_graph_is_rejected twoCycle allSucceed initialState
                  twoCycle_wellFormed twoCycle_cycle)).
Defined.

(** ** Connections that name ids outside the graph *)

Lemma no_connection_acyclic nodes edges :
  (forall u v, ~ connected nodes edges u v) -> acyclic nodes edges.
Proof.
  intros Hnone v H. induction H as [u w H| ]; [exact (Hnone _ _ H) | assumption].
Qed.

(** C1 fails on the code: the graph has one step and one connection
    whose source is not a step, so the restricted connection relation is
    empty (hence acyclic), yet [buildExecutionOrder] throws the cycle error
    and [execute] returns it without starting the step. *)
Theorem dangling_source_reported_as_cycle :
  acyclic (nodes danglingSource) (edges danglingSource)
  /\ buildExecutionOrder (nodes danglingSource) (edges danglingSource)
     = Thrown (mkError cycleMessage)
  /\ forall env,
       execute danglingSource env initialState
       = (Returned (failure cycleMessage), initialState).
Proof.
  split; [|split; [by_computation | intros env; by_computation]].
  apply no_connection_acyclic. intros u v (Hu & _ & e & He & Hs & _).
  simpl in Hu, He. destruct He as [<-|[]]. simpl in Hs.
  destruct Hu as [Hu|[]]. rewrite <- Hu in Hs. discriminate.
Qed.

(** C2 fails on the code: the restricted connection relation of the
    graph is empty (hence acyclic), yet the returned order lists the id
    ["X"], which is not a step, and omits step ["B"]; it is not a
    permutation of the step ids, and the run never starts B. *)
Theorem dangling_edges_break_order :
  acyclic (nodes danglingBoth) (edges danglingBoth)
  /\ buildExecutionOrder (nodes danglingBoth) (edges danglingBoth)
     = Returned ["A"; "X"]
  /\ ~ Permutation ["A"; "X"] (stepIds (nodes danglingBoth))
  /\ exists r st,
       execute danglingBoth allSucceed initialState = (Returned r, st)
       /\ success r = true
       /\ forall e, In e (trace st) -> eventNode e <> Some "B".
Proof.
  split; [|split; [by_computation | split]].
  - apply no_connection_acyclic. intros u v (Hu & Hv & e & He & Hs & Ht).
    simpl in Hu, Hv, He. destruct He as [<-|[<-|[]]]; simpl in Hs, Ht.
    + destruct Hv as [Hv|[Hv|[]]]; rewrite <- Hv in Ht; discriminate.
    + destruct Hu as [Hu|[Hu|[]]]; rewrite <- Hu in Hs; discriminate.
  - intros Hperm. assert (In "X" (stepIds (nodes danglingBoth))) as Hin
        by (apply (Permutation_in _ Hperm); simpl; tauto).
    simpl in Hin. destruct Hin as [H|[H|[]]]; discriminate.
  - do 2 eexists. split; [by_computation|]. split; [reflexivity|].
    intros e He. cbn [trace] in He.
    repeat (destruct He as [<-|He]; [discriminate|]). destruct He.
Qed.

(** C3 fails on the code: step A is connected to itself, so the steps
    contain a cycle, yet the order has as many ids as there are steps (the
    id ["X"] stands in for A), no cycle error is thrown, step B is started
    and its handler entered, and the run succeeds. *)
Theorem masked_cycle_is_executed :
  clos_trans string (connected (nodes maskedCycle) (edges maskedCycle)) "A" "A"
  /\ buildExecutionOrder (nodes maskedCycle) (edges maskedCycle) = Returned ["B"; "X"]
  /\ exists r st,
       execute maskedCycle allSucceed initialState = (Returned r, st)
       /\ success r = true
       /\ In (NodeStatus "B" Running) (trace st)
       /\ In (HandlerCall "B" "projectCreate") (trace st).
Proof.
  split; [|split; [by_computation|]].
  - apply t_step. repeat split; simpl; try tauto.
    exists (plainEdge "e1" "A" "A"). simpl. tauto.
  - do 2 eexists. split; [by_computation|]. cbn [trace success In]. tauto.
Qed.

(** * Further properties of the executor *)

(** ** Shape of a run *)

(** Either the run ends before the loop (cycle error or no order), with
    nothing recorded, or its state is the one the loop over the execution
    order leaves. *)
Lemma execute_cases ctx env res st :
  execute ctx env initialState = (Returned res, st) ->
  (st = initialState /\ success res = false)
  \/ exists order r,
       buildExecutionOrder (nodes ctx) (edges ctx) = Returned order
       /\ order <> []
       /\ runOrder ctx env order initialState = (r, st)
       /\ res = match r with
                | Returned (Some result) => result
                | Returned None =>
                    mkResult true "Workflow executed successfully"
                      (successData env (executionData st))
                | Thrown e =>
                    mkResult false
                      (jsOr (getField e "message")
                         (JStr "Unknown error during workflow execution"))
                      JUndefined
                end.
Proof.
  destruct (buildExecutionOrder (nodes ctx) (edges ctx)) as [order|e] eqn:Hb.
  - destruct order as [|x order].
    + unfold execute, tryCatch, bind, liftExc, complete. rewrite Hb. simpl.
      intros [= <- <-]. left. split; reflexivity.
    + rewrite (@execute_unfold ctx env initialState _ Hb) by discriminate.
      change (mkState [] false (trace initialState)) with initialState.
      destruct (runOrder ctx env (x :: order) initialState) as [r st1] eqn:Hrun.
      intros Hex. right. exists (x :: order), r.
      split; [reflexivity|]. split; [discriminate|].
      destruct r as [[result|]|e];
        try (injection Hex as <- <-; split; [exact Hrun | reflexivity]).
      destruct (@runOrder_throws ctx env _ _ _ _ Hrun) as (v & Hv).
      rewrite Hv in Hex, Hrun |- *.
      rewrite readMessage_error in Hex. injection Hex as <- <-.
      split; [exact Hrun | reflexivity].
  - unfold execute, tryCatch, bind, liftExc, complete. rewrite Hb. simpl.
    intros [= <- <-]. left. split; reflexivity.
Qed.

(** A result the loop itself returns is a failure. *)
Lemma runOrder_some_fails ctx env order :
  forall st result st',
    runOrder ctx env order st = (Returned (Some result), st') -> success result = false.
Proof.
  induction order as [|nodeId rest IH]; intros st result st' Hrun; [discriminate|].
  destruct (stopped st) eqn:Hs.
  - rewrite runOrder_stopped in Hrun by exact Hs. injection Hrun as <- _. reflexivity.
  - destruct (findNode (nodes ctx) nodeId) as [node|] eqn:Hf.
    + rewrite (@runOrder_step ctx env _ _ _ _ Hs Hf) in Hrun. cbv zeta in Hrun.
      destruct (success _); [exact (IH _ _ _ Hrun)|].
      destruct (nodeThrows _ _ _ _); [discriminate|].
      injection Hrun as <- _. reflexivity.
    + rewrite runOrder_skip in Hrun by assumption. exact (IH _ _ _ Hrun).
Qed.

Lemma findNode_in nodes i :
  In i (stepIds nodes) -> exists node, findNode nodes i = Some node.
Proof.
  unfold findNode, stepIds. intros H. apply in_map_iff in H. destruct H as (n & <- & Hn).
  destruct (find (fun n0 => String.eqb (id n0) (id n)) nodes) as [node|] eqn:E; [eauto|].
  exfalso. pose proof (find_none _ _ E _ Hn) as H. simpl in H.
  rewrite String.eqb_refl in H. discriminate.
Qed.

(** ** The protocol of status calls *)

Lemma statusCalls_app t1 t2 : statusCalls (t1 ++ t2) = statusCalls t1 ++ statusCalls t2.
Proof.
  induction t1 as [|e t1 IH]; simpl; [reflexivity|].
  destruct e; simpl; rewrite IH; reflexivity.
Qed.

Lemma statusCalls_edgeEvents ctx i s : statusCalls (edgeEvents ctx i s) = [].
Proof. unfold edgeEvents. destruct (hasOnEdgeUpdate ctx); reflexivity. Qed.

Lemma statusCalls_updates i ps : statusCalls (map (NodeUpdate i) ps) = [].
Proof. induction ps; simpl; auto. Qed.

Lemma statusCalls_nodeEvents ctx env node d :
  statusCalls (nodeEvents ctx env node d)
  = [(id node, Running);
     (id node, if success (nodeResult ctx env node d) then Success else Error)].
Proof.
  unfold nodeEvents, terminalEvents, handlerEvents. simpl.
  rewrite !statusCalls_app, statusCalls_edgeEvents.
  destruct (handlerRunOf ctx env node d) as [run|]; simpl;
    rewrite ?statusCalls_updates;
    destruct (success (nodeResult ctx env node d)); simpl;
    rewrite statusCalls_app, statusCalls_edgeEvents;
    destruct (nodeThrows ctx env node d); reflexivity.
Qed.

Lemma Sequential_app l1 l2 : Sequential l1 -> Sequential l2 -> Sequential (l1 ++ l2).
Proof.
  induction 1 as [|i s rest Hs _ IH]; intros H2; simpl; [exact H2|].
  constructor; [exact Hs | exact (IH H2)].
Qed.

Lemma startedIds_app t1 t2 : startedIds (t1 ++ t2) = startedIds t1 ++ startedIds t2.
Proof. unfold startedIds. rewrite statusCalls_app, filter_app, map_app. reflexivity. Qed.

Lemma startedIds_nodeEvents ctx env node d : startedIds (nodeEvents ctx env node d) = [id node].
Proof.
  unfold startedIds. rewrite statusCalls_nodeEvents. simpl.
  destruct (success _); reflexivity.
Qed.

Lemma runOrder_sequential ctx env order :
  NoDup order ->
  forall st r st',
    runOrder ctx env order st = (r, st') ->
    exists evs,
      trace st' = trace st ++ evs
      /\ Sequential (statusCalls evs)
      /\ NoDup (startedIds evs)
      /\ incl (startedIds evs) order
      /\ incl (startedIds evs) (stepIds (nodes ctx)).
Proof.
  induction order as [|nodeId rest IH]; intros Hnd st r st' Hrun.
  - injection Hrun as <- <-. exists []. rewrite app_nil_r. unfold startedIds. simpl.
    split; [reflexivity|]. split; [constructor|]. split; [constructor|]. split; intros x [].
  - inversion Hnd as [|? ? Hnotin Hnd']; subst.
    destruct (stopped st) eqn:Hs.
    { rewrite runOrder_stopped in Hrun by exact Hs. injection Hrun as <- <-.
      exists []. rewrite app_nil_r. unfold startedIds. simpl.
      split; [reflexivity|]. split; [constructor|]. split; [constructor|]. split; intros x []. }
    destruct (findNode (nodes ctx) nodeId) as [node|] eqn:Hf.
    2:{ rewrite runOrder_skip in Hrun by assumption.
        destruct (IH Hnd' _ _ _ Hrun) as (evs & H1 & H2 & H3 & H4 & H5).
        exists evs. repeat split; try assumption.
        intros x Hx. right. exact (H4 x Hx). }
    destruct (findNode_some _ _ Hf) as [Hid Hin].
    rewrite (@runOrder_step ctx env _ _ _ _ Hs Hf) in Hrun. cbv zeta in Hrun.
    pose proof (statusCalls_nodeEvents ctx env node (executionData st)) as Hcalls.
    pose proof (startedIds_nodeEvents ctx env node (executionData st)) as Hstarted.
    assert (Sequential (statusCalls (nodeEvents ctx env node (executionData st)))) as Hseq.
    { rewrite Hcalls. constructor; [|constructor].
      destruct (success _); tauto. }
    destruct (success (nodeResult ctx env node (executionData st))).
    + destruct (IH Hnd' _ _ _ Hrun) as (evs & H1 & H2 & H3 & H4 & H5).
      cbn [trace] in H1.
      exists (nodeEvents ctx env node (executionData st) ++ evs).
      rewrite statusCalls_app, startedIds_app, Hstarted, Hid.
      split; [rewrite H1, app_assoc; reflexivity|].
      split; [apply Sequential_app; assumption|].
      split; [simpl; constructor; [intros Hx; exact (Hnotin (H4 _ Hx)) | exact H3]|].
      split.
      * intros x [<-|Hx]; [left; reflexivity | right; exact (H4 x Hx)].
      * intros x [<-|Hx]; [|exact (H5 x Hx)].
        rewrite <- Hid. apply in_map. exact Hin.
    + assert (trace st' = trace st ++ nodeEvents ctx env node (executionData st)) as Htrace
        by (destruct (nodeThrows ctx env node (executionData st));
            injection Hrun as <- <-; reflexivity).
      exists (nodeEvents ctx env node (executionData st)).
      rewrite Hstarted, Hid.
      split; [exact Htrace|]. split; [exact Hseq|].
      split; [repeat constructor; simpl; tauto|].
      split.
      * intros x [<-|[]]. left. reflexivity.
      * intros x [<-|[]]. rewrite <- Hid. apply in_map. exact Hin.
Qed.

Lemma execute_sequential ctx env :
  Sequential (statusCalls (trace (snd (execute ctx env initialState))))
  /\ NoDup (startedIds (trace (snd (execute ctx env initialState))))
  /\ incl (startedIds (trace (snd (execute ctx env initialState)))) (stepIds (nodes ctx)).
Proof.
  destruct (execute_total ctx env initialState) as (res & st & Hex). rewrite Hex. simpl.
  destruct (execute_cases _ _ Hex) as [[-> _]|(order & r & Hb & _ & Hrun & _)].
  - simpl. repeat split; try constructor. intros x [].
  - destruct (@runOrder_sequential ctx env order (buildExecutionOrder_NoDup _ _ Hb) _ _ _ Hrun)
      as (evs & H1 & H2 & H3 & _ & H5).
    simpl in H1. rewrite H1. tauto.
Qed.

(** X4. In every run the status calls come in pairs: [Running] for a
    step, directly followed by [Success] or [Error] for the same step, before
    any call for another step. No step is started twice, and only steps of
    the graph are started. So at most one step is running at any time, and
    every started step gets exactly one terminal status. *)
Theorem status_calls_are_sequential ctx env :
  Sequential (statusCalls (trace (snd (execute ctx env initialState))))
  /\ NoDup (startedIds (trace (snd (execute ctx env initialState))))
  /\ incl (startedIds (trace (snd (execute ctx env initialState)))) (stepIds (nodes ctx)).
Proof. apply execute_sequential. Qed.

(** ** A successful run covers every step *)

Lemma runOrder_none_keys ctx env order :
  NoDup order ->
  forall st st',
    (forall i, In i order -> ~ In i (JsMap.keys (executionData st))) ->
    (forall i, In i order -> In i (stepIds (nodes ctx))) ->
    runOrder ctx env order st = (Returned None, st') ->
    JsMap.keys (executionData st') = JsMap.keys (executionData st) ++ order.
Proof.
  induction order as [|nodeId rest IH]; intros Hnd st st' Hfresh Hsteps Hrun.
  - injection Hrun as <-. rewrite app_nil_r. reflexivity.
  - inversion Hnd as [|? ? Hnotin Hnd']; subst.
    destruct (stopped st) eqn:Hs.
    { rewrite runOrder_stopped in Hrun by exact Hs. discriminate. }
    destruct (@findNode_in (nodes ctx) nodeId (Hsteps _ (or_introl eq_refl))) as (node & Hf).
    rewrite (@runOrder_step ctx env _ _ _ _ Hs Hf) in Hrun. cbv zeta in Hrun.
    destruct (success (nodeResult ctx env node (executionData st)));
      [|destruct (nodeThrows _ _ _ _); discriminate].
    rewrite set_fresh in Hrun by (apply Hfresh; left; reflexivity).
    rewrite (IH Hnd' _ _) with (3 := Hrun).
    + cbn [executionData]. unfold JsMap.keys. rewrite map_app, <- app_assoc. reflexivity.
    + intros i Hi. cbn [executionData]. unfold JsMap.keys. rewrite map_app, in_app_iff.
      simpl. intros [H|[H|[]]].
      * exact (Hfresh i (or_intror Hi) H).
      * subst i. contradiction.
    + intros i Hi. apply Hsteps. right. exact Hi.
Qed.

(** ** The properties of the object built by [Object.fromEntries] *)

Lemma arrayIndex_injective k1 k2 n :
  arrayIndex k1 = Some n -> arrayIndex k2 = Some n -> k1 = k2.
Proof.
  unfold arrayIndex. intros H1 H2.
  destruct (NilZero.uint_of_string k1) as [d1|]; [|discriminate].
  destruct (NilZero.uint_of_string k2) as [d2|]; [|discriminate].
  destruct (String.eqb_spec (NilZero.string_of_uint (N.to_uint (N.of_uint d1))) k1)
    as [E1|_]; [|discriminate].
  destruct (String.eqb_spec (NilZero.string_of_uint (N.to_uint (N.of_uint d2))) k2)
    as [E2|_]; [|discriminate].
  simpl in H1, H2.
  destruct (N.ltb (N.of_uint d1) 4294967295); [|discriminate].
  destruct (N.ltb (N.of_uint d2) 4294967295); [|discriminate].
  injection H1 as H1. injection H2 as H2. rewrite <- E1, <- E2, H1, H2. reflexivity.
Qed.

Lemma insertIndexed_perm e l : Permutation (insertIndexed e l) (e :: l).
Proof.
  induction l as [|a l IH]; simpl; [reflexivity|].
  destruct (N.leb _ _); [reflexivity|].
  rewrite IH. apply perm_swap.
Qed.

Lemma sortIndexed_perm l : Permutation (fold_right insertIndexed [] l) l.
Proof.
  induction l as [|a l IH]; simpl; [reflexivity|].
  rewrite insertIndexed_perm, IH. reflexivity.
Qed.

Lemma filter_split_perm {A} (p : A -> bool) (l : list A) :
  Permutation (filter p l ++ filter (fun x => negb (p x)) l) l.
Proof.
  induction l as [|a l IH]; simpl; [reflexivity|].
  destruct (p a); simpl.
  - constructor. exact IH.
  - rewrite <- Permutation_middle. constructor. exact IH.
Qed.

Lemma fromEntries_perm d : Permutation (fromEntries d) d.
Proof.
  unfold fromEntries. rewrite sortIndexed_perm. apply filter_split_perm.
Qed.

Lemma insertIndexed_sorted e l :
  Sorted (fun a b => (indexOfKey (fst a) <= indexOfKey (fst b))%N) l ->
  Sorted (fun a b => (indexOfKey (fst a) <= indexOfKey (fst b))%N) (insertIndexed e l).
Proof.
  induction 1 as [|a l Hl IH Hhd]; simpl.
  - repeat constructor.
  - destruct (N.leb_spec (indexOfKey (fst e)) (indexOfKey (fst a))) as [Hle|Hlt].
    + constructor; [constructor; assumption|]. constructor. exact Hle.
    + constructor; [exact IH|].
      destruct l as [|b l]; simpl.
      * constructor. lia.
      * inversion Hhd; subst. destruct (N.leb _ _); constructor; [lia | assumption].
Qed.

Lemma sortIndexed_sorted l :
  Sorted (fun a b => (indexOfKey (fst a) <= indexOfKey (fst b))%N)
    (fold_right insertIndexed [] l).
Proof.
  induction l as [|a l IH]; simpl; [constructor|]. apply insertIndexed_sorted. exact IH.
Qed.

(** Among distinct keys that are array indices, ascending is strictly
    ascending. *)
Lemma sorted_indices_strict (l : list (string * JsVal)) :
  NoDup (map fst l) ->
  Forall (fun e => isArrayIndex (fst e) = true) l ->
  Sorted (fun a b => (indexOfKey (fst a) <= indexOfKey (fst b))%N) l ->
  Sorted (fun a b => (indexOfKey (fst a) < indexOfKey (fst b))%N) l.
Proof.
  intros Hnd Hall Hs. induction Hs as [|a l Hl IH Hhd]; [constructor|].
  inversion Hnd as [|? ? Hnotin Hnd']; subst.
  inversion Hall as [|? ? Ha Hall']; subst.
  constructor; [exact (IH Hnd' Hall')|].
  destruct Hhd as [|b l Hle]; constructor.
  inversion Hall' as [|? ? Hb _]; subst.
  assert (indexOfKey (fst a) <> indexOfKey (fst b)) as Hne.
  { unfold isArrayIndex, indexOfKey in *.
    destruct (arrayIndex (fst a)) as [na|] eqn:Ea; [|discriminate].
    destruct (arrayIndex (fst b)) as [nb|] eqn:Eb; [|discriminate].
    intros ->. apply Hnotin. left. symmetry. exact (arrayIndex_injective _ _ Ea Eb). }
  lia.
Qed.

Lemma get_permutation (l l' : list (string * JsVal)) k :
  NoDup (JsMap.keys l) -> Permutation l l' -> JsMap.get l' k = JsMap.get l k.
Proof.
  intros Hnd Hperm.
  assert (NoDup (JsMap.keys l')) as Hnd'
      by (exact (Permutation_NoDup (Permutation_map fst Hperm) Hnd)).
  destruct (JsMap.get l k) as [v|] eqn:E.
  - apply get_in_NoDup; [exact Hnd'|].
    apply (Permutation_in _ Hperm). apply get_some_in. exact E.
  - apply get_none_iff. apply get_none_iff in E. intros Hin. apply E.
    exact (Permutation_in _ (Permutation_sym (Permutation_map fst Hperm)) Hin).
Qed.

(** The properties of the object: the entries whose keys are array
    indices, in strictly ascending order of the index, then the other
    entries in the order of the map; every key keeps its value. *)
Lemma fromEntries_order d :
  NoDup (JsMap.keys d) ->
  exists indexed named,
    fromEntries d = indexed ++ named
    /\ Forall (fun e => isArrayIndex (fst e) = true) indexed
    /\ Sorted (fun a b => (indexOfKey (fst a) < indexOfKey (fst b))%N) indexed
    /\ named = filter (fun e => negb (isArrayIndex (fst e))) d
    /\ Permutation (indexed ++ named) d
    /\ forall k, JsMap.get (indexed ++ named) k = JsMap.get d k.
Proof.
  intros Hnd. do 2 eexists. split; [reflexivity|].
  assert (Permutation (fold_right insertIndexed [] (filter (fun e => isArrayIndex (fst e)) d))
            (filter (fun e => isArrayIndex (fst e)) d)) as Hperm by apply sortIndexed_perm.
  assert (Forall (fun e => isArrayIndex (fst e) = true)
            (fold_right insertIndexed [] (filter (fun e => isArrayIndex (fst e)) d))) as Hall.
  { apply Forall_forall. intros e He. apply (Permutation_in _ Hperm) in He.
    apply filter_In in He. tauto. }
  split; [exact Hall|]. split; [|split; [reflexivity|split]].
  - apply sorted_indices_strict; [|exact Hall | apply sortIndexed_sorted].
    apply (Permutation_NoDup (Permutation_map fst (Permutation_sym Hperm))).
    unfold JsMap.keys in Hnd. clear Hperm Hall.
    induction d as [|a d IH]; simpl; [constructor|].
    inversion Hnd as [|? ? Hnotin Hnd']; subst.
    destruct (isArrayIndex (fst a)); simpl; [|exact (IH Hnd')].
    constructor; [|exact (IH Hnd')].
    intros Hin. apply Hnotin. apply in_map_iff in Hin. destruct Hin as (x & Hx & Hin).
    apply filter_In in Hin. rewrite <- Hx. apply in_map. tauto.
  - apply fromEntries_perm.
  - intros k. apply get_permutation; [exact Hnd|].
    apply Permutation_sym. apply fromEntries_perm.
Qed.

(** X5. On a graph with unique step ids and no dangling connection, a
    run that returns [success: true] has executed every step: the keys of the
    execution data, in insertion order, are the execution order itself, a
    permutation of the step ids in which every connection goes forward; every
    step has reported [Success]. The result is
    [{ success: true, message: 'Workflow executed successfully',
       data: { summary, executionData } }], where [executionData] is an object
    with one property for every step, named by the id of the step and
    holding its output: first the ids that are array indices, in strictly
    ascending order of the index, then the other ids in execution
    order. *)
Theorem successful_run_covers_every_step ctx env r st :
  wellFormed (nodes ctx) (edges ctx) ->
  execute ctx env initialState = (Returned r, st) ->
  success r = true ->
  buildExecutionOrder (nodes ctx) (edges ctx) = Returned (JsMap.keys (executionData st))
  /\ Permutation (JsMap.keys (executionData st)) (stepIds (nodes ctx))
  /\ (forall e, In e (edges ctx) ->
        indexOf (JsMap.keys (executionData st)) (source e)
        < indexOf (JsMap.keys (executionData st)) (target e))
  /\ (forall i, In i (stepIds (nodes ctx)) -> In (NodeStatus i Success) (trace st))
  /\ exists indexed named,
       r = mkResult true (JStr "Workflow executed successfully")
             (JObj [("summary", JStr (generateSummary env (executionData st)));
                    ("executionData", JObj (indexed ++ named))])
       /\ Forall (fun e => isArrayIndex (fst e) = true) indexed
       /\ Sorted (fun a b => (indexOfKey (fst a) < indexOfKey (fst b))%N) indexed
       /\ named = filter (fun e => negb (isArrayIndex (fst e))) (executionData st)
       /\ Permutation (map fst (indexed ++ named)) (stepIds (nodes ctx))
       /\ forall i, JsMap.get (indexed ++ named) i = JsMap.get (executionData st) i.
Proof.
  intros Hwf Hex Hok.
  destruct (execute_cases _ _ Hex) as [[_ Hfail]|(order & res & Hb & _ & Hrun & Hres)];
    [congruence|].
  destruct res as [[result|]|e].
  { subst r. rewrite (runOrder_some_fails _ _ _ _ Hrun) in Hok. discriminate. }
  2:{ subst r. discriminate. }
  pose proof (buildExecutionOrder_NoDup _ _ Hb) as Hnd.
  destruct (returned_order_facts Hwf Hb) as (Hperm & Hresp & _).
  assert (JsMap.keys (executionData st) = order) as Hkeys.
  { rewrite (@runOrder_none_keys ctx env order Hnd initialState st); [reflexivity | | | exact Hrun].
    - intros i _ [].
    - intros i Hi. exact (Permutation_in _ Hperm Hi). }
  assert (NoDup (JsMap.keys (executionData st))) as Hnd' by (rewrite Hkeys; exact Hnd).
  destruct (@fromEntries_order _ Hnd') as (indexed & named & Hfrom & Hall & Hsorted & Hnamed
                                         & Hpermuted & Hget).
  rewrite Hkeys.
  split; [assumption|]. split; [assumption|]. split; [assumption|]. split.
  - intros i Hi.
    destruct (@runOrder_extends ctx env order Hnd _ _ _ (initial_fresh order) Hrun)
      as [evs new H1 H2 H3 _ _ _ _].
    simpl in H1, H2. rewrite H1. apply in_succeededIds. rewrite <- H3.
    rewrite H2 in Hkeys. unfold JsMap.keys in Hkeys. rewrite Hkeys.
    apply (Permutation_in _ (Permutation_sym Hperm)). exact Hi.
  - exists indexed, named.
    split; [rewrite Hres; unfold successData; rewrite Hfrom; reflexivity|].
    split; [exact Hall|]. split; [exact Hsorted|]. split; [exact Hnamed|].
    split; [|exact Hget].
    rewrite (Permutation_map fst Hpermuted). fold (JsMap.keys (executionData st)).
    rewrite Hkeys. exact Hperm.
Qed.

(** ** A run starts from a clean state *)

Lemma runOrder_trace_prefix ctx env order :
  forall d b t0 t,
    runOrder ctx env order (mkState d b (t0 ++ t))
    = (fst (runOrder ctx env order (mkState d b t)),
       mkState (executionData (snd (runOrder ctx env order (mkState d b t))))
               (stopped (snd (runOrder ctx env order (mkState d b t))))
               (t0 ++ trace (snd (runOrder ctx env order (mkState d b t))))).
Proof.
  induction order as [|nodeId rest IH]; intros d b t0 t; [reflexivity|].
  destruct b.
  - rewrite !runOrder_stopped by reflexivity. reflexivity.
  - destruct (findNode (nodes ctx) nodeId) as [node|] eqn:Hf.
    + rewrite (@runOrder_step ctx env nodeId rest (mkState d false (t0 ++ t)) node eq_refl Hf),
        (@runOrder_step ctx env nodeId rest (mkState d false t) node eq_refl Hf). cbv zeta.
      cbn [executionData trace].
      destruct (success (nodeResult ctx env node d)).
      * rewrite <- app_assoc. apply IH.
      * destruct (nodeThrows ctx env node d); simpl; rewrite app_assoc; reflexivity.
    + rewrite !runOrder_skip by (reflexivity || exact Hf). apply IH.
Qed.

(** X6. [execute] clears the stop flag and the execution data before it
    does anything else, so a run does not depend on what the previous run
    left behind: from any state, the result, the final execution data and
    stop flag, and the callbacks issued are those of a run from the initial
    state. In particular a [stop()] called before the run began is
    forgotten. *)
Theorem run_ignores_previous_state ctx env st0 :
  execute ctx env st0
  = (fst (execute ctx env initialState),
     mkState (executionData (snd (execute ctx env initialState)))
             (stopped (snd (execute ctx env initialState)))
             (trace st0 ++ trace (snd (execute ctx env initialState)))).
Proof.
  destruct (buildExecutionOrder (nodes ctx) (edges ctx)) as [order|e] eqn:Hb.
  - destruct order as [|x order].
    + unfold execute, tryCatch, bind, liftExc, complete. rewrite Hb. simpl.
      rewrite app_nil_r. reflexivity.
    + rewrite !(@execute_unfold ctx env _ _ Hb) by discriminate.
      change (mkState [] false (trace initialState)) with (mkState [] false []).
      rewrite <- (app_nil_r (trace st0)) at 1.
      rewrite runOrder_trace_prefix.
      destruct (runOrder ctx env (x :: order) (mkState [] false [])) as [[[r|]|e] st];
        try reflexivity.
      destruct e; reflexivity.
  - unfold execute, tryCatch, bind, liftExc, complete. rewrite Hb. simpl.
    rewrite app_nil_r. reflexivity.
Qed.

(** ** Edge updates *)

(** Every event of the loop is an event of one step of the graph. *)
Lemma runOrder_events ctx env order :
  forall st r st',
    runOrder ctx env order st = (r, st') ->
    exists evs,
      trace st' = trace st ++ evs
      /\ forall e, In e evs ->
           exists node d, In node (nodes ctx) /\ In e (nodeEvents ctx env node d).
Proof.
  induction order as [|nodeId rest IH]; intros st r st' Hrun.
  - injection Hrun as <- <-. exists []. rewrite app_nil_r. split; [reflexivity | intros e []].
  - destruct (stopped st) eqn:Hs.
    { rewrite runOrder_stopped in Hrun by exact Hs. injection Hrun as <- <-.
      exists []. rewrite app_nil_r. split; [reflexivity | intros e []]. }
    destruct (findNode (nodes ctx) nodeId) as [node|] eqn:Hf.
    2:{ rewrite runOrder_skip in Hrun by assumption. exact (IH _ _ _ Hrun). }
    destruct (findNode_some _ _ Hf) as [_ Hin].
    rewrite (@runOrder_step ctx env _ _ _ _ Hs Hf) in Hrun. cbv zeta in Hrun.
    destruct (success (nodeResult ctx env node (executionData st))).
    + destruct (IH _ _ _ Hrun) as (evs & H1 & H2). cbn [trace] in H1.
      exists (nodeEvents ctx env node (executionData st) ++ evs).
      split; [rewrite H1, app_assoc; reflexivity|].
      intros e He. apply in_app_or in He. destruct He as [He|He]; [eauto | exact (H2 e He)].
    + exists (nodeEvents ctx env node (executionData st)).
      split; [|eauto].
      destruct (nodeThrows ctx env node (executionData st));
        injection Hrun as <- <-; reflexivity.
Qed.

Lemma nodeEvents_edgeUpdate ctx env node d es :
  In (EdgeUpdate es) (nodeEvents ctx env node d) ->
  hasOnEdgeUpdate ctx = true
  /\ exists status,
       (status = Running \/ status = Success \/ status = Error)
       /\ es = map (setEdgeStatus (id node) status) (edges ctx).
Proof.
  assert (forall status,
            status = Running \/ status = Success \/ status = Error ->
            In (EdgeUpdate es) (edgeEvents ctx (id node) status) ->
            hasOnEdgeUpdate ctx = true
            /\ exists status',
                 (status' = Running \/ status' = Success \/ status' = Error)
                 /\ es = map (setEdgeStatus (id node) status') (edges ctx)) as Hedge.
  { intros status Hstatus. unfold edgeEvents.
    destruct (hasOnEdgeUpdate ctx); simpl; [|tauto].
    intros [[= <-]|[]]. eauto. }
  unfold nodeEvents, terminalEvents, handlerEvents. intros H.
  simpl in H. destruct H as [H|H]; [discriminate|].
  repeat (apply in_app_or in H; destruct H as [H|H]).
  - apply (Hedge Running); tauto.
  - destruct (handlerRunOf ctx env node d); simpl in H; [|tauto].
    destruct H as [H|H]; [discriminate|].
    apply in_map_iff in H. destruct H as (p & H & _). discriminate.
  - destruct (success (nodeResult ctx env node d)); simpl in H;
      (destruct H as [H|H]; [discriminate|]);
      apply in_app_or in H;
      (destruct H as [H|H]; [eapply Hedge; [|exact H]; tauto|]);
      try destruct (nodeThrows ctx env node d); simpl in H;
      try tauto; destruct H as [H|[]]; discriminate.
Qed.

Lemma setEdgeStatus_connection nodeId status e :
  connection (setEdgeStatus nodeId status e) = connection e.
Proof.
  unfold setEdgeStatus, connection.
  destruct (String.eqb (source e) nodeId); [reflexivity|].
  destruct (String.eqb (target e) nodeId); reflexivity.
Qed.

Lemma setEdgeStatus_other nodeId status e :
  source e <> nodeId -> target e <> nodeId -> setEdgeStatus nodeId status e = e.
Proof.
  unfold setEdgeStatus. intros Hs Ht.
  destruct (String.eqb_spec (source e) nodeId); [contradiction|].
  destruct (String.eqb_spec (target e) nodeId); [contradiction | reflexivity].
Qed.

(** What [updateEdgeStatus] writes on each connection. *)
Lemma setEdgeStatus_written nodeId status edges :
  Forall2
    (fun e e' =>
       edgeId e' = edgeId e /\ source e' = source e /\ target e' = target e
       /\ (source e = nodeId ->
           sourceStatus e' = Some status /\ targetStatus e' = targetStatus e)
       /\ (source e <> nodeId -> target e = nodeId ->
           sourceStatus e' = sourceStatus e /\ targetStatus e' = Some status)
       /\ (source e <> nodeId -> target e <> nodeId -> e' = e))
    edges (map (setEdgeStatus nodeId status) edges).
Proof.
  induction edges as [|e edges IH]; simpl; constructor; [|exact IH].
  unfold setEdgeStatus.
  destruct (String.eqb_spec (source e) nodeId) as [Hs|Hs]; simpl.
  - repeat split; try reflexivity; intros; contradiction.
  - destruct (String.eqb_spec (target e) nodeId) as [Ht|Ht]; simpl;
      repeat split; try reflexivity; intros; contradiction.
Qed.

(** X7. Every list of edges passed to [onEdgeUpdate] during a run is the
    edge list of the execution context, connection by connection in the
    same order, with the status of one step of the graph written on the
    connections that touch this step: every connection keeps its id and its
    end points; a connection that leaves the step has the status as its
    [sourceStatus] and keeps its [targetStatus]; a connection that does not
    leave the step but enters it has the status as its [targetStatus] and
    keeps its [sourceStatus]; a connection that does not touch the step is
    passed as the context has it, so the statuses written for earlier steps
    are not carried over. Without the callback no edge update is issued. *)
Theorem edge_updates_keep_connections ctx env es :
  In (EdgeUpdate es) (trace (snd (execute ctx env initialState))) ->
  hasOnEdgeUpdate ctx = true
  /\ exists nodeId status,
       In nodeId (stepIds (nodes ctx))
       /\ (status = Running \/ status = Success \/ status = Error)
       /\ Forall2
            (fun e e' =>
               edgeId e' = edgeId e /\ source e' = source e /\ target e' = target e
               /\ (source e = nodeId ->
                   sourceStatus e' = Some status /\ targetStatus e' = targetStatus e)
               /\ (source e <> nodeId -> target e = nodeId ->
                   sourceStatus e' = sourceStatus e /\ targetStatus e' = Some status)
               /\ (source e <> nodeId -> target e <> nodeId -> e' = e))
            (edges ctx) es.
Proof.
  destruct (execute_total ctx env initialState) as (res & st & Hex). rewrite Hex. simpl.
  destruct (execute_cases _ _ Hex) as [[-> _]|(order & r & _ & _ & Hrun & _)];
    [intros []|].
  destruct (runOrder_events _ _ _ _ Hrun) as (evs & H1 & H2). simpl in H1. rewrite H1.
  intros Hin. destruct (H2 _ Hin) as (node & d & Hnode & He).
  destruct (nodeEvents_edgeUpdate He) as (Hcb & status & Hstatus & ->).
  split; [exact Hcb|].
  exists (id node), status. split; [apply in_map; exact Hnode|]. split; [exact Hstatus|].
  apply setEdgeStatus_written.
Qed.

(** ** Steps of an unknown kind *)

(** X10. A step whose kind tag is none of the eight kinds of the
    dispatcher fails the run when the loop reaches it: no handler is entered
    for it, the step is marked [Error] and [{ error:
    'Unknown node type: <kind>' }] is reported for it, [execute] returns
    [success: false] with the message
    [Failed at node "<label>": Unknown node type: <kind>] (the label
    between two characters 34), and nothing is reported for the steps after
    it. *)
Theorem unknown_kind_fails_the_run ctx env order pre nodeId post node st1 :
  buildExecutionOrder (nodes ctx) (edges ctx) = Returned order ->
  order = pre ++ nodeId :: post ->
  runOrder ctx env pre initialState = (Returned None, st1) ->
  stopped st1 = false ->
  findNode (nodes ctx) nodeId = Some node ->
  existsb (String.eqb (type (data node))) knownKinds = false ->
  exists st,
    execute ctx env initialState
    = (Returned
         (mkResult false
            (JStr (String.append "Failed at node "
                     (String "034"
                        (String.append (label (data node))
                           (String "034"
                              (String.append ": "
                                 (String.append "Unknown node type: "
                                    (type (data node)))))))))
            JUndefined), st)
    /\ In (NodeStatus nodeId Error) (trace st)
    /\ In (NodeUpdate nodeId
             [("error", JStr (String.append "Unknown node type: " (type (data node))))])
          (trace st)
    /\ (forall kind, ~ In (HandlerCall nodeId kind) (trace st))
    /\ forall later e, In later post -> In e (trace st) -> eventNode e <> Some later.
Proof.
  intros Hb Ho Hpre Hs Hf Hkind.
  assert (handlerRunOf ctx env node (executionData st1) = None) as Hrun
      by (unfold handlerRunOf; rewrite Hkind; reflexivity).
  assert (nodeResult ctx env node (executionData st1)
          = failure (String.append "Unknown node type: " (type (data node)))) as Hres
      by (unfold nodeResult; rewrite Hrun; reflexivity).
  assert (nodeThrows ctx env node (executionData st1) = None) as Hthrow
      by (unfold nodeThrows, handlerThrows; rewrite Hrun; reflexivity).
  destruct (@failing_step_ends_run ctx env order pre nodeId post node st1
              Hb Ho Hpre Hs Hf) as (st & Hex & Htrace & _ & Herr & Hlater);
    [rewrite Hres; reflexivity|].
  rewrite Hthrow, Hres in Hex.
  exists st. split; [exact Hex|]. split; [exact Herr|].
  pose proof (buildExecutionOrder_NoDup _ _ Hb) as Hnd.
  subst order. destruct (@findNode_some _ _ _ Hf) as [Hid _].
  rewrite Htrace.
  split; [|split; [|rewrite <- Htrace; exact Hlater]].
  - apply in_or_app. right. unfold nodeEvents, terminalEvents, reportedError, handlerThrows.
    rewrite Hthrow, Hres, Hrun, Hid. cbn [success failure message].
    right. apply in_or_app. right. apply in_or_app. right.
    right. apply in_or_app. right. left. reflexivity.
  - intros kind Hin. apply in_app_or in Hin. destruct Hin as [Hin|Hin].
    + destruct (@prefix_extends ctx env pre _ _ _ Hnd Hpre) as [evs new H1 _ _ _ H5 _ _].
      simpl in H1. rewrite H1 in Hin.
      apply NoDup_remove_2 in Hnd. apply Hnd. apply in_or_app. left.
      exact (H5 _ _ Hin eq_refl).
    + unfold nodeEvents, terminalEvents, handlerEvents, edgeEvents in Hin.
      rewrite Hthrow, Hres, Hrun in Hin. cbn [success failure] in Hin.
      destruct (hasOnEdgeUpdate ctx); simpl in Hin;
        repeat (destruct Hin as [Hin|Hin]; [discriminate|]); exact Hin.
Qed.

(** * Further properties of the scheduler *)

(** ** The queue is first in, first out *)

(** The inner [forEach] only appends to the queue, and only neighbours
    of the dequeued node. *)
Lemma fold_relax_queue l :
  forall deg q,
    exists extra,
      snd (fold_left relax l (deg, q)) = q ++ extra /\ incl extra l.
Proof.
  induction l as [|x l IH]; intros deg q; simpl.
  - exists []. rewrite app_nil_r. split; [reflexivity | intros y []].
  - unfold relax at 2. cbn [fst snd].
    destruct (Z.eqb (orZero (JsMap.get deg x) - 1) 0).
    + destruct (IH (JsMap.set deg x (orZero (JsMap.get deg x) - 1)%Z) (q ++ [x]))
        as (extra & -> & Hincl).
      exists (x :: extra). rewrite <- app_assoc. split; [reflexivity|].
      intros y [<-|Hy]; [left; reflexivity | right; exact (Hincl y Hy)].
    + destruct (IH (JsMap.set deg x (orZero (JsMap.get deg x) - 1)%Z) q)
        as (extra & -> & Hincl).
      exists extra. split; [reflexivity|].
      intros y Hy. right. exact (Hincl y Hy).
Qed.

Lemma relaxAll_queue adj n deg q :
  exists extra,
    snd (relaxAll adj n (deg, q)) = q ++ extra
    /\ forall x, In x extra -> exists l, JsMap.get adj n = Some l /\ In x l.
Proof.
  unfold relaxAll. destruct (JsMap.get adj n) as [l|].
  - destruct (fold_relax_queue l deg q) as (extra & H & Hincl).
    exists extra. split; [exact H|]. intros x Hx. exists l. split; [reflexivity | exact (Hincl x Hx)].
  - exists []. rewrite app_nil_r. split; [reflexivity | intros x []].
Qed.

(** The loop keeps what is already in the result and in the queue at
    the head of its result, in that order. *)
Lemma kahnLoop_prefix adj deg queue result :
  exists tail, kahnLoop adj (deg, queue) result = result ++ queue ++ tail.
Proof.
  destruct (kahnLoop_invariant adj
              (fun _ q r => exists tail, r ++ q = result ++ queue ++ tail))
    with (s := (deg, queue)) (result := result) as (deg' & tail & H).
  - intros d n q r (tail & H).
    destruct (relaxAll_queue adj n d q) as (extra & -> & _).
    exists (tail ++ extra). rewrite <- (app_assoc r [n]). simpl.
    change (n :: q ++ extra) with ((n :: q) ++ extra).
    rewrite app_assoc, H, <- !app_assoc. reflexivity.
  - exists []. simpl. rewrite app_nil_r. reflexivity.
  - exists tail. rewrite app_nil_r in H. exact H.
Qed.

Lemma initNode_keys_list nodes :
  forall g,
    NoDup (JsMap.keys (inDegree g) ++ stepIds nodes) ->
    JsMap.keys (inDegree (fold_left initNode nodes g))
    = JsMap.keys (inDegree g) ++ stepIds nodes.
Proof.
  induction nodes as [|n nodes IH]; intros g Hnd; simpl.
  - rewrite app_nil_r. reflexivity.
  - assert (~ In (id n) (JsMap.keys (inDegree g))) as Hfresh.
    { intros Hin. simpl in Hnd. apply NoDup_remove_2 in Hnd. apply Hnd.
      apply in_or_app. left. exact Hin. }
    rewrite IH; simpl; rewrite set_fresh by exact Hfresh;
      unfold JsMap.keys; rewrite map_app; simpl; rewrite <- app_assoc; [reflexivity|].
    exact Hnd.
Qed.

Lemma addEdge_keys_list edges :
  forall g,
    (forall e, In e edges -> In (target e) (JsMap.keys (inDegree g))) ->
    JsMap.keys (inDegree (fold_left addEdge edges g)) = JsMap.keys (inDegree g).
Proof.
  induction edges as [|e edges IH]; intros g H; simpl; [reflexivity|].
  assert (JsMap.keys (inDegree (addEdge g e)) = JsMap.keys (inDegree g)) as Hk
      by (simpl; apply keys_set_in, H; left; reflexivity).
  rewrite IH; [exact Hk|].
  intros e' He'. rewrite Hk. apply H. right. exact He'.
Qed.

(** On a well-formed graph the keys of [inDegree] are the step ids in
    node-list order. *)
Lemma buildGraph_keys_list nodes edges :
  wellFormed nodes edges ->
  JsMap.keys (inDegree (buildGraph nodes edges)) = stepIds nodes.
Proof.
  intros [Hnd Hclosed]. unfold buildGraph.
  assert (JsMap.keys (inDegree (fold_left initNode nodes (mkGraph [] []))) = stepIds nodes)
    as Hinit by (rewrite initNode_keys_list; [reflexivity | exact Hnd]).
  rewrite addEdge_keys_list; [exact Hinit|].
  intros e He. rewrite Hinit. apply Hclosed. exact He.
Qed.

Lemma initialQueue_filter (deg : list (string * Z)) :
  NoDup (JsMap.keys deg) ->
  initialQueue deg
  = filter (fun k => Z.eqb (orZero (JsMap.get deg k)) 0) (JsMap.keys deg).
Proof.
  unfold initialQueue. induction deg as [|[k z] deg IH]; intros Hnd; [reflexivity|].
  simpl in Hnd. apply NoDup_cons_iff in Hnd. destruct Hnd as [Hnotin Hnd].
  cbn [filter map JsMap.keys fst snd JsMap.get]. rewrite String.eqb_refl, orZero_some.
  assert (filter (fun k0 => Z.eqb (orZero (if String.eqb k k0 then Some z
                                           else JsMap.get deg k0)) 0) (map fst deg)
          = filter (fun k0 => Z.eqb (orZero (JsMap.get deg k0)) 0) (map fst deg)) as Hrest.
  { apply filter_ext_in. intros k0 Hk0.
    destruct (String.eqb_spec k k0) as [->|_]; [contradiction | reflexivity]. }
  rewrite Hrest. specialize (IH Hnd). unfold JsMap.keys in IH. rewrite <- IH.
  destruct (Z.eqb z 0); reflexivity.
Qed.

(** X9. On a well-formed graph the execution order begins with the steps
    that have no incoming connection, in the order of the node list: the
    queue is seeded from the node list and served first in, first out, so
    each of these steps runs before any step that has an incoming
    connection. *)
Theorem entry_steps_run_first nodes edges order :
  wellFormed nodes edges ->
  buildExecutionOrder nodes edges = Returned order ->
  exists tail,
    order = entrySteps nodes edges ++ tail
    /\ forall i, In i tail -> indegree edges i <> 0.
Proof.
  intros Hwf Hb.
  destruct (returned_order_facts Hwf Hb) as (Hperm & _ & _).
  pose proof (buildExecutionOrder_NoDup _ _ Hb) as Hnd.
  rewrite buildExecutionOrder_scheduled in Hb.
  destruct (Nat.eqb _ _); [|discriminate]. injection Hb as <-.
  assert (initialQueue (inDegree (buildGraph nodes edges)) = entrySteps nodes edges) as Hq.
  { rewrite initialQueue_filter by apply buildGraph_keys_NoDup.
    rewrite (buildGraph_keys_list Hwf). unfold entrySteps. apply filter_ext. intros k.
    rewrite buildGraph_degree.
    destruct (Nat.eqb_spec (indegree edges k) 0) as [->|Hne]; [reflexivity|].
    apply Z.eqb_neq. lia. }
  unfold scheduled in *.
  destruct (kahnLoop_prefix (adjacencyList (buildGraph nodes edges))
              (inDegree (buildGraph nodes edges))
              (initialQueue (inDegree (buildGraph nodes edges))) []) as (tail & Htail).
  simpl in Htail. rewrite Hq in *. exists tail. split; [exact Htail|].
  intros i Hi Hzero. rewrite Htail in Hnd, Hperm.
  assert (In i (entrySteps nodes edges)) as Hentry.
  { unfold entrySteps. apply filter_In. split; [|rewrite Hzero; reflexivity].
    apply (Permutation_in _ Hperm). apply in_or_app. right. exact Hi. }
  exact (@NoDup_app_disjoint _ _ _ Hnd Hentry Hi).
Qed.

(** ** Steps that share an id *)

Lemma nodup_length_le (l : list string) :
  List.length (nodup string_dec l) <= List.length l.
Proof.
  induction l as [|a l IH]; simpl; [lia|].
  destruct (in_dec string_dec a l); simpl; lia.
Qed.

Lemma nodup_length_lt (l : list string) :
  ~ NoDup l -> List.length (nodup string_dec l) < List.length l.
Proof.
  induction l as [|a l IH]; intros Hdup; simpl.
  - exfalso. apply Hdup. constructor.
  - pose proof (nodup_length_le l) as Hle.
    destruct (in_dec string_dec a l) as [Hin|Hnotin]; simpl; [lia|].
    assert (~ NoDup l) as Hdup' by (intros H; apply Hdup; constructor; assumption).
    specialize (IH Hdup'). lia.
Qed.

(** Whatever the graph, the loop only ever dequeues keys of [inDegree]:
    step ids and targets of connections. *)
Lemma scheduled_keys nodes edges :
  incl (scheduled nodes edges) (JsMap.keys (inDegree (buildGraph nodes edges))).
Proof.
  set (K := JsMap.keys (inDegree (buildGraph nodes edges))).
  destruct (kahnLoop_invariant (adjacencyList (buildGraph nodes edges))
              (fun _ q r => incl (r ++ q) K))
    with (s := (inDegree (buildGraph nodes edges),
                initialQueue (inDegree (buildGraph nodes edges))))
         (result := @nil string) as (deg' & H).
  - intros d n q r Hincl.
    destruct (relaxAll_queue (adjacencyList (buildGraph nodes edges)) n d q)
      as (extra & -> & Hextra).
    intros x Hx. rewrite <- app_assoc in Hx. simpl in Hx.
    apply in_app_or in Hx. destruct Hx as [Hx|[<-|Hx]].
    + apply Hincl. apply in_or_app. left. exact Hx.
    + apply Hincl. apply in_or_app. right. left. reflexivity.
    + apply in_app_or in Hx. destruct Hx as [Hx|Hx].
      * apply Hincl. apply in_or_app. right. right. exact Hx.
      * destruct (Hextra x Hx) as (l & Hl & Hin).
        rewrite buildGraph_adjacency in Hl.
        destruct (memb n (stepIds nodes)); [|discriminate]. injection Hl as <-.
        unfold targetsFrom in Hin. apply in_map_iff in Hin.
        destruct Hin as (e & <- & He). apply filter_In in He.
        apply buildGraph_keys. right. exists e. tauto.
  - simpl. intros x Hx. apply initialQueue_in in Hx.
    unfold K, JsMap.keys. apply in_map_iff. exists (x, 0%Z). tauto.
  - rewrite app_nil_r in H. exact H.
Qed.

(** X8. When two steps share an id and no connection points outside the
    graph, [buildExecutionOrder] throws the cycle error, whether or not the
    connections contain a cycle: the in-degree map has one key per distinct
    id, so the order is shorter than the node list. [execute] returns the
    cycle message and issues no callback. *)
Theorem duplicate_ids_reported_as_cycle ctx env st0 :
  (forall e, In e (edges ctx) -> In (target e) (stepIds (nodes ctx))) ->
  ~ NoDup (stepIds (nodes ctx)) ->
  buildExecutionOrder (nodes ctx) (edges ctx) = Thrown (mkError cycleMessage)
  /\ execute ctx env st0
     = (Returned (failure cycleMessage), mkState [] false (trace st0)).
Proof.
  intros Htargets Hdup.
  assert (buildExecutionOrder (nodes ctx) (edges ctx) = Thrown (mkError cycleMessage)) as Hb.
  { rewrite buildExecutionOrder_scheduled.
    destruct (Nat.eqb_spec (List.length (scheduled (nodes ctx) (edges ctx)))
                (List.length (nodes ctx))) as [Hlen|_]; [exfalso | reflexivity].
    assert (NoDup (scheduled (nodes ctx) (edges ctx))) as Hnd
        by (apply kahnLoop_NoDup, initial_settled, buildGraph_keys_NoDup).
    assert (incl (scheduled (nodes ctx) (edges ctx))
              (nodup string_dec (stepIds (nodes ctx)))) as Hincl.
    { intros x Hx. apply nodup_In. apply scheduled_keys in Hx.
      apply buildGraph_keys in Hx. destruct Hx as [Hx|(e & He & <-)];
        [exact Hx | exact (Htargets e He)]. }
    pose proof (NoDup_incl_length Hnd Hincl) as Hle.
    pose proof (nodup_length_lt Hdup) as Hlt.
    unfold stepIds in Hlt at 2. rewrite length_map in Hlt. lia. }
  split; [exact Hb|].
  unfold execute, tryCatch, bind, liftExc. rewrite Hb. reflexivity.
Qed.

(** ** The properties on concrete graphs *)

Lemma numbered_wellFormed : wellFormed (nodes numbered) (edges numbered).
Proof.
  split.
  - repeat constructor; simpl; intuition discriminate.
  - intros e [<-|[]]; simpl; tauto.
Qed.

Lemma successful_run_covers_every_step_witness :
  exists r st,
    execute numbered numberedAccepted initialState = (Returned r, st)
    /\ buildExecutionOrder (nodes numbered) (edges numbered) = Returned ["2"; "1"]
    /\ JsMap.keys (executionData st) = ["2"; "1"]
    /\ r = mkResult true (JStr "Workflow executed successfully")
             (JObj [("summary", JStr "summary");
                    ("executionData",
                     JObj [("1", JObj [("success", JBool true); ("abi", JArr []);
                                       ("bytecode", JStr "0x00")]);
                           ("2", JObj [("contractCode", JStr tokenSource);
                                       ("contractName", JStr "Token")])])]).
Proof.
  pose proof (@successful_run_covers_every_step numbered numberedAccepted
                (mkResult true (JStr "Workflow executed successfully")
                   (successData numberedAccepted
                      (executionData (snd (execute numbered numberedAccepted initialState)))))
                (snd (execute numbered numberedAccepted initialState))
                numbered_wellFormed) as H.
  do 2 premise H.
  destruct H as (H1 & _).
  do 2 eexists. split; [by_computation|].
  split; [rewrite H1; by_computation|]. split; by_computation.
Defined.

Lemma edge_updates_keep_connections_witness :
  hasOnEdgeUpdate pipeline = true
  /\ In (EdgeUpdate [mkEdge "e1" "A" "B" None (Some Running);
                     mkEdge "e2" "B" "C" (Some Running) None])
        (trace (snd (execute pipeline pipelineAccepted initialState))).
Proof.
  assert (In (EdgeUpdate [mkEdge "e1" "A" "B" None (Some Running);
                          mkEdge "e2" "B" "C" (Some Running) None])
            (trace (snd (execute pipeline pipelineAccepted initialState)))) as Hin
      by (vm_compute; tauto).
  split; [|exact Hin].
  exact (proj1 (@edge_updates_keep_connections pipeline pipelineAccepted _ Hin)).
Defined.

Lemma entry_steps_run_first_witness :
  exists tail, ["A"; "B"; "C"] = entrySteps (nodes pipeline) (edges pipeline) ++ tail.
Proof.
  destruct (@entry_steps_run_first (nodes pipeline) (edges pipeline) ["A"; "B"; "C"]
              pipeline_wellFormed execute_pipeline_order) as (tail & H & _).
  exists tail. exact H.
Defined.

Lemma twins_share_an_id : ~ NoDup (stepIds (nodes twins)).
Proof.
  intros Hnd. simpl in Hnd. apply NoDup_cons_iff in Hnd.
  destruct Hnd as [Hnotin _]. apply Hnotin. left. reflexivity.
Qed.

Lemma twins_targets e : In e (edges twins) -> In (target e) (stepIds (nodes twins)).
Proof. intros [<-|[]]. simpl. tauto. Qed.

Lemma duplicate_ids_reported_as_cycle_witness :
  execute twins allSucceed initialState
  = (Returned (failure cycleMessage), initialState).
Proof.
  exact (proj2 (@duplicate_ids_reported_as_cycle twins allSucceed initialState
                  twins_targets twins_share_an_id)).
Defined.

Lemma unknown_kind_fails_the_run_witness :
  exists st,
    execute strayKind strayKindAccepted initialState
    = (Returned
         (mkResult false
            (JStr (String.append "Failed at node "
                     (String "034"
                        (String.append "B"
                           (String "034" ": Unknown node type: webhook")))))
            JUndefined), st)
    /\ forall e, In e (trace st) -> eventNode e <> Some "C".
Proof.
  pose proof (@unknown_kind_fails_the_run strayKind strayKindAccepted
                ["A"; "B"; "C"] ["A"] "B" ["C"] (plainNode "B" "webhook")
                (snd (runOrder strayKind strayKindAccepted ["A"] initialState))) as H.
  do 6 premise H.
  destruct H as (st & H1 & _ & _ & _ & H2).
  exists st. split; [exact H1|].
  intros e. apply H2. left. reflexivity.
Defined.

(** * The store and the execution hook *)

(** ** Schedulable graphs *)

(** A graph with unique step ids and no dangling connection is
    schedulable when [buildExecutionOrder] returns a permutation of its step
    ids in which every connection goes forward. *)
Lemma acyclic_scheduled nodes edges :
  wellFormed nodes edges ->
  acyclic nodes edges ->
  buildExecutionOrder nodes edges = Returned (scheduled nodes edges)
  /\ Permutation (scheduled nodes edges) (stepIds nodes)
  /\ forall e, In e edges ->
       indexOf (scheduled nodes edges) (source e) < indexOf (scheduled nodes edges) (target e).
Proof.
  intros Hwf Hacyclic.
  assert (incl (stepIds nodes) (scheduled nodes edges)) as Hall.
  { intros v Hv. destruct (in_dec string_dec v (scheduled nodes edges)) as [Hin|Hnot];
      [exact Hin|]. exfalso.
    destruct (closed_set_has_cycle (connected nodes edges)
                (fun x => In x (stepIds nodes) /\ ~ In x (scheduled nodes edges))
                (stepIds nodes) v) as (x & Hx).
    - tauto.
    - tauto.
    - intros w [Hw Hnw]. destruct (unscheduled_predecessor Hwf w Hw Hnw) as (u & Hu & Hnu & Huw).
      exists u. tauto.
    - exact (Hacyclic x Hx). }
  assert (Permutation (scheduled nodes edges) (stepIds nodes)) as Hperm.
  { apply NoDup_Permutation.
    - apply scheduled_NoDup. exact Hwf.
    - apply Hwf.
    - intros x. split; [apply scheduled_steps; exact Hwf | apply Hall]. }
  split; [|split].
  - rewrite buildExecutionOrder_scheduled.
    rewrite (Permutation_length Hperm). unfold stepIds. rewrite length_map.
    rewrite Nat.eqb_refl. reflexivity.
  - exact Hperm.
  - intros e He. apply (scheduled_respects Hwf e He). apply Hall. apply Hwf. exact He.
Qed.

(** A graph whose connections are among those of an acyclic graph is
    acyclic. *)
Lemma acyclic_sub nodes edges nodes' edges' :
  (forall u v, connected nodes' edges' u v -> connected nodes edges u v) ->
  acyclic nodes edges -> acyclic nodes' edges'.
Proof.
  intros Hsub Hacyclic v Hv. apply (Hacyclic v).
  assert (forall a b, clos_trans string (connected nodes' edges') a b ->
                      clos_trans string (connected nodes edges) a b) as Hmono.
  { intros a b H. induction H as [a b H|a c b _ IH1 _ IH2].
    - apply t_step. exact (Hsub _ _ H).
    - exact (t_trans _ _ _ _ _ IH1 IH2). }
  exact (Hmono _ _ Hv).
Qed.

Lemma stepIds_filter nodes (keep : string -> bool) :
  stepIds (filter (fun n => keep (id n)) nodes) = filter keep (stepIds nodes).
Proof.
  unfold stepIds. induction nodes as [|n nodes IH]; simpl; [reflexivity|].
  destruct (keep (id n)); simpl; rewrite IH; reflexivity.
Qed.

(** ** Removing and adding a step *)

(** X11. [removeNode] keeps a schedulable graph schedulable. From a
    graph with unique step ids, no dangling connection and no cycle, it
    leaves such a graph again: the removed id is no step and no end point of
    a connection any more, the other steps and the connections between them
    are kept in their order, and [buildExecutionOrder] returns a permutation
    of the remaining step ids in which every remaining connection goes
    forward. *)
Theorem remove_node_keeps_graph_schedulable removed st :
  wellFormed (Store.nodes st) (Store.edges st) ->
  acyclic (Store.nodes st) (Store.edges st) ->
  let st' := Store.removeNode removed st in
  wellFormed (Store.nodes st') (Store.edges st')
  /\ acyclic (Store.nodes st') (Store.edges st')
  /\ stepIds (Store.nodes st')
     = filter (fun i => negb (String.eqb i removed)) (stepIds (Store.nodes st))
  /\ (forall e, In e (Store.edges st') <->
        In e (Store.edges st) /\ source e <> removed /\ target e <> removed)
  /\ exists order,
       buildExecutionOrder (Store.nodes st') (Store.edges st') = Returned order
       /\ Permutation order (stepIds (Store.nodes st'))
       /\ forall e, In e (Store.edges st') ->
            indexOf order (source e) < indexOf order (target e).
Proof.
  intros [Hnd Hclosed] Hacyclic st'.
  assert (stepIds (Store.nodes st')
          = filter (fun i => negb (String.eqb i removed)) (stepIds (Store.nodes st))) as Hids
      by (apply (stepIds_filter (Store.nodes st) (fun i => negb (String.eqb i removed)))).
  assert (forall e, In e (Store.edges st') <->
            In e (Store.edges st) /\ source e <> removed /\ target e <> removed) as Hedges.
  { intros e. unfold st'. cbn [Store.removeNode Store.edges]. rewrite filter_In.
    rewrite andb_true_iff, !negb_true_iff, !String.eqb_neq. tauto. }
  assert (wellFormed (Store.nodes st') (Store.edges st')) as Hwf'.
  { split.
    - rewrite Hids. apply NoDup_filter. exact Hnd.
    - intros e He. apply Hedges in He. destruct He as (He & Hs & Ht).
      rewrite Hids. rewrite !filter_In, !negb_true_iff, !String.eqb_neq.
      destruct (Hclosed e He). tauto. }
  assert (acyclic (Store.nodes st') (Store.edges st')) as Hacyclic'.
  { apply (acyclic_sub (nodes := Store.nodes st) (edges := Store.edges st)); [|exact Hacyclic].
    intros u v (Hu & Hv & e & He & Hs & Ht). rewrite Hids in Hu, Hv.
    apply filter_In in Hu, Hv. apply Hedges in He. repeat split; try tauto.
    exists e. tauto. }
  split; [exact Hwf'|]. split; [exact Hacyclic'|]. split; [exact Hids|].
  split; [exact Hedges|].
  exists (scheduled (Store.nodes st') (Store.edges st')).
  exact (acyclic_scheduled Hwf' Hacyclic').
Qed.

(** X12. [addNode] appends the node. When its id is new, a schedulable
    graph stays schedulable and the order gains the new step; when the id is
    already the id of a step, every later run of the graph ends with the
    cycle error. *)
Theorem add_node_needs_a_fresh_id node st :
  wellFormed (Store.nodes st) (Store.edges st) ->
  acyclic (Store.nodes st) (Store.edges st) ->
  let st' := Store.addNode node st in
  (~ In (id node) (stepIds (Store.nodes st)) ->
   exists order,
     buildExecutionOrder (Store.nodes st') (Store.edges st') = Returned order
     /\ Permutation order (id node :: stepIds (Store.nodes st))
     /\ forall e, In e (Store.edges st') ->
          indexOf order (source e) < indexOf order (target e))
  /\ (In (id node) (stepIds (Store.nodes st)) ->
      buildExecutionOrder (Store.nodes st') (Store.edges st')
      = Thrown (mkError cycleMessage)).
Proof.
  intros [Hnd Hclosed] Hacyclic st'.
  assert (stepIds (Store.nodes st') = stepIds (Store.nodes st) ++ [id node]) as Hids
      by (unfold st', stepIds; cbn [Store.addNode Store.nodes]; rewrite map_app; reflexivity).
  assert (forall e, In e (Store.edges st') ->
            In (source e) (stepIds (Store.nodes st'))
            /\ In (target e) (stepIds (Store.nodes st'))) as Hclosed'.
  { intros e He. rewrite Hids, !in_app_iff. destruct (Hclosed e He). tauto. }
  split.
  - intros Hfresh.
    assert (wellFormed (Store.nodes st') (Store.edges st')) as Hwf'.
    { split; [|exact Hclosed']. rewrite Hids.
      apply NoDup_app; [exact Hnd | repeat constructor; simpl; tauto |].
      intros x Hx [<-|[]]. contradiction. }
    assert (acyclic (Store.nodes st') (Store.edges st')) as Hacyclic'.
    { apply (acyclic_sub (nodes := Store.nodes st) (edges := Store.edges st));
        [|exact Hacyclic].
      intros u v (_ & _ & e & He & Hs & Ht). destruct (Hclosed e He) as [H1 H2].
      rewrite Hs in H1. rewrite Ht in H2. repeat split; try assumption.
      exists e. tauto. }
    destruct (acyclic_scheduled Hwf' Hacyclic') as (Hb & Hperm & Hresp).
    exists (scheduled (Store.nodes st') (Store.edges st')).
    split; [exact Hb|]. split; [|exact Hresp].
    rewrite Hids in Hperm. apply (Permutation_trans Hperm).
    apply Permutation_sym, Permutation_cons_append.
  - intros Hin. rewrite buildExecutionOrder_scheduled.
    destruct (Nat.eqb_spec (List.length (scheduled (Store.nodes st') (Store.edges st')))
                (List.length (Store.nodes st'))) as [Hlen|_]; [exfalso | reflexivity].
    assert (NoDup (scheduled (Store.nodes st') (Store.edges st'))) as Hnd'
        by (apply kahnLoop_NoDup, initial_settled, buildGraph_keys_NoDup).
    assert (incl (scheduled (Store.nodes st') (Store.edges st'))
              (stepIds (Store.nodes st))) as Hincl.
    { intros x Hx. apply scheduled_keys in Hx. apply buildGraph_keys in Hx.
      destruct Hx as [Hx|(e & He & <-)].
      - rewrite Hids in Hx. apply in_app_or in Hx. destruct Hx as [Hx|[<-|[]]]; assumption.
      - exact (proj2 (Hclosed e He)). }
    pose proof (NoDup_incl_length Hnd' Hincl) as Hle.
    assert (List.length (Store.nodes st') = S (List.length (Store.nodes st))) as Hgrow
        by (unfold st'; cbn [Store.addNode Store.nodes]; rewrite length_app; simpl; lia).
    unfold stepIds in Hle. rewrite length_map in Hle. lia.
Qed.

(** ** The order depends on ids and end points only *)

Lemma fold_initNode_ids nodes :
  forall nodes' g,
    stepIds nodes = stepIds nodes' ->
    fold_left initNode nodes g = fold_left initNode nodes' g.
Proof.
  induction nodes as [|n nodes IH]; intros [|n' nodes'] g H; try discriminate; [reflexivity|].
  simpl in H. injection H as Hid Hrest. simpl.
  assert (initNode g n = initNode g n') as -> by (unfold initNode; rewrite Hid; reflexivity).
  apply IH. exact Hrest.
Qed.

Lemma fold_addEdge_connection edges :
  forall edges' g,
    map connection edges = map connection edges' ->
    fold_left addEdge edges g = fold_left addEdge edges' g.
Proof.
  induction edges as [|e edges IH]; intros [|e' edges'] g H; try discriminate; [reflexivity|].
  simpl in H. injection H as _ Hs Ht Hrest. simpl.
  assert (addEdge g e = addEdge g e') as -> by (unfold addEdge; rewrite Hs, Ht; reflexivity).
  apply IH. exact Hrest.
Qed.

Lemma buildExecutionOrder_ext nodes nodes' edges edges' :
  stepIds nodes = stepIds nodes' ->
  map connection edges = map connection edges' ->
  buildExecutionOrder nodes edges = buildExecutionOrder nodes' edges'.
Proof.
  intros Hn He. unfold buildExecutionOrder, buildGraph.
  rewrite (fold_initNode_ids nodes nodes' _ Hn), (fold_addEdge_connection edges edges' _ He).
  assert (List.length nodes = List.length nodes') as ->
      by (rewrite <- (length_map id nodes), <- (length_map id nodes'); exact (f_equal _ Hn)).
  reflexivity.
Qed.

(** ** What a run does to the store *)

(** Every edge list a run passes to [onEdgeUpdate] has the connections
    of the context. *)
Lemma execute_edge_updates ctx env es :
  In (EdgeUpdate es) (trace (snd (execute ctx env initialState))) ->
  map connection es = map connection (edges ctx).
Proof.
  destruct (execute_total ctx env initialState) as (res & st & Hex). rewrite Hex. simpl.
  destruct (execute_cases _ _ Hex) as [[-> _]|(order & r & _ & _ & Hrun & _)];
    [intros []|].
  destruct (runOrder_events _ _ _ _ Hrun) as (evs & H1 & H2). simpl in H1. rewrite H1.
  intros Hin. destruct (H2 _ Hin) as (node & d & _ & He).
  destruct (nodeEvents_edgeUpdate He) as (_ & status & _ & ->).
  rewrite map_map. apply map_ext. intros e. apply setEdgeStatus_connection.
Qed.

Lemma stepIds_updateNode updated merged st :
  stepIds (Store.nodes (Store.updateNode updated merged st)) = stepIds (Store.nodes st).
Proof.
  unfold stepIds. cbn [Store.updateNode Store.nodes]. rewrite map_map.
  apply map_ext. intros n. destruct (String.eqb (id n) updated); reflexivity.
Qed.

Lemma fold_onCallback_graph spread (C : list (string * string * string)) t :
  (forall es, In (EdgeUpdate es) t -> map connection es = C) ->
  forall st,
    map connection (Store.edges st) = C ->
    stepIds (Store.nodes (fold_left (onCallback spread) t st)) = stepIds (Store.nodes st)
    /\ map connection (Store.edges (fold_left (onCallback spread) t st)) = C.
Proof.
  induction t as [|e t IH]; intros Hupd st Hc; [split; [reflexivity | exact Hc]|].
  simpl fold_left.
  assert (forall es, In (EdgeUpdate es) t -> map connection es = C) as Hupd'
      by (intros es Hes; apply Hupd; right; exact Hes).
  destruct e as [i s|i patch|es|i k]; cbn [onCallback].
  - exact (IH Hupd' (Store.setExecutionState (Store.mkExecutionState i s JUndefined None) st)
             Hc).
  - destruct (IH Hupd' (Store.updateNode i (fun d => spread d patch) st) Hc) as [H1 H2].
    rewrite H1, H2, stepIds_updateNode. split; reflexivity.
  - apply (IH Hupd' (Store.setEdges es st)). apply Hupd. left. reflexivity.
  - apply (IH Hupd'). exact Hc.
Qed.

(** X13. A run changes neither the step ids of the store nor the ids
    and end points of its connections: [updateNode] merges data into a node
    and keeps its id, and every edge list that [setEdges] receives from the
    executor has the connections of the graph the run began with. So
    [buildExecutionOrder] gives for the store after the run what it gave
    before: a second run executes the steps in the same order. *)
Theorem run_keeps_the_execution_order spread env st :
  stepIds (Store.nodes (runWorkflow spread env st)) = stepIds (Store.nodes st)
  /\ map connection (Store.edges (runWorkflow spread env st))
     = map connection (Store.edges st)
  /\ buildExecutionOrder (Store.nodes (runWorkflow spread env st))
       (Store.edges (runWorkflow spread env st))
     = buildExecutionOrder (Store.nodes st) (Store.edges st).
Proof.
  assert (stepIds (Store.nodes (runWorkflow spread env st)) = stepIds (Store.nodes st)
          /\ map connection (Store.edges (runWorkflow spread env st))
             = map connection (Store.edges st)) as [H1 H2].
  { unfold runWorkflow. destruct (Store.isExecuting st); [tauto|].
    destruct (Nat.eqb _ _); [tauto|].
    cbn [Store.setIsExecuting Store.nodes Store.edges].
    destruct (@fold_onCallback_graph spread (map connection (Store.edges st))
                (trace (snd (execute (mkContext (Store.nodes st) (Store.edges st) true)
                               env initialState)))
                (fun es Hes => execute_edge_updates _ _ _ Hes)
                (beginRun st) eq_refl) as [H1 H2].
    split; [exact H1 | exact H2]. }
  split; [exact H1|]. split; [exact H2|].
  apply buildExecutionOrder_ext; assumption.
Qed.

(** ** Execution states after a run *)

Lemma fold_onCallback_states spread t :
  forall st,
    Store.executionStates (fold_left (onCallback spread) t st)
    = fold_left recordStatus (statusCalls t) (Store.executionStates st).
Proof.
  induction t as [|e t IH]; intros st; [reflexivity|].
  simpl fold_left. rewrite IH. destruct e as [i s|i patch|es|i k]; reflexivity.
Qed.

Lemma replaceState_fresh states entry :
  ~ In (Store.nodeId entry) (map Store.nodeId states) ->
  Store.replaceState states entry = None.
Proof.
  induction states as [|s states IH]; simpl; [reflexivity|].
  intros H. destruct (String.eqb_spec (Store.nodeId s) (Store.nodeId entry)) as [E|_];
    [tauto|].
  rewrite IH by tauto. reflexivity.
Qed.

Lemma replaceState_last states old entry :
  ~ In (Store.nodeId entry) (map Store.nodeId states) ->
  Store.nodeId old = Store.nodeId entry ->
  Store.replaceState (states ++ [old]) entry = Some (states ++ [entry]).
Proof.
  induction states as [|s states IH]; simpl; intros H Hid.
  - rewrite Hid, String.eqb_refl. reflexivity.
  - destruct (String.eqb_spec (Store.nodeId s) (Store.nodeId entry)) as [E|_]; [tauto|].
    rewrite IH by tauto. reflexivity.
Qed.

Lemma recordStatus_sequential calls :
  Sequential calls ->
  forall states,
    NoDup (map Store.nodeId states ++ map fst (filter (fun c => isRunning (snd c)) calls)) ->
    fold_left recordStatus calls states
    = states ++ map statusEntry (filter (fun c => negb (isRunning (snd c))) calls).
Proof.
  induction 1 as [|i s rest Hs _ IH]; intros states Hnd.
  - simpl. rewrite app_nil_r. reflexivity.
  - assert (isRunning s = false) as Hterm by (destruct Hs as [->| ->]; reflexivity).
    cbn [filter fst snd isRunning map] in Hnd. rewrite Hterm in Hnd.
    assert (~ In i (map Store.nodeId states)) as Hfresh.
    { intros Hin. apply NoDup_remove_2 in Hnd. apply Hnd. apply in_or_app. tauto. }
    cbn [fold_left filter fst snd isRunning negb map]. rewrite Hterm. cbn [negb map].
    assert (recordStatus states (i, Running) = states ++ [statusEntry (i, Running)]) as ->.
    { unfold recordStatus. cbn [Store.setExecutionState Store.executionStates].
      rewrite replaceState_fresh by exact Hfresh. reflexivity. }
    assert (recordStatus (states ++ [statusEntry (i, Running)]) (i, s)
            = states ++ [statusEntry (i, s)]) as ->.
    { unfold recordStatus. cbn [Store.setExecutionState Store.executionStates].
      rewrite replaceState_last; [reflexivity | exact Hfresh | reflexivity]. }
    rewrite IH.
    + rewrite <- app_assoc. reflexivity.
    + rewrite map_app, <- app_assoc. exact Hnd.
Qed.

Lemma sequential_terminal_ids calls :
  Sequential calls ->
  map Store.nodeId (map statusEntry (filter (fun c => negb (isRunning (snd c))) calls))
  = map fst (filter (fun c => isRunning (snd c)) calls).
Proof.
  induction 1 as [|i s rest Hs _ IH]; [reflexivity|].
  assert (isRunning s = false) as Hterm by (destruct Hs as [->| ->]; reflexivity).
  cbn [filter fst snd isRunning negb map]. rewrite Hterm. cbn [negb map].
  rewrite IH. reflexivity.
Qed.

Lemma sequential_statuses calls :
  Sequential calls ->
  forall i s, In (i, s) calls -> s = Running \/ s = Success \/ s = Error.
Proof.
  induction 1 as [|j s' rest Hs _ IH]; intros i s; [intros []|].
  intros [[= _ <-]|[[= _ <-]|Hc]]; [tauto | tauto | exact (IH _ _ Hc)].
Qed.

Lemma in_statusCalls t i s : In (i, s) (statusCalls t) <-> In (NodeStatus i s) t.
Proof.
  induction t as [|e t IH]; simpl; [tauto|].
  destruct e as [j s'| | |]; simpl; rewrite IH;
    split; intros H; try tauto; try (destruct H as [H|H]; [discriminate | tauto]).
  - destruct H as [[= -> ->]|H]; tauto.
  - destruct H as [[= -> ->]|H]; tauto.
Qed.

(** The state a run ends in: the keys of the execution data are the
    steps that reached [Success], and no step that reached [Error] is
    among them. *)
Lemma execute_records_successes ctx env :
  JsMap.keys (executionData (snd (execute ctx env initialState)))
  = succeededIds (trace (snd (execute ctx env initialState)))
  /\ forall i,
       In (NodeStatus i Error) (trace (snd (execute ctx env initialState))) ->
       ~ In i (JsMap.keys (executionData (snd (execute ctx env initialState)))).
Proof.
  destruct (execute_total ctx env initialState) as (res & st & Hex). rewrite Hex. simpl.
  destruct (execute_cases _ _ Hex) as [[-> _]|(order & r & Hb & _ & Hrun & _)].
  - split; [reflexivity | intros i []].
  - destruct (@runOrder_extends ctx env order (buildExecutionOrder_NoDup _ _ Hb) _ _ _
                (initial_fresh order) Hrun) as [evs new H1 H2 H3 _ _ H6 _].
    simpl in H1, H2. rewrite H1, H2. split; [exact H3 | exact H6].
Qed.

(** X14. When [runWorkflow] has run the executor (the store was not
    marked as executing and held at least one node), the store holds one
    execution state per started step, in the order in which the steps were
    started. Each of them is terminal: [Success] for a step whose output the
    executor recorded, [Error] for a step it did not record; none is left at
    [Running]. The running flag is off at the end, and it is already off
    when the executor starts, because [resetExecution] clears the flag that
    [setIsExecuting(true)] has just set. *)
Theorem run_leaves_terminal_states spread env st :
  Store.isExecuting st = false ->
  Store.nodes st <> [] ->
  let final := snd (execute (mkContext (Store.nodes st) (Store.edges st) true)
                      env initialState) in
  map Store.nodeId (Store.executionStates (runWorkflow spread env st))
  = startedIds (trace final)
  /\ NoDup (map Store.nodeId (Store.executionStates (runWorkflow spread env st)))
  /\ (forall s, In s (Store.executionStates (runWorkflow spread env st)) ->
        (Store.status s = Success /\ In (Store.nodeId s) (JsMap.keys (executionData final)))
        \/ (Store.status s = Error
            /\ ~ In (Store.nodeId s) (JsMap.keys (executionData final))))
  /\ Store.isExecuting (runWorkflow spread env st) = false
  /\ Store.isExecuting (beginRun st) = false.
Proof.
  intros Hidle Hnodes final.
  set (ctx := mkContext (Store.nodes st) (Store.edges st) true) in *.
  destruct (execute_sequential ctx env) as (Hseq & Hnd & _).
  fold final in Hseq, Hnd.
  assert (Store.executionStates (runWorkflow spread env st)
          = map statusEntry
              (filter (fun c => negb (isRunning (snd c))) (statusCalls (trace final)))) as Hstates.
  { unfold runWorkflow. rewrite Hidle.
    destruct (Nat.eqb_spec (List.length (Store.nodes st)) 0) as [Hz|_].
    { destruct (Store.nodes st); [contradiction | discriminate]. }
    cbn [Store.setIsExecuting Store.executionStates].
    rewrite fold_onCallback_states. fold ctx. fold final.
    rewrite (recordStatus_sequential Hseq); [reflexivity|]. exact Hnd. }
  rewrite Hstates, (sequential_terminal_ids Hseq).
  split; [reflexivity|]. split; [exact Hnd|]. split; [|split].
  - intros s Hs. apply in_map_iff in Hs. destruct Hs as ([i status] & <- & Hc).
    apply filter_In in Hc. destruct Hc as [Hc Hterm]. cbn [snd] in Hterm.
    apply in_statusCalls in Hc.
    destruct (execute_records_successes ctx env) as [Hkeys Herr]. fold final in Hkeys, Herr.
    cbn [statusEntry Store.status Store.nodeId fst snd].
    assert (status = Success \/ status = Error) as [-> | ->].
    { apply in_statusCalls in Hc.
      destruct (sequential_statuses Hseq _ _ Hc) as [->|H]; [discriminate | exact H]. }
    + left. split; [reflexivity|]. rewrite Hkeys. apply in_succeededIds. exact Hc.
    + right. split; [reflexivity | exact (Herr _ Hc)].
  - unfold runWorkflow. rewrite Hidle. destruct (Nat.eqb _ _); [exact Hidle | reflexivity].
  - reflexivity.
Qed.

(** ** The store properties on the pipeline graph *)

Lemma remove_node_keeps_graph_schedulable_witness :
  exists order,
    buildExecutionOrder (Store.nodes (Store.removeNode "B" pipelineStore))
      (Store.edges (Store.removeNode "B" pipelineStore)) = Returned order
    /\ Permutation order ["A"; "C"].
Proof.
  destruct (@remove_node_keeps_graph_schedulable "B" pipelineStore
              pipeline_wellFormed pipeline_acyclic)
    as (_ & _ & _ & _ & order & H1 & H2 & _).
  exists order. split; [exact H1 | exact H2].
Defined.

Lemma add_node_needs_a_fresh_id_witness :
  exists order,
    buildExecutionOrder (Store.nodes (Store.addNode (plainNode "D" "deploy") pipelineStore))
      (Store.edges (Store.addNode (plainNode "D" "deploy") pipelineStore)) = Returned order
    /\ Permutation order ["D"; "A"; "B"; "C"].
Proof.
  destruct (@add_node_needs_a_fresh_id (plainNode "D" "deploy") pipelineStore
              pipeline_wellFormed pipeline_acyclic) as [H _].
  destruct H as (order & H1 & H2 & _).
  - simpl. intros [H|[H|[H|[]]]]; discriminate.
  - exists order. split; [exact H1 | exact H2].
Defined.

Lemma run_leaves_terminal_states_witness :
  map Store.nodeId (Store.executionStates (runWorkflow keepData compilerAnswers pipelineStore))
  = startedIds (trace (snd (execute pipeline compilerAnswers initialState))).
Proof.
  assert (Store.nodes pipelineStore <> []) as Hnodes by discriminate.
  exact (proj1 (@run_leaves_terminal_states keepData compilerAnswers pipelineStore
                  eq_refl Hnodes)).
Defined.

(** * The compiler client *)

(** ** Outcomes of [compileContract] *)

Lemma validation_message source :
  valid (validateSolidityCode source) = false ->
  exists msg,
    validationMessage (validateSolidityCode source) = Some msg
    /\ truthy (Some msg) = Some msg.
Proof.
  unfold validateSolidityCode.
  destruct (String.eqb source EmptyString || Nat.eqb (String.length (trim source)) 0);
    [intros _; eexists; split; reflexivity|].
  destruct (negb (includes source "pragma solidity"));
    [intros _; eexists; split; reflexivity|].
  destruct (jsMatch definitionRe source); [discriminate|].
  intros _; eexists; split; reflexivity.
Qed.

(** X15. [compileContract] reports success only on the word of the
    compiler service, and turns down an invalid source without asking it. If
    [validateSolidityCode] rejects the source, the result is
    [{ success: false, errors: [message] }] with the message of the
    validation, whatever the network would answer. If the result has
    [success: true], the source passed the validation, the request carried
    the source, the name and the version as given, the response was [ok], and
    the result is the body of the response. *)
Theorem compile_client_outcomes fetch source name version :
  (valid (validateSolidityCode source) = false ->
   exists msg,
     validationMessage (validateSolidityCode source) = Some msg
     /\ forall fetch',
          Compiler.compileContract fetch' source name version = Compiler.rejected [msg])
  /\ (Compiler.success (Compiler.compileContract fetch source name version) = true ->
      valid (validateSolidityCode source) = true
      /\ exists response,
           fetch (Compiler.mkRequest source name version) = Returned response
           /\ Compiler.ok response = true
           /\ Compiler.json response
              = Returned (Compiler.compileContract fetch source name version)).
Proof.
  split.
  - intros Hinvalid. destruct (validation_message source Hinvalid) as (msg & Hmsg & Htruthy).
    exists msg. split; [exact Hmsg|]. intros fetch'.
    unfold Compiler.compileContract. rewrite Hinvalid, Hmsg, Htruthy. reflexivity.
  - unfold Compiler.compileContract.
    destruct (valid (validateSolidityCode source)); [|discriminate]. cbn [negb].
    unfold Compiler.respond.
    destruct (fetch (Compiler.mkRequest source name version)) as [response|e];
      [|discriminate].
    destruct (Compiler.ok response) eqn:Hok; [|discriminate]. cbn [negb].
    destruct (Compiler.json response) as [result|e] eqn:Hjson; [|discriminate].
    intros _. split; [reflexivity|]. exists response. repeat split; assumption.
Qed.

(** ** The batch stops at the first failure *)

Lemma batchLoop_successes fetchAt pre :
  forall index rest results,
    (forall i c, nth_error pre i = Some c ->
       Compiler.success (compiledAt fetchAt (index + i) c) = true) ->
    Compiler.batchLoop fetchAt index (pre ++ rest) results
    = Compiler.batchLoop fetchAt (index + List.length pre) rest
        (Compiler.batchLoop fetchAt index pre results).
Proof.
  induction pre as [|[source name] pre IH]; intros index rest results Hok.
  - simpl. rewrite Nat.add_0_r. reflexivity.
  - pose proof (Hok 0 (source, name) eq_refl) as H0. rewrite Nat.add_0_r in H0.
    unfold compiledAt in H0. cbn [fst snd] in H0.
    cbn [app Compiler.batchLoop List.length]. rewrite H0. cbn [negb].
    rewrite IH.
    + replace (S index + List.length pre) with (index + S (List.length pre)) by lia.
      reflexivity.
    + intros i c Hc. replace (S index + i) with (index + S i) by lia.
      apply Hok. exact Hc.
Qed.

(** Every entry of the map was computed for one of the contracts. *)
Lemma batchLoop_entries fetchAt contracts :
  forall index results name r,
    JsMap.get (Compiler.batchLoop fetchAt index contracts results) name = Some r ->
    JsMap.get results name = Some r
    \/ exists i c, nth_error contracts i = Some c /\ snd c = name
                   /\ r = compiledAt fetchAt (index + i) c.
Proof.
  induction contracts as [|[source cname] rest IH]; intros index results name r Hget.
  - left. exact Hget.
  - cbn [Compiler.batchLoop] in Hget.
    assert (JsMap.get (JsMap.set results cname
                         (compiledAt fetchAt index (source, cname))) name = Some r ->
            JsMap.get results name = Some r
            \/ exists i c, nth_error ((source, cname) :: rest) i = Some c /\ snd c = name
                           /\ r = compiledAt fetchAt (index + i) c) as Hhere.
    { intros H. destruct (string_dec name cname) as [->|Hne].
      - rewrite get_set_same in H. injection H as <-. right.
        exists 0, (source, cname). rewrite Nat.add_0_r. repeat split.
      - rewrite get_set_other in H by exact Hne. left. exact H. }
    change (Compiler.compileContract (fetchAt index) source (JStr cname) (JStr "0.8.20"))
      with (compiledAt fetchAt index (source, cname)) in Hget.
    destruct (negb (Compiler.success (compiledAt fetchAt index (source, cname))));
      [exact (Hhere Hget)|].
    destruct (IH _ _ _ _ Hget) as [H|(i & c & Hc & Hname & Hr)]; [exact (Hhere H)|].
    right. exists (S i), c. replace (index + S i) with (S index + i) by lia.
    repeat split; assumption.
Qed.

Lemma batchLoop_keeps_keys fetchAt contracts :
  forall index results name,
    In name (JsMap.keys results) ->
    In name (JsMap.keys (Compiler.batchLoop fetchAt index contracts results)).
Proof.
  induction contracts as [|[source cname] rest IH]; intros index results name Hin;
    [exact Hin|].
  cbn [Compiler.batchLoop].
  assert (In name (JsMap.keys (JsMap.set results cname
            (Compiler.compileContract (fetchAt index) source (JStr cname)
               (JStr "0.8.20"))))) as Hin'
      by (apply in_keys_set; right; exact Hin).
  destruct (negb _); [exact Hin' | exact (IH _ _ _ Hin')].
Qed.

Lemma batchLoop_all_succeed fetchAt contracts :
  forall index results name,
    (forall i c, nth_error contracts i = Some c ->
       Compiler.success (compiledAt fetchAt (index + i) c) = true) ->
    In name (map snd contracts) ->
    exists r,
      JsMap.get (Compiler.batchLoop fetchAt index contracts results) name = Some r
      /\ Compiler.success r = true.
Proof.
  induction contracts as [|[source cname] rest IH]; intros index results name Hok Hin;
    [destruct Hin|].
  pose proof (Hok 0 (source, cname) eq_refl) as H0. rewrite Nat.add_0_r in H0.
  cbn [Compiler.batchLoop].
  change (Compiler.compileContract (fetchAt index) source (JStr cname) (JStr "0.8.20"))
    with (compiledAt fetchAt index (source, cname)).
  rewrite H0. cbn [negb].
  assert (forall i c', nth_error rest i = Some c' ->
            Compiler.success (compiledAt fetchAt (S index + i) c') = true) as Hok'.
  { intros i c' Hc'. replace (S index + i) with (index + S i) by lia.
    apply Hok. exact Hc'. }
  destruct (in_dec string_dec name (map snd rest)) as [Hlater|Hnot];
    [exact (IH _ _ _ Hok' Hlater)|].
  destruct Hin as [Hname|Hin]; [|contradiction]. cbn [snd] in Hname. subst cname.
  destruct (JsMap.get (Compiler.batchLoop fetchAt (S index) rest
                         (JsMap.set results name
                            (compiledAt fetchAt index (source, name)))) name)
    as [r|] eqn:Hget.
  - destruct (batchLoop_entries _ _ _ _ _ Hget) as [H|(i & c' & Hc' & Hname & _)].
    + rewrite get_set_same in H. injection H as <-. eauto.
    + exfalso. apply Hnot. rewrite <- Hname. apply in_map.
      exact (nth_error_In _ _ Hc').
  - exfalso. apply get_none_iff in Hget. apply Hget.
    apply batchLoop_keeps_keys. apply in_keys_set. left. reflexivity.
Qed.

(** X16. [batchCompileContracts] compiles the contracts in order and
    stops at the first one whose compilation fails. When the contracts before
    [c] compile and [c] does not, the contracts after [c] play no part: the
    map is the one for the batch that ends with [c]. It holds the failed
    result under the name of [c], and this is its only failed entry. When
    every contract compiles, the map holds a successful result under every
    contract name. *)
Theorem batch_stops_at_first_failure fetchAt contracts :
  ((forall i c, nth_error contracts i = Some c ->
      Compiler.success (compiledAt fetchAt i c) = true) ->
   forall c, In c contracts ->
     exists r,
       JsMap.get (Compiler.batchCompileContracts fetchAt contracts) (snd c) = Some r
       /\ Compiler.success r = true)
  /\ forall pre c post,
       contracts = pre ++ c :: post ->
       (forall i c', nth_error pre i = Some c' ->
          Compiler.success (compiledAt fetchAt i c') = true) ->
       Compiler.success (compiledAt fetchAt (List.length pre) c) = false ->
       Compiler.batchCompileContracts fetchAt contracts
       = Compiler.batchCompileContracts fetchAt (pre ++ [c])
       /\ JsMap.get (Compiler.batchCompileContracts fetchAt contracts) (snd c)
          = Some (compiledAt fetchAt (List.length pre) c)
       /\ forall name r,
            JsMap.get (Compiler.batchCompileContracts fetchAt contracts) name = Some r ->
            Compiler.success r = false -> name = snd c.
Proof.
  unfold Compiler.batchCompileContracts. split.
  - intros Hok c Hc. apply batchLoop_all_succeed; [exact Hok | apply in_map; exact Hc].
  - intros pre c post -> Hpre Hfail.
    assert (forall rest,
              Compiler.batchLoop fetchAt 0 (pre ++ c :: rest) []
              = JsMap.set (Compiler.batchLoop fetchAt 0 pre []) (snd c)
                  (compiledAt fetchAt (List.length pre) c)) as Hstop.
    { intros rest. rewrite batchLoop_successes by exact Hpre.
      destruct c as [source name]. cbn [Compiler.batchLoop Nat.add snd].
      change (Compiler.compileContract (fetchAt (List.length pre)) source (JStr name)
                (JStr "0.8.20"))
        with (compiledAt fetchAt (List.length pre) (source, name)).
      rewrite Hfail. reflexivity. }
    split; [rewrite !Hstop; reflexivity|]. rewrite Hstop.
    split; [apply get_set_same|].
    intros name r Hget Hr. destruct (string_dec name (snd c)) as [->|Hne]; [reflexivity|].
    exfalso. rewrite get_set_other in Hget by exact Hne.
    destruct (batchLoop_entries _ _ _ _ _ Hget) as [H|(i & c' & Hc' & _ & ->)];
      [discriminate|].
    change (0 + i) with i in Hr. rewrite (Hpre i c' Hc') in Hr. discriminate.
Qed.

Lemma compile_client_outcomes_witness :
  exists msg,
    validationMessage (validateSolidityCode EmptyString) = Some msg
    /\ Compiler.compileContract accepting EmptyString (JStr "Empty") (JStr "0.8.20")
       = Compiler.rejected [msg].
Proof.
  destruct (proj1 (@compile_client_outcomes accepting EmptyString (JStr "Empty")
                     (JStr "0.8.20")) eq_refl) as (msg & H1 & H2).
  exists msg. split; [exact H1 | exact (H2 accepting)].
Defined.

Lemma batch_stops_at_first_failure_witness :
  Compiler.batchCompileContracts (fun _ => accepting) threeContracts
  = Compiler.batchCompileContracts (fun _ => accepting)
      [(tokenSource, "Token"); (EmptyString, "Empty")].
Proof.
  refine (proj1 (proj2 (@batch_stops_at_first_failure (fun _ => accepting) threeContracts)
                   [(tokenSource, "Token")] (EmptyString, "Empty") [(tokenSource, "Later")]
                   eq_refl _ _)).
  - intros [|[|i]] c' H; try discriminate. injection H as <-. vm_compute. reflexivity.
  - vm_compute. reflexivity.
Defined.

(** * The Compile step in a run *)

Lemma truthy_some s x : truthy s = Some x -> s = Some x /\ x <> EmptyString.
Proof.
  destruct s as [y|]; simpl; [|discriminate].
  destruct (String.eqb_spec y EmptyString) as [->|Hne]; [discriminate|].
  intros [= <-]. split; [reflexivity | exact Hne].
Qed.

(** What a successful Contract Input step has checked and recorded. *)
Lemma contractInput_success node r :
  outcome (executeContractInput node) = Returned r ->
  success r = true ->
  exists source name,
    contractCode (data node) = Some source
    /\ source <> EmptyString
    /\ valid (validateSolidityCode source) = true
    /\ name <> EmptyString
    /\ (contractName (data node) = Some name
        \/ (truthy (contractName (data node)) = None
            /\ extractContractName source = Some name))
    /\ resultData r = contractInputData source name.
Proof.
  unfold executeContractInput.
  destruct (truthy (contractCode (data node))) as [source|] eqn:Hcode;
    [|simpl; intros [= <-]; discriminate].
  destruct (truthy_some _ Hcode) as [Hsource Hne].
  destruct (valid (validateSolidityCode source)) eqn:Hvalid;
    [|simpl; intros [= <-]; discriminate].
  cbn [negb].
  destruct (truthy (contractName (data node))) as [name|] eqn:Hname.
  - destruct (truthy_some _ Hname) as [Hn Hnne].
    simpl. intros [= <-] _. exists source, name. repeat split; try assumption.
    left. exact Hn.
  - destruct (truthy (extractContractName source)) as [extracted|] eqn:Hext;
      [|simpl; intros [= <-]; discriminate].
    destruct (truthy_some _ Hext) as [He Hene].
    simpl. intros [= <-] _. exists source, extracted. repeat split; try assumption.
    right. split; [reflexivity | exact He].
Qed.

(** The output of the first step of a kind that succeeds is what a later
    step finds when it looks the kind up. *)
Lemma first_of_kind_is_found ctx env K order pre S between T post nodeS stS stT :
  buildExecutionOrder (nodes ctx) (edges ctx) = Returned order ->
  order = pre ++ S :: between ++ T :: post ->
  runOrder ctx env pre initialState = (Returned None, stS) ->
  stopped stS = false ->
  findNode (nodes ctx) S = Some nodeS ->
  type (data nodeS) = K ->
  success (nodeResult ctx env nodeS (executionData stS)) = true ->
  findPreviousData (nodes ctx) (executionData stS) K = None ->
  runOrder ctx env (pre ++ S :: between) initialState = (Returned None, stT) ->
  findPreviousData (nodes ctx) (executionData stT) K
  = Some (resultData (nodeResult ctx env nodeS (executionData stS))).
Proof.
  intros Hb -> Hpre Hs Hf Hkind Hok Hnone HrunT.
  pose proof (@buildExecutionOrder_NoDup _ _ _ Hb) as Hnd.
  destruct (@prefix_extends ctx env pre _ _ _ Hnd Hpre) as [evs new H1 H2 H3 H4 H5 H6 H7].
  simpl in H1, H2.
  assert (forall i, In i (S :: between) -> ~ In i (JsMap.keys (executionData stS))) as Hfresh.
  { intros i Hi. rewrite H2. unfold JsMap.keys. rewrite H3. intros Hin.
    apply in_succeededIds in Hin.
    apply (@NoDup_app_disjoint _ _ _ Hnd (H5 _ _ Hin eq_refl)).
    destruct Hi as [->|Hi]; [left; reflexivity|].
    right. apply in_or_app. left. exact Hi. }
  rewrite runOrder_app, Hpre, (@runOrder_step ctx env S between stS nodeS Hs Hf) in HrunT.
  cbv zeta in HrunT. rewrite Hok in HrunT.
  rewrite set_fresh in HrunT by (apply Hfresh; left; reflexivity).
  apply NoDup_app_remove_l in Hnd. apply NoDup_cons_iff in Hnd.
  destruct Hnd as [HSnotin Hnd']. apply NoDup_app_remove_r in Hnd'.
  match type of HrunT with runOrder _ _ _ ?s = _ => set (st1 := s) in * end.
  assert (forall i, In i between -> ~ In i (JsMap.keys (executionData st1))) as Hfresh1.
  { intros i Hi. unfold st1, JsMap.keys. cbn [executionData].
    rewrite map_app, in_app_iff. simpl. intros [H|[H|[]]].
    - exact (Hfresh i (or_intror Hi) H).
    - subst i. apply HSnotin. apply in_or_app. left. exact Hi. }
  destruct (@runOrder_extends ctx env between Hnd' _ _ _ Hfresh1 HrunT)
    as [evs' new' _ H2' _ _ _ _ _].
  rewrite H2'. unfold st1. cbn [executionData]. rewrite <- app_assoc.
  rewrite findPreviousData_app by exact Hnone.
  simpl. rewrite Hf, Hkind, String.eqb_refl. reflexivity.
Qed.

(** X17. The Compile step compiles what the Contract Input step
    validated. Suppose the first Contract Input step [S] of a run succeeded
    and the run reaches a Compile step [T]. Then the source of [S] is not
    empty and passed [validateSolidityCode], its contract name (given on the
    node, or else extracted from the source) is not empty, and [T] neither
    reports missing contract code nor fails in the validation inside
    [compileContract]: its handler sends the request with exactly this
    source, this name and the version of its node (['0.8.20'] when the node
    has none), and its outcome is what [executeCompile] makes of the
    answer. *)
Theorem compile_step_sends_the_validated_source
  ctx svc order pre S between T post nodeS nodeT stS stT :
  let env := serviceEnv (nodes ctx) svc in
  buildExecutionOrder (nodes ctx) (edges ctx) = Returned order ->
  order = pre ++ S :: between ++ T :: post ->
  runOrder ctx env pre initialState = (Returned None, stS) ->
  stopped stS = false ->
  findNode (nodes ctx) S = Some nodeS ->
  type (data nodeS) = "contractInput" ->
  success (nodeResult ctx env nodeS (executionData stS)) = true ->
  findPreviousData (nodes ctx) (executionData stS) "contractInput" = None ->
  runOrder ctx env (pre ++ S :: between) initialState = (Returned None, stT) ->
  findNode (nodes ctx) T = Some nodeT ->
  type (data nodeT) = "compile" ->
  exists source name,
    contractCode (data nodeS) = Some source
    /\ source <> EmptyString
    /\ valid (validateSolidityCode source) = true
    /\ name <> EmptyString
    /\ (contractName (data nodeS) = Some name
        \/ (truthy (contractName (data nodeS)) = None
            /\ extractContractName source = Some name))
    /\ handlerRunOf ctx env nodeT (executionData stT)
       = Some (compileOutcome
                 (Compiler.respond
                    (fetchFor svc T
                       (Compiler.mkRequest source (JStr name)
                          (jsOr (payloadField nodeT "compilerVersion") (JStr "0.8.20")))))).
Proof.
  intros env Hb Ho Hpre Hs HfS HkS Hok Hnone HrunT HfT HkT.
  pose proof (@first_of_kind_is_found ctx env "contractInput" order pre S between T post
                nodeS stS stT Hb Ho Hpre Hs HfS HkS Hok Hnone HrunT) as Hfound.
  assert (handlerRunOf ctx env nodeS (executionData stS) = Some (executeContractInput nodeS))
    as HrunS by (unfold handlerRunOf; rewrite HkS; reflexivity).
  unfold nodeResult in Hok, Hfound. rewrite HrunS in Hok, Hfound.
  destruct (outcome (executeContractInput nodeS)) as [r|e] eqn:Hout; [|discriminate].
  destruct (contractInput_success nodeS Hout Hok)
    as (source & name & Hcode & Hne & Hvalid & Hnne & Hname & Hdata).
  exists source, name. repeat split; try assumption.
  destruct (findNode_some _ _ HfT) as [HidT _].
  unfold handlerRunOf. rewrite HkT. cbn [existsb String.eqb Ascii.eqb Bool.eqb orb knownKinds].
  unfold env at 1. cbn [serviceEnv handler String.eqb Ascii.eqb Bool.eqb].
  unfold executeCompile. rewrite Hfound, Hdata, HidT.
  unfold contractInputData. cbn [getField JsMap.get String.eqb Ascii.eqb Bool.eqb jsTruthy].
  destruct (String.eqb_spec source EmptyString) as [E|_]; [contradiction|]. cbn [negb].
  unfold Compiler.compileContract. rewrite Hvalid. reflexivity.
Qed.

Lemma compile_step_sends_the_validated_source_witness :
  exists source name,
    contractCode (data (sourceNode "A" tokenSource)) = Some source
    /\ name <> EmptyString
    /\ handlerRunOf pipeline (serviceEnv (nodes pipeline) acceptingServices)
         (plainNode "B" "compile")
         (executionData
            (snd (runOrder pipeline (serviceEnv (nodes pipeline) acceptingServices)
                    ["A"] initialState)))
       = Some (compileOutcome
                 (Compiler.respond
                    (accepting (Compiler.mkRequest source (JStr name) (JStr "0.8.20"))))).
Proof.
  pose proof (@compile_step_sends_the_validated_source pipeline acceptingServices
                ["A"; "B"; "C"] [] "A" [] "B" ["C"]
                (sourceNode "A" tokenSource) (plainNode "B" "compile") initialState
                (snd (runOrder pipeline (serviceEnv (nodes pipeline) acceptingServices)
                        ["A"] initialState))) as H.
  cbv zeta in H. do 11 premise H.
  destruct H as (source & name & H1 & _ & _ & H4 & _ & H6).
  exists source, name. split; [exact H1|]. split; [exact H4 | exact H6].
Defined.

(** * The order does not depend on what the ids are *)

Section Renaming.
Variable f : string -> string.
Variable U : list string.
Hypothesis f_injective : forall x y, In x U -> In y U -> f x = f y -> x = y.

Lemma eqb_renamed x y : In x U -> In y U -> String.eqb (f x) (f y) = String.eqb x y.
Proof.
  intros Hx Hy. destruct (String.eqb_spec x y) as [->|Hne].
  - apply String.eqb_refl.
  - apply String.eqb_neq. intros H. apply Hne. exact (f_injective Hx Hy H).
Qed.

Lemma get_renamed {A B} (g : A -> B) (m : list (string * A)) k :
  incl (JsMap.keys m) U -> In k U ->
  JsMap.get (renameKeys f g m) (f k) = option_map g (JsMap.get m k).
Proof.
  intros Hkeys Hk. induction m as [|[k' v] m IH]; [reflexivity|].
  cbn [renameKeys map JsMap.get fst snd].
  rewrite eqb_renamed by (try exact Hk; apply Hkeys; left; reflexivity).
  destruct (String.eqb k' k); [reflexivity|].
  apply IH. intros x Hx. apply Hkeys. right. exact Hx.
Qed.

Lemma set_renamed {A B} (g : A -> B) (m : list (string * A)) k v :
  incl (JsMap.keys m) U -> In k U ->
  JsMap.set (renameKeys f g m) (f k) (g v) = renameKeys f g (JsMap.set m k v).
Proof.
  intros Hkeys Hk. induction m as [|[k' v'] m IH]; [reflexivity|].
  cbn [renameKeys map JsMap.set fst snd].
  rewrite eqb_renamed by (try exact Hk; apply Hkeys; left; reflexivity).
  destruct (String.eqb k' k); [reflexivity|].
  cbn [map fst snd]. f_equal. apply IH. intros x Hx. apply Hkeys. right. exact Hx.
Qed.

Lemma keys_set_incl {A} (m : list (string * A)) k v :
  incl (JsMap.keys m) U -> In k U -> incl (JsMap.keys (JsMap.set m k v)) U.
Proof.
  intros Hkeys Hk x Hx. apply in_keys_set in Hx. destruct Hx as [->|Hx];
    [exact Hk | exact (Hkeys x Hx)].
Qed.

(** The two maps of a graph whose ids are all in [U]. *)
Definition graphWithin (g : Graph) : Prop :=
  incl (JsMap.keys (inDegree g)) U /\ incl (JsMap.keys (adjacencyList g)) U.

Definition renameGraph (g : Graph) : Graph :=
  mkGraph (renameKeys f (fun z => z) (inDegree g))
          (renameKeys f (map f) (adjacencyList g)).

Lemma initNode_renamed nodes :
  forall g,
    graphWithin g -> incl (stepIds nodes) U ->
    fold_left initNode (map (renameNode f) nodes) (renameGraph g)
    = renameGraph (fold_left initNode nodes g)
    /\ graphWithin (fold_left initNode nodes g).
Proof.
  induction nodes as [|n nodes IH]; intros g Hg Hn; [split; [reflexivity | exact Hg]|].
  destruct Hg as [Hd Ha].
  assert (In (id n) U) as Hid by (apply Hn; left; reflexivity).
  cbn [map fold_left].
  assert (initNode (renameGraph g) (renameNode f n) = renameGraph (initNode g n)) as ->.
  { unfold initNode, renameGraph. cbn [inDegree adjacencyList renameNode id].
    rewrite <- (set_renamed (fun z => z)) by assumption.
    rewrite <- (set_renamed (map f)) by assumption. reflexivity. }
  apply IH.
  - split; cbn [initNode inDegree adjacencyList]; apply keys_set_incl; assumption.
  - intros x Hx. apply Hn. right. exact Hx.
Qed.

Lemma addEdge_renamed edges :
  forall g,
    graphWithin g -> incl (map source edges) U -> incl (map target edges) U ->
    fold_left addEdge (map (renameEdge f) edges) (renameGraph g)
    = renameGraph (fold_left addEdge edges g)
    /\ graphWithin (fold_left addEdge edges g).
Proof.
  induction edges as [|e edges IH]; intros g Hg Hs Ht; [split; [reflexivity | exact Hg]|].
  destruct Hg as [Hd Ha].
  assert (In (source e) U) as Hse by (apply Hs; left; reflexivity).
  assert (In (target e) U) as Hte by (apply Ht; left; reflexivity).
  cbn [map fold_left].
  assert (addEdge (renameGraph g) (renameEdge f e) = renameGraph (addEdge g e)) as ->.
  { unfold addEdge, renameGraph. cbn [inDegree adjacencyList renameEdge source target].
    rewrite !get_renamed by assumption.
    rewrite <- (set_renamed (fun z => z)) by assumption.
    f_equal.
    - f_equal. destruct (JsMap.get (inDegree g) (target e)); reflexivity.
    - destruct (JsMap.get (adjacencyList g) (source e)) as [l|]; cbn [option_map];
        [|reflexivity].
      rewrite <- (set_renamed (map f)) by assumption.
      rewrite map_app. reflexivity. }
  apply IH.
  - split; cbn [addEdge inDegree adjacencyList].
    + apply keys_set_incl; assumption.
    + destruct (JsMap.get (adjacencyList g) (source e));
        [apply keys_set_incl; assumption | exact Ha].
  - intros x Hx. apply Hs. right. exact Hx.
  - intros x Hx. apply Ht. right. exact Hx.
Qed.

Lemma initialQueue_renamed (deg : list (string * Z)) :
  initialQueue (renameKeys f (fun z => z) deg) = map f (initialQueue deg).
Proof.
  unfold initialQueue, renameKeys. induction deg as [|[k z] deg IH]; [reflexivity|].
  cbn [map filter fst snd]. destruct (Z.eqb z 0); cbn [map fst]; rewrite IH; reflexivity.
Qed.

Lemma relax_renamed deg queue n :
  incl (JsMap.keys deg) U -> In n U ->
  relax (renameKeys f (fun z => z) deg, map f queue) (f n)
  = (renameKeys f (fun z => z) (fst (relax (deg, queue) n)),
     map f (snd (relax (deg, queue) n))).
Proof.
  intros Hd Hn. unfold relax. cbn [fst snd].
  rewrite get_renamed by assumption.
  assert (orZero (option_map (fun z => z) (JsMap.get deg n)) = orZero (JsMap.get deg n)) as ->
      by (destruct (JsMap.get deg n); reflexivity).
  rewrite <- (set_renamed (fun z => z)) by assumption.
  destruct (Z.eqb _ 0); [rewrite map_app|]; reflexivity.
Qed.

Lemma fold_relax_renamed neighbors :
  forall deg queue,
    incl (JsMap.keys deg) U -> incl neighbors U ->
    fold_left relax (map f neighbors) (renameKeys f (fun z => z) deg, map f queue)
    = (renameKeys f (fun z => z) (fst (fold_left relax neighbors (deg, queue))),
       map f (snd (fold_left relax neighbors (deg, queue))))
    /\ incl (JsMap.keys (fst (fold_left relax neighbors (deg, queue)))) U.
Proof.
  induction neighbors as [|n neighbors IH]; intros deg queue Hd Hn;
    [split; [reflexivity | exact Hd]|].
  assert (In n U) as Hin by (apply Hn; left; reflexivity).
  cbn [map fold_left]. rewrite relax_renamed by assumption.
  destruct (relax (deg, queue) n) as [deg' queue'] eqn:E. cbn [fst snd].
  apply IH.
  - assert (deg' = fst (relax (deg, queue) n)) as -> by (rewrite E; reflexivity).
    unfold relax. cbn [fst]. apply keys_set_incl; assumption.
  - intros x Hx. apply Hn. right. exact Hx.
Qed.

(** All ids of the adjacency lists are in [U]. *)
Definition adjacencyWithin (adj : list (string * list string)) : Prop :=
  incl (JsMap.keys adj) U
  /\ forall k l, JsMap.get adj k = Some l -> incl l U.

Lemma relaxAll_renamed adj n deg queue :
  adjacencyWithin adj -> incl (JsMap.keys deg) U -> In n U ->
  relaxAll (renameKeys f (map f) adj) (f n)
    (renameKeys f (fun z => z) deg, map f queue)
  = (renameKeys f (fun z => z) (fst (relaxAll adj n (deg, queue))),
     map f (snd (relaxAll adj n (deg, queue))))
  /\ incl (JsMap.keys (fst (relaxAll adj n (deg, queue)))) U.
Proof.
  intros [Hk Hl] Hd Hn. unfold relaxAll. rewrite get_renamed by assumption.
  destruct (JsMap.get adj n) as [l|] eqn:E; cbn [option_map].
  - apply fold_relax_renamed; [exact Hd | exact (Hl _ _ E)].
  - split; [reflexivity | exact Hd].
Qed.

Lemma kahnLoop_renamed adj s result :
  adjacencyWithin adj ->
  incl (JsMap.keys (fst s)) U -> incl (snd s) U ->
  kahnLoop (renameKeys f (map f) adj)
    (renameKeys f (fun z => z) (fst s), map f (snd s)) (map f result)
  = map f (kahnLoop adj s result).
Proof.
  intros Hadj. funelim (kahnLoop adj s result); intros Hd Hq; cbn [fst snd] in *.
  - simp kahnLoop. reflexivity.
  - cbn [map]. simp kahnLoop.
    assert (In nodeId U) as Hn by (apply Hq; left; reflexivity).
    destruct (@relaxAll_renamed adj nodeId deg queue Hadj Hd Hn) as [Heq Hd'].
    rewrite Heq.
    replace (map f result ++ [f nodeId]) with (map f (result ++ [nodeId]))
      by (rewrite map_app; reflexivity).
    apply H; [exact Hadj | exact Hd'|].
    destruct (relaxAll_queue adj nodeId deg queue) as (extra & -> & Hextra).
    intros x Hx. apply in_app_or in Hx. destruct Hx as [Hx|Hx].
    + apply Hq. right. exact Hx.
    + destruct (Hextra x Hx) as (l & Hl & Hin). exact (proj2 Hadj _ _ Hl x Hin).
Qed.

End Renaming.

Lemma fold_addEdge_endpoints edges :
  forall edges' g,
    map endpoints edges = map endpoints edges' ->
    fold_left addEdge edges g = fold_left addEdge edges' g.
Proof.
  induction edges as [|e edges IH]; intros [|e' edges'] g H; try discriminate; [reflexivity|].
  simpl in H. injection H as Hs Ht Hrest. simpl.
  assert (addEdge g e = addEdge g e') as -> by (unfold addEdge; rewrite Hs, Ht; reflexivity).
  apply IH. exact Hrest.
Qed.

(** The order is a function of the step ids and of the end points of
    the connections. *)
Lemma buildExecutionOrder_shape nodes nodes' edges edges' :
  stepIds nodes = stepIds nodes' ->
  map endpoints edges = map endpoints edges' ->
  buildExecutionOrder nodes edges = buildExecutionOrder nodes' edges'.
Proof.
  intros Hn He. unfold buildExecutionOrder, buildGraph.
  rewrite (fold_initNode_ids nodes nodes' _ Hn), (fold_addEdge_endpoints edges edges' _ He).
  assert (List.length nodes = List.length nodes') as ->
      by (rewrite <- (length_map id nodes), <- (length_map id nodes'); exact (f_equal _ Hn)).
  reflexivity.
Qed.

Lemma buildExecutionOrder_renamed f nodes edges :
  (forall x y, In x (graphIds nodes edges) -> In y (graphIds nodes edges) ->
     f x = f y -> x = y) ->
  buildExecutionOrder (map (renameNode f) nodes) (map (renameEdge f) edges)
  = match buildExecutionOrder nodes edges with
    | Returned order => Returned (map f order)
    | Thrown e => Thrown e
    end.
Proof.
  intros Hinj. set (U := graphIds nodes edges) in *.
  assert (incl (stepIds nodes) U) as Hn
      by (intros x Hx; apply in_or_app; left; exact Hx).
  assert (incl (map source edges) U) as Hs
      by (intros x Hx; apply in_or_app; right; apply in_or_app; left; exact Hx).
  assert (incl (map target edges) U) as Ht
      by (intros x Hx; apply in_or_app; right; apply in_or_app; right; exact Hx).
  assert (graphWithin U (mkGraph [] [])) as H0 by (split; intros x []).
  destruct (@initNode_renamed f U Hinj nodes _ H0 Hn) as [Hinit Hwithin].
  destruct (@addEdge_renamed f U Hinj edges _ Hwithin Hs Ht) as [Hbuild [Hd Ha]].
  fold (buildGraph nodes edges) in Hbuild, Hd, Ha.
  assert (buildGraph (map (renameNode f) nodes) (map (renameEdge f) edges)
          = renameGraph f (buildGraph nodes edges)) as Hgraph.
  { unfold buildGraph at 1.
    change (mkGraph [] []) with (renameGraph f (mkGraph [] [])).
    rewrite Hinit. exact Hbuild. }
  unfold buildExecutionOrder. rewrite Hgraph. cbn [renameGraph inDegree adjacencyList].
  rewrite initialQueue_renamed.
  assert (adjacencyWithin U (adjacencyList (buildGraph nodes edges))) as Hadj.
  { split; [exact Ha|]. intros k l Hl. rewrite buildGraph_adjacency in Hl.
    destruct (memb k (stepIds nodes)); [|discriminate]. injection Hl as <-.
    intros x Hx. unfold targetsFrom in Hx. apply in_map_iff in Hx.
    destruct Hx as (e & <- & He). apply filter_In in He. apply Ht. apply in_map. tauto. }
  pose proof (@kahnLoop_renamed f U Hinj (adjacencyList (buildGraph nodes edges))
                (inDegree (buildGraph nodes edges),
                 initialQueue (inDegree (buildGraph nodes edges))) [] Hadj) as Hloop.
  cbn [fst snd map] in Hloop. rewrite Hloop.
  - rewrite !length_map. destruct (Nat.eqb _ _); reflexivity.
  - exact Hd.
  - intros x Hx. apply initialQueue_in in Hx. apply Hd.
    unfold JsMap.keys. apply in_map_iff. exists (x, 0%Z). tauto.
Qed.

(** X18. The execution order depends on the shape of the graph, not on
    what its ids are. When the ids of a graph (step ids and end points of
    connections) are renamed by a function that maps different ids of the
    graph to different ids, [buildExecutionOrder] throws the cycle error on
    the renamed graph if it throws on the original, and otherwise returns the
    renamed order. *)
Theorem execution_order_follows_renaming f nodes edges :
  (forall x y, In x (graphIds nodes edges) -> In y (graphIds nodes edges) ->
     f x = f y -> x = y) ->
  buildExecutionOrder (map (renameNode f) nodes) (map (renameEdge f) edges)
  = match buildExecutionOrder nodes edges with
    | Returned order => Returned (map f order)
    | Thrown e => Thrown e
    end.
Proof. apply buildExecutionOrder_renamed. Qed.

Lemma execution_order_follows_renaming_witness :
  buildExecutionOrder
    (map (renameNode (String.append "step-")) (nodes pipeline))
    (map (renameEdge (String.append "step-")) (edges pipeline))
  = Returned ["step-A"; "step-B"; "step-C"].
Proof.
  refine (@execution_order_follows_renaming (String.append "step-")
            (nodes pipeline) (edges pipeline) _).
  intros x y _ _ H. simpl in H. repeat (injection H as H). exact H.
Defined.

(** * Generated workflows *)

Lemma stamp_injective clock template x y :
  In x prefixes -> In y prefixes -> stamp clock template x = stamp clock template y -> x = y.
Proof.
  unfold prefixes, stamp, stampedId. intros Hx Hy.
  cbn [In] in Hx, Hy.
  repeat (destruct Hx as [<-|Hx]; [|try contradiction]);
    repeat (destruct Hy as [<-|Hy]; [|try contradiction]);
    cbn [String.append]; intros H; try reflexivity; discriminate.
Qed.

Lemma NoDup_map_on (f : string -> string) (l : list string) :
  (forall x y, In x l -> In y l -> f x = f y -> x = y) ->
  NoDup l -> NoDup (map f l).
Proof.
  intros Hinj Hnd. induction Hnd as [|a l Hnotin Hnd IH]; [constructor|].
  cbn [map]. constructor.
  - intros Hin. apply in_map_iff in Hin. destruct Hin as (b & Hfb & Hb).
    apply Hnotin. rewrite <- (Hinj b a (or_intror Hb) (or_introl eq_refl) Hfb). exact Hb.
  - apply IH. intros x y Hx Hy. apply Hinj; right; assumption.
Qed.

Lemma skeleton_order :
  buildExecutionOrder skeletonNodes skeletonEdges
  = Returned ["project"; "contract"; "compile"; "abi"; "bytecode"; "deploy"; "completion"].
Proof. by_computation. Qed.

Lemma audit_skeleton_order :
  buildExecutionOrder (skeletonNodes ++ [plainNode "ai" "aiAudit"])
    (skeletonEdges ++ [plainEdge EmptyString "contract" "ai"])
  = Returned ["project"; "contract"; "compile"; "ai"; "abi"; "bytecode"; "deploy";
              "completion"].
Proof. by_computation. Qed.

Lemma skeleton_ids_are_prefixes x :
  In x (graphIds (skeletonNodes ++ [plainNode "ai" "aiAudit"])
          (skeletonEdges ++ [plainEdge EmptyString "contract" "ai"])) ->
  In x prefixes.
Proof.
  intros H. cbn in H. unfold prefixes. cbn [In].
  repeat (destruct H as [<-|H]; [tauto|]). destruct H.
Qed.

(** The order in which a graph of the generated shape is executed. *)
Lemma generated_shape_order clock template (audit : bool) nodes edges :
  stepIds nodes
  = map (stamp clock template)
      (stepIds (skeletonNodes ++ if audit then [plainNode "ai" "aiAudit"] else [])) ->
  map endpoints edges
  = map endpoints
      (map (renameEdge (stamp clock template))
         (skeletonEdges ++ if audit then [plainEdge EmptyString "contract" "ai"] else [])) ->
  wellFormed nodes edges
  /\ buildExecutionOrder nodes edges
     = Returned (map (stamp clock template)
                   (["project"; "contract"; "compile"]
                    ++ (if audit then ["ai"] else [])
                    ++ ["abi"; "bytecode"; "deploy"; "completion"])).
Proof.
  intros Hids Hends.
  set (f := stamp clock template) in *.
  set (skNodes := skeletonNodes ++ if audit then [plainNode "ai" "aiAudit"] else []) in *.
  set (skEdges := skeletonEdges
                  ++ if audit then [plainEdge EmptyString "contract" "ai"] else []) in *.
  assert (forall x, In x (graphIds skNodes skEdges) -> In x prefixes) as Hprefix.
  { intros x Hx. apply skeleton_ids_are_prefixes. unfold skNodes, skEdges in Hx.
    destruct audit; [exact Hx|]. rewrite !app_nil_r in Hx.
    unfold graphIds, stepIds in *. rewrite !map_app, !in_app_iff in *. tauto. }
  assert (forall x y, In x (graphIds skNodes skEdges) -> In y (graphIds skNodes skEdges) ->
            f x = f y -> x = y) as Hinj.
  { intros x y Hx Hy. apply stamp_injective; apply Hprefix; assumption. }
  split.
  - split.
    + rewrite Hids. apply NoDup_map_on.
      * intros x y Hx Hy. apply Hinj; apply in_or_app; left; assumption.
      * unfold skNodes. destruct audit; cbn; repeat constructor; cbn; intuition discriminate.
    + assert (forall e, In e skEdges ->
                In (source e) (stepIds skNodes) /\ In (target e) (stepIds skNodes)) as Hclosed.
      { unfold skEdges, skNodes. intros e He.
        destruct audit; cbn in He; cbn;
          repeat (destruct He as [<-|He]; [cbn; tauto|]); destruct He. }
      intros e He. rewrite Hids.
      apply (in_map endpoints) in He. rewrite Hends in He.
      apply in_map_iff in He. destruct He as (e' & He' & Hin).
      apply in_map_iff in Hin. destruct Hin as (e0 & <- & He0).
      unfold endpoints in He'. cbn [renameEdge source target] in He'.
      injection He' as <- <-. destruct (Hclosed e0 He0).
      split; apply in_map; assumption.
  - rewrite (@buildExecutionOrder_shape nodes (map (renameNode f) skNodes)
               edges (map (renameEdge f) skEdges)).
    + rewrite (buildExecutionOrder_renamed f skNodes skEdges Hinj).
      unfold skNodes, skEdges. destruct audit.
      * rewrite audit_skeleton_order. reflexivity.
      * rewrite !app_nil_r, skeleton_order. reflexivity.
    + rewrite Hids. unfold stepIds. rewrite !map_map. reflexivity.
    + exact Hends.
Qed.

Lemma generated_audit_shape configIcon clock template :
  stepIds (fst (generateWorkflowWithAI configIcon clock template))
  = map (stamp clock template) (stepIds (skeletonNodes ++ [plainNode "ai" "aiAudit"]))
  /\ map endpoints (snd (generateWorkflowWithAI configIcon clock template))
     = map endpoints
         (map (renameEdge (stamp clock template))
            (skeletonEdges ++ [plainEdge EmptyString "contract" "ai"])).
Proof.
  unfold generateWorkflowWithAI, generateWorkflowFromTemplate, stamp, readingOf.
  destruct (String.eqb (templateId template) "crowdfunding"); split; reflexivity.
Qed.

(** X19. Every workflow the generator produces can be scheduled,
    whatever the template and the readings of the clock: the step ids differ
    (their prefixes do, even when the clock does not advance), every
    connection joins two steps, and [buildExecutionOrder] returns the steps
    in the order in which the generator lists them: Project Init, Contract
    Input, Compile, Extract ABI, Extract Bytecode, Deploy, Completion. With
    the audit step, which the generator appends to the node list, the order
    is the same with the audit step right after Compile. *)
Theorem generated_workflow_order configIcon clock template :
  let g := generateWorkflowFromTemplate configIcon clock template in
  let g' := generateWorkflowWithAI configIcon clock template in
  wellFormed (fst g) (snd g)
  /\ buildExecutionOrder (fst g) (snd g) = Returned (stepIds (fst g))
  /\ map (fun n => type (data n)) (fst g)
     = ["projectCreate"; "contractInput"; "compile"; "generateABI"; "generateBytecode";
        "deploy"; "completion"]
  /\ wellFormed (fst g') (snd g')
  /\ stepIds (fst g') = stepIds (fst g) ++ [stamp clock template "ai"]
  /\ buildExecutionOrder (fst g') (snd g')
     = Returned (firstn 3 (stepIds (fst g))
                 ++ stamp clock template "ai" :: skipn 3 (stepIds (fst g))).
Proof.
  intros g g'.
  destruct (@generated_shape_order clock template false (fst g) (snd g) eq_refl eq_refl)
    as [Hwf Horder].
  destruct (generated_audit_shape configIcon clock template) as [Hids Hends].
  destruct (@generated_shape_order clock template true (fst g') (snd g') Hids Hends)
    as [Hwf' Horder'].
  split; [exact Hwf|]. split; [exact Horder|]. split; [reflexivity|].
  split; [exact Hwf'|]. split; [exact Hids | exact Horder'].
Qed.

Lemma findNode_NoDup nodes node :
  NoDup (stepIds nodes) -> In node nodes -> findNode nodes (id node) = Some node.
Proof.
  unfold findNode, stepIds. induction nodes as [|n nodes IH]; intros Hnd Hin; [destruct Hin|].
  cbn [map] in Hnd. apply NoDup_cons_iff in Hnd. destruct Hnd as [Hnotin Hnd].
  cbn [find]. destruct Hin as [->|Hin]; [rewrite String.eqb_refl; reflexivity|].
  destruct (String.eqb_spec (id n) (id node)) as [E|_]; [|exact (IH Hnd Hin)].
  exfalso. apply Hnotin. rewrite E. apply in_map. exact Hin.
Qed.

Lemma append_not_empty s t : t <> EmptyString -> String.append s t <> EmptyString.
Proof. destruct s; simpl; [tauto | discriminate]. Qed.

(** The name the generator puts on the Contract Input node is never
    empty. *)
Lemma templateContractName_captured source : captured (templateContractName source).
Proof.
  unfold templateContractName.
  destruct (jsMatch templateContractRe source) as [cap|] eqn:E.
  - apply (jsMatch_captures templateContractRe source); [reflexivity | reflexivity | exact E].
  - exists "MyContract". split; [reflexivity | discriminate].
Qed.

(** The first three nodes of a generated workflow, in a graph that
    holds them. *)
Lemma generated_nodes configIcon clock template svc ctx :
  let g := generateWorkflowFromTemplate configIcon clock template in
  let env := serviceEnv (nodes ctx) svc in
  let project := stamp clock template "project" in
  let contract := stamp clock template "contract" in
  NoDup (stepIds (nodes ctx)) ->
  incl (fst g) (nodes ctx) ->
  exists projectNode contractNode compileNode,
    findNode (nodes ctx) project = Some projectNode
    /\ findNode (nodes ctx) contract = Some contractNode
    /\ findNode (nodes ctx) (stamp clock template "compile") = Some compileNode
    /\ label (data contractNode) = "Contract Input"
    /\ label (data compileNode) = "Compile Contract"
    /\ type (data compileNode) = "compile"
    /\ payloadField compileNode "compilerVersion" = JStr "0.8.20"
    /\ (forall d,
          nodeResult ctx env projectNode d
          = mkResult true "Project initialized"
              (JObj [("title", JStr (String.append (templateName template) " Project"));
                     ("description", JStr (templateDescription template));
                     ("timestamp", JStr (timestampFor svc project))]))
    /\ (forall d,
          handlerRunOf ctx env contractNode d = Some (executeContractInput contractNode))
    /\ contractCode (data contractNode) = Some (templateCode template)
    /\ contractName (data contractNode) = templateContractName (templateCode template)
    /\ type (data projectNode) = "projectCreate"
    /\ type (data contractNode) = "contractInput".
Proof.
  intros g env project contract Hnd Hincl.
  pose (projectNode := nth 0 (fst g) (plainNode "" "")).
  pose (contractNode := nth 1 (fst g) (plainNode "" "")).
  pose (compileNode := nth 2 (fst g) (plainNode "" "")).
  exists projectNode, contractNode, compileNode.
  split; [apply (@findNode_NoDup (nodes ctx) projectNode Hnd), Hincl; left; reflexivity|].
  split; [apply (@findNode_NoDup (nodes ctx) contractNode Hnd), Hincl; right; left;
          reflexivity|].
  split; [apply (@findNode_NoDup (nodes ctx) compileNode Hnd), Hincl; right; right; left;
          reflexivity|].
  split; [reflexivity|]. split; [reflexivity|]. split; [reflexivity|]. split; [reflexivity|].
  split; [|split; [|repeat split]].
  - intros d. unfold nodeResult, handlerRunOf.
    change (type (data projectNode)) with "projectCreate".
    cbn [existsb String.eqb Ascii.eqb Bool.eqb orb knownKinds].
    unfold env. cbn [serviceEnv handler String.eqb Ascii.eqb Bool.eqb].
    unfold executeProjectCreate.
    change (payloadField projectNode "projectTitle")
      with (JStr (String.append (templateName template) " Project")).
    change (payloadField projectNode "projectDescription")
      with (JStr (templateDescription template)).
    cbn [jsTruthy].
    destruct (String.eqb_spec (String.append (templateName template) " Project") EmptyString)
      as [E|_]; [exfalso; revert E; apply append_not_empty; discriminate|].
    cbn [negb outcome]. unfold jsOr. cbn [jsTruthy].
    destruct (String.eqb_spec (templateDescription template) EmptyString) as [->|_];
      reflexivity.
  - intros d. unfold handlerRunOf.
    change (type (data contractNode)) with "contractInput". reflexivity.
Qed.

Lemma stamp_differs clock template x y :
  In x prefixes -> In y prefixes -> x <> y ->
  stamp clock template x <> stamp clock template y.
Proof. intros Hx Hy Hne E. apply Hne. exact (@stamp_injective clock template x y Hx Hy E). Qed.

(** The run of a graph that holds a generated workflow, up to the
    Compile step. *)
Lemma generated_run_to_compile configIcon clock template svc ctx :
  let g := generateWorkflowFromTemplate configIcon clock template in
  let env := serviceEnv (nodes ctx) svc in
  let project := stamp clock template "project" in
  let contract := stamp clock template "contract" in
  let compile := stamp clock template "compile" in
  let source := templateCode template in
  NoDup (stepIds (nodes ctx)) ->
  incl (fst g) (nodes ctx) ->
  stopDuring (otherwise svc) project = false ->
  exists contractNode stP,
    findNode (nodes ctx) contract = Some contractNode
    /\ label (data contractNode) = "Contract Input"
    /\ runOrder ctx env [project] initialState = (Returned None, stP)
    /\ stopped stP = false
    /\ (valid (validateSolidityCode source) = false ->
        exists msg,
          (msg = "Contract code is required"
           \/ validationMessage (validateSolidityCode source) = Some msg)
          /\ nodeResult ctx env contractNode (executionData stP) = failure msg
          /\ nodeThrows ctx env contractNode (executionData stP) = None)
    /\ (valid (validateSolidityCode source) = true ->
        stopDuring (otherwise svc) contract = false ->
        exists name compileNode st,
          templateContractName source = Some name
          /\ name <> EmptyString
          /\ findNode (nodes ctx) compile = Some compileNode
          /\ label (data compileNode) = "Compile Contract"
          /\ runOrder ctx env [project; contract] initialState = (Returned None, st)
          /\ stopped st = false
          /\ JsMap.keys (executionData st) = [project; contract]
          /\ JsMap.get (executionData st) contract = Some (contractInputData source name)
          /\ (forall more,
                findPreviousData (nodes ctx) (executionData st ++ more) "contractInput"
                = Some (contractInputData source name))
          /\ handlerRunOf ctx env compileNode (executionData st)
             = Some (compileOutcome
                       (Compiler.respond
                          (fetchFor svc compile
                             (Compiler.mkRequest source (JStr name) (JStr "0.8.20")))))).
Proof.
  intros g env project contract compile source Hnd Hincl Hstop1.
  destruct (@generated_nodes configIcon clock template svc ctx Hnd Hincl)
    as (projectNode & contractNode & compileNode & HfP & HfC & HfM & HlabelC & HlabelM & HkM
        & Hversion & HresP & HrunC & Hcode & Hname & HkP & HkC).
  fold g env project contract compile in HfP, HfC, HfM, HresP, HrunC.
  assert (project <> contract) as Hpc
      by (apply stamp_differs; unfold prefixes; cbn [In]; try tauto; discriminate).
  exists contractNode.
  eexists. split; [exact HfC|]. split; [exact HlabelC|].
  assert (runOrder ctx env [project] initialState
          = (Returned None,
             mkState [(project, resultData (nodeResult ctx env projectNode []))] false
               (nodeEvents ctx env projectNode []))) as HrunP.
  { rewrite (@runOrder_step ctx env project [] initialState projectNode eq_refl HfP).
    cbv zeta. cbn [executionData trace initialState]. rewrite (HresP []).
    cbn [success resultData runOrder ret JsMap.set app].
    change (stopDuring env project) with (stopDuring (otherwise svc) project).
    rewrite Hstop1. reflexivity. }
  split; [exact HrunP|]. split; [reflexivity|].
  set (stP := mkState [(project, resultData (nodeResult ctx env projectNode []))] false
                (nodeEvents ctx env projectNode [])) in *.
  split.
  - intros Hinvalid. unfold nodeThrows, handlerThrows, nodeResult. rewrite HrunC.
    unfold executeContractInput.
    rewrite Hcode. fold source. cbn [truthy].
    destruct (String.eqb source EmptyString);
      [exists "Contract code is required"; split; [left|split]; reflexivity|].
    rewrite Hinvalid. cbn [negb outcome].
    destruct (validation_message source Hinvalid) as (m & Hm & Htruthy).
    exists m. rewrite Hm, Htruthy. split; [right|split]; reflexivity.
  - intros Hvalid Hstop2.
    destruct (templateContractName_captured source) as (name & Hcap & Hnne).
    assert (source <> EmptyString) as Hsource
        by (intros E; rewrite E in Hvalid; discriminate).
    assert (nodeResult ctx env contractNode (executionData stP)
            = mkResult true "Contract code validated" (contractInputData source name))
      as HresC.
    { unfold nodeResult. rewrite HrunC. unfold executeContractInput.
      rewrite Hcode, Hname. fold source. rewrite Hcap. cbn [truthy].
      destruct (String.eqb_spec source EmptyString) as [E|_]; [contradiction|].
      rewrite Hvalid. cbn [negb].
      destruct (String.eqb_spec name EmptyString) as [E|_]; [contradiction|].
      reflexivity. }
    exists name, compileNode.
    eexists. split; [exact Hcap|]. split; [exact Hnne|]. split; [exact HfM|].
    split; [exact HlabelM|].
    split.
    { change [project; contract] with ([project] ++ [contract]).
      rewrite runOrder_app, HrunP.
      rewrite (@runOrder_step ctx env contract [] stP contractNode eq_refl HfC).
      cbv zeta. rewrite HresC. cbn [success resultData runOrder ret].
      change (stopDuring env contract) with (stopDuring (otherwise svc) contract).
      rewrite Hstop2. reflexivity. }
    cbn [stopped executionData stP JsMap.set JsMap.get JsMap.keys map fst].
    destruct (String.eqb_spec project contract) as [E|_]; [contradiction|].
    cbn [JsMap.set JsMap.get JsMap.keys map fst]. rewrite String.eqb_refl.
    split; [reflexivity|]. split; [reflexivity|]. split; [reflexivity|].
    assert (forall more,
              findPreviousData (nodes ctx)
                ([(project, resultData (nodeResult ctx env projectNode []));
                  (contract, contractInputData source name)] ++ more) "contractInput"
              = Some (contractInputData source name)) as Hlookup.
    { intros more. cbn [app findPreviousData].
      rewrite HfP, HfC, HkP, HkC. reflexivity. }
    split; [exact Hlookup|].
    destruct (findNode_some _ _ HfM) as [HidM _].
    unfold handlerRunOf. rewrite HkM.
    cbn [existsb String.eqb Ascii.eqb Bool.eqb orb knownKinds].
    unfold env at 1. cbn [serviceEnv handler String.eqb Ascii.eqb Bool.eqb].
    unfold executeCompile.
    rewrite <- (app_nil_r [(project, _); (contract, _)]), Hlookup.
    unfold contractInputData.
    cbn [getField JsMap.get String.eqb Ascii.eqb Bool.eqb jsTruthy].
    destruct (String.eqb_spec source EmptyString) as [E|_]; [contradiction|]. cbn [negb].
    rewrite Hversion, HidM. unfold jsOr. cbn [jsTruthy String.eqb Ascii.eqb Bool.eqb negb].
    unfold Compiler.compileContract. rewrite Hvalid. reflexivity.
Qed.

(** X20. A workflow generated from a template, run with the Project
    Init and Compile handlers of the executor: when no stop is requested
    during the first two steps, Project Init succeeds (its title ends in
    [" Project"], so it is never empty) and the run turns on the template's
    source. If [validateSolidityCode] accepts the source, Contract Input
    succeeds under the name the generator extracted, which is never empty,
    and the Compile step asks the compiler for exactly the template's source
    under this name with version ['0.8.20']. If it rejects the source, the
    run ends with the message [Failed at node "Contract Input": <msg>]
    (the label between two characters 34), where [<msg>] is
    ['Contract code is required'] or the message of the validation, and none
    of the five later steps is started. *)
Theorem generated_workflow_compiles_the_template configIcon clock template svc callback :
  let g := generateWorkflowFromTemplate configIcon clock template in
  let ctx := mkContext (fst g) (snd g) callback in
  let env := serviceEnv (fst g) svc in
  let project := stamp clock template "project" in
  let contract := stamp clock template "contract" in
  let compile := stamp clock template "compile" in
  let source := templateCode template in
  stopDuring (otherwise svc) project = false ->
  stopDuring (otherwise svc) contract = false ->
  (valid (validateSolidityCode source) = true ->
   exists name compileNode st,
     templateContractName source = Some name
     /\ name <> EmptyString
     /\ findNode (fst g) compile = Some compileNode
     /\ runOrder ctx env [project; contract] initialState = (Returned None, st)
     /\ stopped st = false
     /\ JsMap.get (executionData st) contract = Some (contractInputData source name)
     /\ handlerRunOf ctx env compileNode (executionData st)
        = Some (compileOutcome
                  (Compiler.respond
                     (fetchFor svc compile
                        (Compiler.mkRequest source (JStr name) (JStr "0.8.20"))))))
  /\ (valid (validateSolidityCode source) = false ->
      exists msg st,
        (msg = "Contract code is required"
         \/ validationMessage (validateSolidityCode source) = Some msg)
        /\ execute ctx env initialState
           = (Returned
                (mkResult false
                   (JStr (String.append "Failed at node "
                            (String "034"
                               (String.append "Contract Input"
                                  (String "034" (String.append ": " msg))))))
                   JUndefined), st)
        /\ In (NodeStatus contract Error) (trace st)
        /\ forall later e,
             In later (skipn 2 (stepIds (fst g))) -> In e (trace st) ->
             eventNode e <> Some later).
Proof.
  intros g ctx env project contract compile source Hstop1 Hstop2.
  destruct (@generated_shape_order clock template false (fst g) (snd g) eq_refl eq_refl)
    as [[Hnd _] Horder].
  destruct (@generated_run_to_compile configIcon clock template svc ctx Hnd
              (fun n Hn => Hn) Hstop1)
    as (contractNode & stP & HfC & Hlabel & HrunP & HsP & Hbad & Hgood).
  change (serviceEnv (nodes ctx) svc) with env in HrunP, Hbad, Hgood.
  split.
  - intros Hvalid.
    destruct (Hgood Hvalid Hstop2)
      as (name & compileNode & st & H1 & H2 & H3 & _ & H4 & H5 & _ & H6 & _ & H7).
    exists name, compileNode, st. repeat split; assumption.
  - intros Hinvalid. destruct (Hbad Hinvalid) as (msg & Hmsg & HresC & Hthrow).
    assert (success (nodeResult ctx env contractNode (executionData stP)) = false) as Hfail
        by (rewrite HresC; reflexivity).
    destruct (@failing_step_ends_run ctx env (stepIds (fst g)) [project] contract
                (skipn 2 (stepIds (fst g))) contractNode stP
                Horder eq_refl HrunP HsP HfC Hfail)
      as (st & Hex & _ & _ & Herr & Hlater).
    exists msg, st. rewrite Hthrow, HresC, Hlabel in Hex. repeat split; assumption.
Qed.

Lemma generated_workflow_compiles_the_template_witness :
  exists name compileNode st,
    templateContractName tokenSource = Some name
    /\ runOrder
         (mkContext (fst (generateWorkflowFromTemplate noIcon stoppedClock tokenTemplate))
            (snd (generateWorkflowFromTemplate noIcon stoppedClock tokenTemplate)) true)
         (serviceEnv (fst (generateWorkflowFromTemplate noIcon stoppedClock tokenTemplate))
            acceptingServices)
         [stamp stoppedClock tokenTemplate "project";
          stamp stoppedClock tokenTemplate "contract"] initialState
       = (Returned None, st)
    /\ handlerRunOf
         (mkContext (fst (generateWorkflowFromTemplate noIcon stoppedClock tokenTemplate))
            (snd (generateWorkflowFromTemplate noIcon stoppedClock tokenTemplate)) true)
         (serviceEnv (fst (generateWorkflowFromTemplate noIcon stoppedClock tokenTemplate))
            acceptingServices)
         compileNode (executionData st)
       = Some (compileOutcome
                 (Compiler.respond
                    (accepting (Compiler.mkRequest tokenSource (JStr name) (JStr "0.8.20"))))).
Proof.
  assert (valid (validateSolidityCode (templateCode tokenTemplate)) = true) as Hvalid
      by by_computation.
  destruct (proj1 (@generated_workflow_compiles_the_template noIcon stoppedClock
                     tokenTemplate acceptingServices true eq_refl eq_refl) Hvalid)
    as (name & compileNode & st & H1 & _ & _ & H4 & _ & _ & H7).
  exists name, compileNode, st. split; [exact H1|]. split; [exact H4 | exact H7].
Defined.

(** ** The audit step of a generated workflow *)

Lemma generated_audit_node configIcon clock template :
  exists auditNode,
    fst (generateWorkflowWithAI configIcon clock template)
    = fst (generateWorkflowFromTemplate configIcon clock template) ++ [auditNode]
    /\ id auditNode = stamp clock template "ai"
    /\ type (data auditNode) = "aiAudit"
    /\ payloadField auditNode "aiPrompt" = JStr auditPrompt.
Proof.
  unfold generateWorkflowWithAI, generateWorkflowFromTemplate, stamp, readingOf.
  destruct (String.eqb (templateId template) "crowdfunding");
    eexists; repeat split; reflexivity.
Qed.

(** X24. In a workflow generated with the audit step, the audit waits
    for the compilation although no connection joins the two: the audit step
    comes after Compile in the execution order, so when the compilation
    fails the run ends with the message
    [Failed at node "Compile Contract": <msg>] (the label between two
    characters 34), where [<msg>] is the errors of the compiler joined by
    line feeds (character 10), or ['Compilation failed'] when there are
    none, and the audit is never started; when it succeeds, the audit step
    is next and
    asks [analyzeContract] about exactly the template's source with the
    prompt the generator put on the node. *)
Theorem generated_audit_waits_for_compilation configIcon clock template svc callback :
  let g := generateWorkflowWithAI configIcon clock template in
  let ctx := mkContext (fst g) (snd g) callback in
  let env := serviceEnv (fst g) svc in
  let project := stamp clock template "project" in
  let contract := stamp clock template "contract" in
  let compile := stamp clock template "compile" in
  let audit := stamp clock template "ai" in
  let source := templateCode template in
  stopDuring (otherwise svc) project = false ->
  stopDuring (otherwise svc) contract = false ->
  stopDuring (otherwise svc) compile = false ->
  valid (validateSolidityCode source) = true ->
  exists name,
    templateContractName source = Some name
    /\ (Compiler.success
          (Compiler.respond
             (fetchFor svc compile (Compiler.mkRequest source (JStr name) (JStr "0.8.20"))))
        = false ->
        exists msg st,
          execute ctx env initialState
          = (Returned
               (mkResult false
                  (JStr (String.append "Failed at node "
                           (String "034"
                              (String.append "Compile Contract"
                                 (String "034" (String.append ": " msg))))))
                  JUndefined), st)
          /\ (forall errs,
                Compiler.errors
                  (Compiler.respond
                     (fetchFor svc compile
                        (Compiler.mkRequest source (JStr name) (JStr "0.8.20"))))
                = Some errs ->
                String.concat (String "010" EmptyString) errs <> EmptyString ->
                msg = String.concat (String "010" EmptyString) errs)
          /\ (Compiler.errors
                (Compiler.respond
                   (fetchFor svc compile
                      (Compiler.mkRequest source (JStr name) (JStr "0.8.20"))))
              = None ->
              msg = "Compilation failed")
          /\ In (NodeStatus compile Error) (trace st)
          /\ forall e, In e (trace st) -> eventNode e <> Some audit)
    /\ (Compiler.success
          (Compiler.respond
             (fetchFor svc compile (Compiler.mkRequest source (JStr name) (JStr "0.8.20"))))
        = true ->
        exists auditNode st,
          findNode (fst g) audit = Some auditNode
          /\ buildExecutionOrder (fst g) (snd g)
             = Returned ([project; contract; compile; audit]
                         ++ skipn 3 (firstn 7 (stepIds (fst g))))
          /\ runOrder ctx env [project; contract; compile] initialState
             = (Returned None, st)
          /\ stopped st = false
          /\ handlerRunOf ctx env auditNode (executionData st)
             = Some (auditOutcome
                       (analyzeFor svc audit (JStr source) (JStr auditPrompt)))).
Proof.
  intros g ctx env project contract compile audit source Hstop1 Hstop2 Hstop3 Hvalid.
  destruct (generated_audit_shape configIcon clock template) as [Hids Hends].
  destruct (@generated_shape_order clock template true (fst g) (snd g) Hids Hends)
    as [[Hnd _] Horder].
  destruct (generated_audit_node configIcon clock template)
    as (auditNode & Hnodes & HidA & HkA & Hprompt).
  fold g in Hnodes.
  assert (incl (fst (generateWorkflowFromTemplate configIcon clock template)) (nodes ctx))
    as Hincl by (intros n Hn; cbn [nodes ctx]; rewrite Hnodes; apply in_or_app; left; exact Hn).
  destruct (@generated_run_to_compile configIcon clock template svc ctx Hnd Hincl Hstop1)
    as (_ & _ & _ & _ & _ & _ & _ & Hgood).
  destruct (Hgood Hvalid Hstop2)
    as (name & compileNode & st & Hcap & Hnne & HfM & HlabelM & Hrun & Hs & Hkeys & _
        & Hlookup & HrunM).
  fold project contract compile source in HfM, Hrun, Hkeys, Hlookup, HrunM.
  change (serviceEnv (nodes ctx) svc) with env in Hrun, HrunM.
  exists name. split; [exact Hcap|].
  set (result := Compiler.respond
                   (fetchFor svc compile
                      (Compiler.mkRequest source (JStr name) (JStr "0.8.20")))) in *.
  assert (buildExecutionOrder (nodes ctx) (edges ctx)
          = Returned ([project; contract] ++ compile
                      :: audit :: skipn 3 (firstn 7 (stepIds (fst g))))) as Hb.
  { cbn [nodes edges ctx]. fold g in Hids. rewrite Horder, Hids. reflexivity. }
  split.
  - intros Hfailed.
    assert (nodeResult ctx env compileNode (executionData st)
            = failure (orElse (match Compiler.errors result with
                               | Some errs => String.concat newline errs
                               | None => EmptyString
                               end) "Compilation failed")
            /\ nodeThrows ctx env compileNode (executionData st) = None)
      as (HresM & Hthrow).
    { unfold nodeThrows, handlerThrows, nodeResult. rewrite HrunM. unfold compileOutcome.
      rewrite Hfailed. split; reflexivity. }
    assert (success (nodeResult ctx env compileNode (executionData st)) = false) as Hfail
        by (rewrite HresM; reflexivity).
    destruct (@failing_step_ends_run ctx env _ [project; contract] compile
                (audit :: skipn 3 (firstn 7 (stepIds (fst g)))) compileNode st
                Hb eq_refl Hrun Hs HfM Hfail)
      as (st' & Hex & _ & _ & Herr & Hlater).
    eexists. exists st'. rewrite Hthrow, HresM, HlabelM in Hex.
    split; [exact Hex|]. split; [|split; [|split; [exact Herr|]]].
    + intros errs -> Hne. unfold orElse.
      destruct (String.eqb_spec (String.concat newline errs) EmptyString) as [E|_];
        [contradiction | reflexivity].
    + intros ->. reflexivity.
    + intros e. apply Hlater. left. reflexivity.
  - intros Hcompiled.
    assert (findNode (fst g) audit = Some auditNode) as HfA.
    { unfold audit. rewrite <- HidA. apply (@findNode_NoDup (fst g) auditNode Hnd).
      rewrite Hnodes. apply in_or_app. right. left. reflexivity. }
    assert (nodeResult ctx env compileNode (executionData st)
            = mkResult true "Contract compiled successfully" (Compiler.toJs result))
      as HresM.
    { unfold nodeResult. rewrite HrunM. unfold compileOutcome. rewrite Hcompiled.
      reflexivity. }
    assert (~ In compile (JsMap.keys (executionData st))) as Hfresh.
    { rewrite Hkeys. cbn [In]. intros [E|[E|[]]]; revert E;
        apply stamp_differs; unfold prefixes; cbn [In]; try tauto; discriminate. }
    exists auditNode. eexists. split; [exact HfA|]. split.
    { cbn [nodes edges ctx] in Hb. exact Hb. }
    split.
    { change [project; contract; compile] with ([project; contract] ++ [compile]).
      rewrite runOrder_app, Hrun.
      rewrite (@runOrder_step ctx env compile [] st compileNode Hs HfM).
      cbv zeta. rewrite HresM. cbn [success resultData runOrder ret].
      rewrite set_fresh by exact Hfresh.
      change (stopDuring env compile) with (stopDuring (otherwise svc) compile).
      rewrite Hstop3. reflexivity. }
    split; [reflexivity|]. cbn [executionData].
    unfold handlerRunOf. rewrite HkA.
    cbn [existsb String.eqb Ascii.eqb Bool.eqb orb knownKinds].
    unfold env at 1. cbn [serviceEnv handler String.eqb Ascii.eqb Bool.eqb].
    unfold executeAIAudit. rewrite Hlookup. unfold contractInputData.
    cbn [getField JsMap.get String.eqb Ascii.eqb Bool.eqb jsTruthy].
    assert (source <> EmptyString) as Hsource
        by (intros E; rewrite E in Hvalid; discriminate).
    destruct (String.eqb_spec source EmptyString) as [E|_]; [contradiction|]. cbn [negb].
    rewrite Hprompt, HidA. reflexivity.
Qed.

Lemma generated_audit_waits_for_compilation_witness :
  exists auditNode st,
    runOrder
      (mkContext (fst (generateWorkflowWithAI noIcon stoppedClock tokenTemplate))
         (snd (generateWorkflowWithAI noIcon stoppedClock tokenTemplate)) true)
      (serviceEnv (fst (generateWorkflowWithAI noIcon stoppedClock tokenTemplate))
         acceptingServices)
      [stamp stoppedClock tokenTemplate "project";
       stamp stoppedClock tokenTemplate "contract";
       stamp stoppedClock tokenTemplate "compile"] initialState
    = (Returned None, st)
    /\ handlerRunOf
         (mkContext (fst (generateWorkflowWithAI noIcon stoppedClock tokenTemplate))
            (snd (generateWorkflowWithAI noIcon stoppedClock tokenTemplate)) true)
         (serviceEnv (fst (generateWorkflowWithAI noIcon stoppedClock tokenTemplate))
            acceptingServices)
         auditNode (executionData st)
       = Some (auditOutcome (OpenAI.mkAnalysis true (Some "No issues found") None)).
Proof.
  assert (valid (validateSolidityCode (templateCode tokenTemplate)) = true) as Hvalid
      by by_computation.
  destruct (@generated_audit_waits_for_compilation noIcon stoppedClock tokenTemplate
              acceptingServices true eq_refl eq_refl eq_refl Hvalid)
    as (name & _ & _ & Hgood).
  destruct (Hgood eq_refl) as (auditNode & st & _ & _ & H3 & _ & H5).
  exists auditNode, st. split; [exact H3 | exact H5].
Defined.

(** * The status calls of a whole run *)

Lemma succeededCalls_app l1 l2 :
  succeededCalls (l1 ++ l2) = succeededCalls l1 ++ succeededCalls l2.
Proof. unfold succeededCalls. apply flat_map_app. Qed.

Lemma runOrder_calls ctx env order :
  NoDup order ->
  forall st r st',
    (forall i, In i order -> ~ In i (JsMap.keys (executionData st))) ->
    runOrder ctx env order st = (r, st') ->
    exists newIds failed,
      JsMap.keys (executionData st') = JsMap.keys (executionData st) ++ newIds
      /\ statusCalls (trace st')
         = statusCalls (trace st) ++ succeededCalls newIds ++ failed
      /\ (failed = []
          \/ exists node,
               In node (nodes ctx)
               /\ failed = [(id node, Running); (id node, Error)]
               /\ ((exists msg,
                      r = Returned (Some (failure (failedAtMessage (label (data node)) msg))))
                   \/ (exists v d,
                         (v = JUndefined \/ v = JNull)
                         /\ handlerThrows ctx env node d = Some v
                         /\ r = Thrown (errorObject
                                          (mkError (propertyTypeError env "message" v))))))
      /\ (r = Returned None -> failed = []).
Proof.
  induction order as [|nodeId rest IH]; intros Hnd st r st' Hfresh Hrun.
  - injection Hrun as <- <-. exists [], []. rewrite !app_nil_r. tauto.
  - inversion Hnd as [|? ? Hnotin Hnd']; subst.
    destruct (stopped st) eqn:Hs.
    { rewrite runOrder_stopped in Hrun by exact Hs. injection Hrun as <- <-.
      exists [], []. rewrite !app_nil_r. repeat split; tauto. }
    destruct (findNode (nodes ctx) nodeId) as [node|] eqn:Hf.
    2:{ rewrite runOrder_skip in Hrun by assumption.
        exact (IH Hnd' _ _ _ (fun i Hi => Hfresh i (or_intror Hi)) Hrun). }
    destruct (findNode_some _ _ Hf) as [Hid Hin].
    rewrite (@runOrder_step ctx env _ _ _ _ Hs Hf) in Hrun. cbv zeta in Hrun.
    pose proof (statusCalls_nodeEvents ctx env node (executionData st)) as Hcalls.
    destruct (success (nodeResult ctx env node (executionData st))).
    + rewrite set_fresh in Hrun by (apply Hfresh; left; reflexivity).
      match type of Hrun with runOrder _ _ _ ?s = _ => set (st1 := s) in * end.
      assert (forall i, In i rest -> ~ In i (JsMap.keys (executionData st1))) as Hfresh1.
      { intros i Hi. unfold st1, JsMap.keys. simpl. rewrite map_app, in_app_iff. simpl.
        intros [H|[H|[]]].
        - exact (Hfresh i (or_intror Hi) H).
        - subst i. contradiction. }
      destruct (IH Hnd' _ _ _ Hfresh1 Hrun) as (newIds & failed & H1 & H2 & H3 & H4).
      exists (nodeId :: newIds), failed.
      split; [|split; [|split; assumption]].
      * rewrite H1. unfold st1, JsMap.keys. cbn [executionData].
        rewrite map_app, <- app_assoc. reflexivity.
      * rewrite H2. unfold st1. cbn [trace].
        rewrite statusCalls_app, Hcalls, Hid, <- !app_assoc. reflexivity.
    + exists [], [(id node, Running); (id node, Error)].
      destruct (nodeThrows ctx env node (executionData st)) as [e|] eqn:Hthrow;
        injection Hrun as <- <-; cbn [trace executionData];
        (split; [rewrite app_nil_r; reflexivity|]);
        (split; [rewrite statusCalls_app, Hcalls; reflexivity|]);
        (split; [|discriminate]); right; exists node;
        (split; [exact Hin|]); (split; [reflexivity|]).
      * right. destruct (nodeThrows_null _ _ _ _ Hthrow) as (v & Hv & Hhandler & ->).
        exists v, (executionData st). tauto.
      * left. eexists. reflexivity.
Qed.

(** X21. The status calls of a run are determined by the execution data
    it ends with and by the step it failed at: they are [Running],
    [Success] for each key of the execution data, in key order, followed by
    nothing or by [Running], [Error] for one step of the graph. In the second
    case either [execute] returns the message
    [Failed at node "<label>": <msg>] with the label of this step (between
    two characters 34), or the handler of this step threw [null] or
    [undefined] and [execute] returns the message of the engine's
    [TypeError] (['Unknown error during workflow execution'] when that is
    empty). So at most one step of a run is marked [Error], it is the last
    step that was started, and a run that returns [success: true] marks no
    step [Error]. *)
Theorem run_marks_at_most_one_failure ctx env :
  exists failed,
    statusCalls (trace (snd (execute ctx env initialState)))
    = succeededCalls (JsMap.keys (executionData (snd (execute ctx env initialState))))
      ++ failed
    /\ (failed = []
        \/ exists node,
             In node (nodes ctx)
             /\ failed = [(id node, Running); (id node, Error)]
             /\ ((exists msg,
                    fst (execute ctx env initialState)
                    = Returned
                        (mkResult false
                           (JStr (String.append "Failed at node "
                                    (String "034"
                                       (String.append (label (data node))
                                          (String "034" (String.append ": " msg))))))
                           JUndefined))
                 \/ (exists v d run,
                       (v = JUndefined \/ v = JNull)
                       /\ handlerRunOf ctx env node d = Some run
                       /\ outcome run = Thrown v
                       /\ fst (execute ctx env initialState)
                          = Returned
                              (mkResult false
                                 (JStr (if String.eqb (propertyTypeError env "message" v)
                                              EmptyString
                                        then "Unknown error during workflow execution"
                                        else propertyTypeError env "message" v))
                                 JUndefined))))
    /\ forall r,
         fst (execute ctx env initialState) = Returned r -> success r = true -> failed = [].
Proof.
  destruct (execute_total ctx env initialState) as (res & st & Hex). rewrite Hex.
  cbn [fst snd].
  destruct (execute_cases _ _ Hex) as [[-> Hfail]|(order & r & Hb & _ & Hrun & Hres)].
  - exists []. split; [reflexivity|]. split; [left; reflexivity | reflexivity].
  - destruct (@runOrder_calls ctx env order (buildExecutionOrder_NoDup _ _ Hb) _ _ _
                (initial_fresh order) Hrun) as (newIds & failed & H1 & H2 & H3 & H4).
    cbn [executionData trace initialState JsMap.keys map statusCalls app] in H1, H2.
    exists failed. rewrite H1, H2. split; [reflexivity|]. split.
    + destruct H3 as [H3|(node & Hin & Hfailed & Hr)]; [left; exact H3|].
      right. exists node. split; [exact Hin|]. split; [exact Hfailed|].
      destruct Hr as [(msg & Hr)|(v & d & Hv & Hthrown & Hr)].
      * left. exists msg. rewrite Hres, Hr. reflexivity.
      * right. unfold handlerThrows in Hthrown.
        destruct (handlerRunOf ctx env node d) as [run|] eqn:Hhandler; [|discriminate].
        destruct (outcome run) as [r0|v0] eqn:Hout; [discriminate|].
        injection Hthrown as ->.
        exists v, d, run. split; [exact Hv|]. split; [exact Hhandler|].
        split; [exact Hout|].
        rewrite Hres, Hr.
        change (getField (errorObject (mkError (propertyTypeError env "message" v)))
                  "message")
          with (JStr (propertyTypeError env "message" v)).
        rewrite jsOr_string. reflexivity.
    + intros r0 [= <-] Hok. destruct r as [[result|]|e]; [| exact (H4 eq_refl) |].
      * rewrite Hres in Hok. rewrite (runOrder_some_fails _ _ _ _ Hrun) in Hok.
        discriminate.
      * rewrite Hres in Hok. discriminate.
Qed.

(** * Extract ABI and Extract Bytecode after Compile *)

(** What a successful Compile step has recorded. *)
Lemma compileOutcome_success result r :
  outcome (compileOutcome result) = Returned r ->
  success r = true ->
  Compiler.success result = true /\ resultData r = Compiler.toJs result.
Proof.
  unfold compileOutcome. destruct (Compiler.success result); cbn [negb outcome].
  - intros [= <-] _. split; reflexivity.
  - intros [= <-]. discriminate.
Qed.

Lemma executeCompile_success fetch trimError nodes node d r :
  outcome (executeCompile fetch trimError nodes node d) = Returned r ->
  success r = true ->
  exists result, Compiler.success result = true /\ resultData r = Compiler.toJs result.
Proof.
  unfold executeCompile.
  destruct (negb (jsTruthy _)); [simpl; intros [= <-]; discriminate|].
  intros Hout Hok. eexists. exact (compileOutcome_success _ Hout Hok).
Qed.

Lemma toJs_abi result :
  getField (Compiler.toJs result) "abi"
  = match Compiler.abi result with
    | Some l => JArr l
    | None => JUndefined
    end.
Proof.
  destruct result as [s a b e w]. unfold Compiler.toJs.
  cbn [Compiler.success Compiler.abi Compiler.bytecode Compiler.errors Compiler.warnings].
  destruct a, b, e, w; reflexivity.
Qed.

Lemma toJs_bytecode result :
  getField (Compiler.toJs result) "bytecode"
  = match Compiler.bytecode result with
    | Some b => JStr b
    | None => JUndefined
    end.
Proof.
  destruct result as [s a b e w]. unfold Compiler.toJs.
  cbn [Compiler.success Compiler.abi Compiler.bytecode Compiler.errors Compiler.warnings].
  destruct a, b, e, w; reflexivity.
Qed.

(** X22. The extract steps pass on what the compiler returned. Suppose
    the first Compile step [S] of a run succeeded and the run reaches a step
    [T]. Then the compiler service answered [S] with a result that has
    [success: true], and: if [T] is an Extract ABI step, it succeeds with
    exactly the [abi] of this result, which it also reports by
    [onNodeUpdate], and fails with "No compilation result found" when the
    result has no [abi]; if [T] is an Extract Bytecode step, it does the same
    with the [bytecode], and fails also when the bytecode is the empty
    string. *)
Theorem extract_steps_pass_on_the_compiler_result
  ctx svc order pre S between T post nodeS nodeT stS stT :
  let env := serviceEnv (nodes ctx) svc in
  buildExecutionOrder (nodes ctx) (edges ctx) = Returned order ->
  order = pre ++ S :: between ++ T :: post ->
  runOrder ctx env pre initialState = (Returned None, stS) ->
  stopped stS = false ->
  findNode (nodes ctx) S = Some nodeS ->
  type (data nodeS) = "compile" ->
  success (nodeResult ctx env nodeS (executionData stS)) = true ->
  findPreviousData (nodes ctx) (executionData stS) "compile" = None ->
  runOrder ctx env (pre ++ S :: between) initialState = (Returned None, stT) ->
  findNode (nodes ctx) T = Some nodeT ->
  exists result,
    Compiler.success result = true
    /\ JsMap.get (executionData stT) S = Some (Compiler.toJs result)
    /\ (type (data nodeT) = "generateABI" ->
        handlerRunOf ctx env nodeT (executionData stT)
        = Some (match Compiler.abi result with
                | Some l =>
                    mkRun [[("abi", JArr l)]]
                      (Returned (mkResult true "ABI generated successfully"
                                   (JObj [("abi", JArr l)])))
                | None => mkRun [] (Returned (failure noCompilationMessage))
                end))
    /\ (type (data nodeT) = "generateBytecode" ->
        handlerRunOf ctx env nodeT (executionData stT)
        = Some (match Compiler.bytecode result with
                | Some b =>
                    if String.eqb b EmptyString
                    then mkRun [] (Returned (failure noCompilationMessage))
                    else mkRun [[("bytecode", JStr b)]]
                           (Returned (mkResult true "Bytecode generated successfully"
                                        (JObj [("bytecode", JStr b)])))
                | None => mkRun [] (Returned (failure noCompilationMessage))
                end)).
Proof.
  intros env Hb Ho Hpre Hs HfS HkS Hok Hnone HrunT HfT.
  pose proof (@first_of_kind_is_found ctx env "compile" order pre S between T post
                nodeS stS stT Hb Ho Hpre Hs HfS HkS Hok Hnone HrunT) as Hfound.
  assert (handlerRunOf ctx env nodeS (executionData stS)
          = Some (executeCompile (fetchFor svc (id nodeS)) (trimTypeError svc) (nodes ctx)
                    nodeS (executionData stS))) as HrunS
      by (unfold handlerRunOf; rewrite HkS; reflexivity).
  pose proof Hok as Hok'. unfold nodeResult in Hok', Hfound. rewrite HrunS in Hok', Hfound.
  destruct (outcome (executeCompile _ _ _ _ _)) as [r|e] eqn:Hout; [|discriminate].
  destruct (executeCompile_success _ _ _ _ _ Hout Hok') as (result & Hsuccess & Hdata).
  rewrite Hdata in Hfound.
  exists result. split; [exact Hsuccess|]. split; [|split].
  - pose proof (@buildExecutionOrder_NoDup _ _ _ Hb) as Hnd. subst order.
    destruct (@prefix_extends ctx env pre _ _ _ Hnd Hpre) as [evs new H1 H2 H3 _ H5 _ _].
    simpl in H1, H2.
    assert (~ In S (JsMap.keys (executionData stS))) as Hfresh.
    { rewrite H2. unfold JsMap.keys. rewrite H3. intros Hin. apply in_succeededIds in Hin.
      apply NoDup_remove_2 in Hnd. apply Hnd. apply in_or_app. left.
      exact (H5 _ _ Hin eq_refl). }
    rewrite runOrder_app, Hpre, (@runOrder_step ctx env S between stS nodeS Hs HfS) in HrunT.
    cbv zeta in HrunT. rewrite Hok in HrunT.
    apply NoDup_app_remove_l in Hnd. apply NoDup_cons_iff in Hnd.
    destruct Hnd as [HSnotin Hnd']. apply NoDup_app_remove_r in Hnd'.
    match type of HrunT with runOrder _ _ _ ?s = _ => set (st1 := s) in * end.
    assert (forall i, In i between -> ~ In i (JsMap.keys (executionData st1))) as Hfresh1.
    { intros i Hi. unfold st1. cbn [executionData]. intros Hin.
      apply in_keys_set in Hin. destruct Hin as [->|Hin].
      - apply HSnotin. apply in_or_app. left. exact Hi.
      - rewrite H2 in Hin. unfold JsMap.keys in Hin. rewrite H3 in Hin.
        apply in_succeededIds in Hin.
        pose proof (H5 _ _ Hin eq_refl) as Hpre'.
        pose proof (@buildExecutionOrder_NoDup _ _ _ Hb) as Hnd0.
        apply (@NoDup_app_disjoint _ _ _ Hnd0 Hpre'). right. apply in_or_app. left. exact Hi. }
    destruct (@runOrder_extends ctx env between Hnd' _ _ _ Hfresh1 HrunT)
      as [evs' new' _ H2' H3' H4' H5' _ _].
    rewrite H2'. unfold st1. cbn [executionData].
    assert (JsMap.get (JsMap.set (executionData stS) S
                         (resultData (nodeResult ctx env nodeS (executionData stS)))) S
            = Some (Compiler.toJs result)) as Hget.
    { rewrite get_set_same. unfold nodeResult. rewrite HrunS, Hout, Hdata. reflexivity. }
    revert Hget. generalize (JsMap.set (executionData stS) S
                               (resultData (nodeResult ctx env nodeS (executionData stS)))).
    intros m Hget. clear - Hget. induction m as [|[k v] m IH]; [discriminate|].
    simpl in *. destruct (String.eqb k S); [exact Hget | exact (IH Hget)].
  - intros HkT. unfold handlerRunOf. rewrite HkT.
    cbn [existsb String.eqb Ascii.eqb Bool.eqb orb knownKinds].
    unfold executeGenerateABI, copyCompiledField. rewrite Hfound, toJs_abi.
    destruct (Compiler.abi result); reflexivity.
  - intros HkT. unfold handlerRunOf. rewrite HkT.
    cbn [existsb String.eqb Ascii.eqb Bool.eqb orb knownKinds].
    unfold executeGenerateBytecode, copyCompiledField. rewrite Hfound, toJs_bytecode.
    destruct (Compiler.bytecode result) as [b|]; [|reflexivity].
    cbn [jsTruthy]. destruct (String.eqb b EmptyString); reflexivity.
Qed.

Lemma extract_steps_pass_on_the_compiler_result_witness :
  exists result,
    Compiler.success result = true
    /\ JsMap.get
         (executionData
            (snd (runOrder pipeline (serviceEnv (nodes pipeline) acceptingServices)
                    ["A"; "B"] initialState))) "B"
       = Some (Compiler.toJs result).
Proof.
  pose proof (@extract_steps_pass_on_the_compiler_result pipeline acceptingServices
                ["A"; "B"; "C"] ["A"] "B" [] "C" [] (plainNode "B" "compile")
                (plainNode "C" "generateABI")
                (snd (runOrder pipeline (serviceEnv (nodes pipeline) acceptingServices)
                        ["A"] initialState))
                (snd (runOrder pipeline (serviceEnv (nodes pipeline) acceptingServices)
                        ["A"; "B"] initialState))) as H.
  cbv zeta in H. do 10 premise H.
  destruct H as (result & H1 & H2 & _).
  exists result. split; [exact H1 | exact H2].
Defined.

(** * The edges of the store after a run *)

Lemma lastEdgeUpdate_app t1 t2 :
  lastEdgeUpdate (t1 ++ t2)
  = match lastEdgeUpdate t2 with
    | Some es => Some es
    | None => lastEdgeUpdate t1
    end.
Proof.
  induction t1 as [|e t1 IH]; simpl.
  - destruct (lastEdgeUpdate t2); reflexivity.
  - rewrite IH. destruct (lastEdgeUpdate t2); reflexivity.
Qed.

Lemma afterLastCall_app calls1 calls2 edges :
  afterLastCall (calls1 ++ calls2) edges
  = match afterLastCall calls2 edges with
    | Some es => Some es
    | None => afterLastCall calls1 edges
    end.
Proof.
  unfold afterLastCall. rewrite rev_app_distr.
  destruct (rev calls2) as [|[i s] l]; reflexivity.
Qed.

(** The last edge update of a step is the one for its terminal status. *)
Lemma lastEdgeUpdate_nodeEvents ctx env node d :
  hasOnEdgeUpdate ctx = true ->
  lastEdgeUpdate (nodeEvents ctx env node d)
  = afterLastCall (statusCalls (nodeEvents ctx env node d)) (edges ctx).
Proof.
  intros Hcb. rewrite statusCalls_nodeEvents. unfold afterLastCall. cbn [rev app].
  unfold nodeEvents, terminalEvents, edgeEvents. rewrite Hcb.
  rewrite app_comm_cons, app_assoc.
  rewrite lastEdgeUpdate_app.
  destruct (success (nodeResult ctx env node d));
    [|destruct (nodeThrows ctx env node d)]; reflexivity.
Qed.

Lemma runOrder_last_update ctx env order :
  hasOnEdgeUpdate ctx = true ->
  forall st r st',
    runOrder ctx env order st = (r, st') ->
    exists evs,
      trace st' = trace st ++ evs
      /\ lastEdgeUpdate evs = afterLastCall (statusCalls evs) (edges ctx).
Proof.
  intros Hcb. induction order as [|nodeId rest IH]; intros st r st' Hrun.
  - injection Hrun as <- <-. exists []. rewrite app_nil_r. split; reflexivity.
  - destruct (stopped st) eqn:Hs.
    { rewrite runOrder_stopped in Hrun by exact Hs. injection Hrun as <- <-.
      exists []. rewrite app_nil_r. split; reflexivity. }
    destruct (findNode (nodes ctx) nodeId) as [node|] eqn:Hf.
    2:{ rewrite runOrder_skip in Hrun by assumption. exact (IH _ _ _ Hrun). }
    rewrite (@runOrder_step ctx env _ _ _ _ Hs Hf) in Hrun. cbv zeta in Hrun.
    pose proof (@lastEdgeUpdate_nodeEvents ctx env node (executionData st) Hcb) as Hlast.
    destruct (success (nodeResult ctx env node (executionData st))).
    + destruct (IH _ _ _ Hrun) as (evs & H1 & H2). cbn [trace] in H1.
      exists (nodeEvents ctx env node (executionData st) ++ evs).
      split; [rewrite H1, app_assoc; reflexivity|].
      rewrite lastEdgeUpdate_app, statusCalls_app, afterLastCall_app, H2, Hlast.
      reflexivity.
    + exists (nodeEvents ctx env node (executionData st)). split; [|exact Hlast].
      destruct (nodeThrows ctx env node (executionData st));
        injection Hrun as <- <-; reflexivity.
Qed.

Lemma fold_onCallback_edges spread t :
  forall st,
    Store.edges (fold_left (onCallback spread) t st)
    = match lastEdgeUpdate t with
      | Some es => es
      | None => Store.edges st
      end.
Proof.
  induction t as [|e t IH]; intros st; [reflexivity|].
  simpl fold_left. rewrite IH. cbn [lastEdgeUpdate].
  destruct (lastEdgeUpdate t); [reflexivity|].
  destruct e; reflexivity.
Qed.

(** X23. The edge list a run leaves in the store carries the status of
    one step only. Every call of [onEdgeUpdate] passes the edges of the
    execution context with one status written on them, and [setEdges]
    replaces the edge list of the store, so after [runWorkflow] the store
    holds the edges it held before the run, connection by connection in the
    same order, with the terminal status of the step that was started last
    written on the connections that touch this step: a connection that
    leaves the step has the status as its [sourceStatus], a connection that
    does not leave the step but enters it has the status as its
    [targetStatus], and every other connection, with every other field, is
    as it was before the run; what the updates for the earlier steps wrote
    is gone. When no step was started, the edges are as before. *)
Theorem run_leaves_the_last_edge_update spread env st :
  Store.isExecuting st = false ->
  Store.nodes st <> [] ->
  let final := snd (execute (mkContext (Store.nodes st) (Store.edges st) true)
                      env initialState) in
  (statusCalls (trace final) = [] ->
   Store.edges (runWorkflow spread env st) = Store.edges st)
  /\ forall i s earlier,
       rev (statusCalls (trace final)) = (i, s) :: earlier ->
       (s = Success \/ s = Error)
       /\ In i (stepIds (Store.nodes st))
       /\ Forall2
            (fun e e' =>
               edgeId e' = edgeId e /\ source e' = source e /\ target e' = target e
               /\ (source e = i ->
                   sourceStatus e' = Some s /\ targetStatus e' = targetStatus e)
               /\ (source e <> i -> target e = i ->
                   sourceStatus e' = sourceStatus e /\ targetStatus e' = Some s)
               /\ (source e <> i -> target e <> i -> e' = e))
            (Store.edges st) (Store.edges (runWorkflow spread env st))
       /\ forall e, In e (Store.edges st) -> source e <> i -> target e <> i ->
            In e (Store.edges (runWorkflow spread env st)).
Proof.
  intros Hidle Hnodes final.
  set (ctx := mkContext (Store.nodes st) (Store.edges st) true) in *.
  assert (lastEdgeUpdate (trace final) = afterLastCall (statusCalls (trace final)) (edges ctx))
    as Hlast.
  { unfold final. destruct (execute_total ctx env initialState) as (res & st' & Hex).
    rewrite Hex. cbn [snd].
    destruct (execute_cases _ _ Hex) as [[-> _]|(order & r & _ & _ & Hrun & _)];
      [reflexivity|].
    destruct (@runOrder_last_update ctx env order eq_refl _ _ _ Hrun)
      as (evs & H1 & H2).
    cbn [trace initialState app] in H1. rewrite H1. exact H2. }
  assert (Store.edges (runWorkflow spread env st)
          = match rev (statusCalls (trace final)) with
            | [] => Store.edges st
            | (i, s) :: _ => map (setEdgeStatus i s) (Store.edges st)
            end) as Hedges.
  { unfold runWorkflow. rewrite Hidle.
    destruct (Nat.eqb_spec (List.length (Store.nodes st)) 0) as [Hz|_].
    { destruct (Store.nodes st); [contradiction | discriminate]. }
    cbn [Store.setIsExecuting Store.edges]. rewrite fold_onCallback_edges.
    fold ctx. fold final. rewrite Hlast. unfold afterLastCall.
    destruct (rev (statusCalls (trace final))) as [|[i s] l]; reflexivity. }
  split; [intros Hnone; rewrite Hedges, Hnone; reflexivity|].
  intros i s earlier Hrev. rewrite Hedges, Hrev.
  destruct (execute_sequential ctx env) as (Hseq & _ & Hsteps). fold final in Hseq, Hsteps.
  assert (In (i, s) (statusCalls (trace final))) as Hin
      by (apply in_rev; rewrite Hrev; left; reflexivity).
  assert (s = Success \/ s = Error) as Hterm.
  { clear - Hseq Hrev. revert i s earlier Hrev.
    induction Hseq as [|j s' rest Hs Hrest IH]; intros i s earlier Hrev; [discriminate|].
    destruct rest as [|c rest'].
    - cbn in Hrev. injection Hrev as _ <- _. exact Hs.
    - change ((j, Running) :: (j, s') :: c :: rest')
        with ([(j, Running); (j, s')] ++ c :: rest') in Hrev.
      rewrite rev_app_distr in Hrev.
      destruct (rev (c :: rest')) as [|c' l] eqn:E.
      + apply (f_equal (@List.length _)) in E. rewrite length_rev in E. discriminate.
      + cbn [app] in Hrev. injection Hrev as -> _. exact (IH _ _ _ eq_refl). }
  split; [exact Hterm|]. split.
  - assert (In (i, Running) (statusCalls (trace final))) as Hrun.
    { clear - Hseq Hin. induction Hseq as [|j s' rest Hs _ IH]; [destruct Hin|].
      destruct Hin as [[= -> ->]|[[= -> ->]|Hin]];
        [left; reflexivity | left; reflexivity | right; right; exact (IH Hin)]. }
    apply Hsteps. unfold startedIds. apply in_map_iff. exists (i, Running).
    split; [reflexivity|]. apply filter_In. split; [exact Hrun | reflexivity].
  - split; [apply setEdgeStatus_written|].
    intros e He Hs Ht. apply in_map_iff. exists e. split; [|exact He].
    apply setEdgeStatus_other; assumption.
Qed.

Lemma run_leaves_the_last_edge_update_witness :
  In "C" (stepIds (Store.nodes pipelineStore))
  /\ Store.edges (runWorkflow keepData pipelineAccepted pipelineStore)
     = [mkEdge "e1" "A" "B" None None; mkEdge "e2" "B" "C" None (Some Success)].
Proof.
  assert (Store.nodes pipelineStore <> []) as Hnodes by discriminate.
  pose proof (proj2 (@run_leaves_the_last_edge_update keepData pipelineAccepted pipelineStore
                       eq_refl Hnodes) "C" Success
                [("C", Running); ("B", Success); ("B", Running); ("A", Success);
                 ("A", Running)]) as H.
  premise H.
  destruct H as (_ & Hin & _). split; [exact Hin | by_computation].
Defined.
